(** * SysY language server: validators, message enrichment, hover types and
    quick fixes

    A shallow embedding of the semantic validators (declaration, function and
    control-flow checks), of the error message provider, of the hover type
    resolution and of the quick-fix engine of the SysY language server,
    together with the properties of these components.

    Conventions of the embedding.
    - A string of the program is a [string]: a sequence of bytes, the UTF-8
      encoding of the text.  On ASCII text a byte is a UTF-16 code unit of the
      program; substring containment agrees on all well-formed text.  A
      length, an index or a column of the embedding counts bytes, so it is
      the one of the program on ASCII text only ([ascii_text]).
    - The white space of the embedding ([\s], [trim], [parseInt]) and the
      line ends at which [.] stops are those of ASCII.  The program also
      takes the white space and the line separators outside ASCII; the two
      agree on a text without these characters ([wide_space_free]).
    - A number of the program that counts or indexes is a [nat] or a [Z]
      (exact; the program's numbers are exact below 2^53).
    - A computation that can raise is an [outcome]; [Throw] is a raised
      exception.  [Unmodelled] marks the runs that build a regular expression
      from a text with pattern syntax characters in it (see [Regex.RegExp]).
    - A check returns the diagnostics that it reports through the validation
      acceptor, in the order of the reports.  A method that pushes onto a
      shared array threads that array as state. *)

From Stdlib Require Import Strings.String Strings.Ascii List ZArith Lia Bool.
From Stdlib Require Import Numbers.DecimalString Numbers.DecimalNat
  Numbers.DecimalPos.
From stdpp Require Import gmap strings.
Import ListNotations.

Set Warnings "-register-all".
Local Open Scope string_scope.
Local Open Scope list_scope.

(** ** Host language: exceptions and strings *)

Module JS.

Inductive exn : Type :=
| SyntaxError
| TypeError.

Inductive outcome (A : Type) : Type :=
| Ok (a : A)
| Throw (e : exn)
| Unmodelled.

Arguments Ok {A} a.
Arguments Throw {A} e.
Arguments Unmodelled {A}.

Definition bind {A B : Type} (m : outcome A) (f : A -> outcome B) : outcome B :=
  match m with
  | Ok a => f a
  | Throw e => Throw e
  | Unmodelled => Unmodelled
  end.

(** [try { body } catch (error) { handler }] *)
Definition try_catch {A : Type} (body : outcome A) (handler : exn -> outcome A)
  : outcome A :=
  match body with
  | Throw e => handler e
  | other => other
  end.

(** The line feed and the double quote, as one-character strings. *)
Definition LF : string := String "010"%char EmptyString.
Definition DQUOTE : string := String "034"%char EmptyString.

(** [s.includes(pat)] *)
Fixpoint includes (s pat : string) : bool :=
  String.prefix pat s ||
  match s with
  | EmptyString => false
  | String _ s' => includes s' pat
  end.

(** [s.startsWith(pat)] and [s.endsWith(pat)] *)
Definition startsWith (s pat : string) : bool := String.prefix pat s.

Definition endsWith (s pat : string) : bool :=
  let n := String.length s in
  let m := String.length pat in
  (m <=? n)%nat && String.eqb (String.substring (n - m) m s) pat.

(** [s.substring(a, b)]: the arguments are clamped to the string and swapped
    when [a > b]. *)
Definition substring (s : string) (a b : Z) : string :=
  let len := Z.of_nat (String.length s) in
  let clamp := fun x => Z.max 0 (Z.min x len) in
  let lo := Z.min (clamp a) (clamp b) in
  let hi := Z.max (clamp a) (clamp b) in
  String.substring (Z.to_nat lo) (Z.to_nat (hi - lo)) s.

(** A string is falsy exactly when it is empty: [!s]. *)
Definition falsy (s : string) : bool := String.eqb s EmptyString.

(** [s || d] on strings *)
Definition or_else (s d : string) : string := if falsy s then d else s.

(** [" ".repeat(n)] and the like *)
Fixpoint repeat (s : string) (n : nat) : string :=
  match n with
  | O => EmptyString
  | S n' => s +:+ repeat s n'
  end.

(** [parts.join(sep)] *)
Fixpoint join (sep : string) (parts : list string) : string :=
  match parts with
  | [] => EmptyString
  | [p] => p
  | p :: rest => p +:+ sep +:+ join sep rest
  end.

(** The decimal text of a number, as a template literal prints it. *)
Definition string_of_nat (n : nat) : string :=
  NilZero.string_of_uint (Nat.to_uint n).

Definition string_of_Z (z : Z) : string :=
  NilZero.string_of_int (Z.to_int z).

(** The white space of ASCII: tab, line feed, vertical tab, form feed,
    carriage return and space.  The white space of the program has, besides
    these, the characters of [wide_spaces]. *)
Definition is_white (c : ascii) : bool :=
  let n := nat_of_ascii c in ((9 <=? n) && (n <=? 13) || (n =? 32))%nat.

Fixpoint skip_white (s : string) : string :=
  match s with
  | String c s' => if is_white c then skip_white s' else s
  | EmptyString => s
  end.

Definition digit_value (c : ascii) : option Z :=
  let n := nat_of_ascii c in
  if ((48 <=? n) && (n <=? 57))%nat then Some (Z.of_nat (n - 48)) else None.

Fixpoint digits_prefix (s : string) (acc : option Z) : option Z :=
  match s with
  | String c s' =>
      match digit_value c with
      | Some d =>
          digits_prefix s'
            (Some (10 * match acc with Some a => a | None => 0 end + d)%Z)
      | None => acc
      end
  | EmptyString => acc
  end.

(** [parseInt(s, 10)]: leading white space, an optional sign, then the longest
    run of decimal digits; [None] is NaN. *)
Definition parseInt (s : string) : option Z :=
  match skip_white s with
  | String "-" s' => option_map Z.opp (digits_prefix s' None)
  | String "+" s' => digits_prefix s' None
  | s' => digits_prefix s' None
  end.

(** [s.split(sep)] for a separator of one character *)
Fixpoint split_acc (sep : ascii) (s : string) (current : string) : list string :=
  match s with
  | EmptyString => [current]
  | String c s' =>
      if Ascii.eqb c sep then current :: split_acc sep s' EmptyString
      else split_acc sep s' (current +:+ String c EmptyString)
  end.

Definition split (sep : ascii) (s : string) : list string :=
  split_acc sep s EmptyString.

(** [s.trimEnd()] and [s.trim()], on the white space of ASCII: those of the
    program on a text that is [wide_space_free]. *)
Fixpoint trim_end (s : string) : string :=
  match s with
  | EmptyString => EmptyString
  | String c s' =>
      match trim_end s' with
      | EmptyString => if is_white c then EmptyString else String c EmptyString
      | rest => String c rest
      end
  end.

Definition trim (s : string) : string := trim_end (skip_white s).

(** [s.indexOf(pat)]; [None] is -1.  The index counts the bytes before the
    occurrence: it is the index of the program, which counts UTF-16 code
    units, when the text before the occurrence is ASCII. *)
Fixpoint indexOf_from (s pat : string) (pos : nat) : option nat :=
  if String.prefix pat s then Some pos
  else
    match s with
    | EmptyString => None
    | String _ s' => indexOf_from s' pat (S pos)
    end.

Definition indexOf (s pat : string) : option nat := indexOf_from s pat 0.

(** [a || b] on optional texts: an absent or empty [a] gives [b]. *)
Definition or_opt (a b : option string) : option string :=
  match a with
  | Some s => if falsy s then b else a
  | None => b
  end.

End JS.

Notation "'let*' x ':=' m 'in' k" := (JS.bind m (fun x => k))
  (at level 10, x name, m at level 100, k at level 200).

(** ** Host language: regular expressions

    The regular expressions of the program are written as syntax trees; a
    literal [/.../] of the source is the tree of its pattern.  Matching is the
    backtracking, leftmost, greedy matching of the host language.  The classes
    [\s], [\d] and [\w] are the ASCII ones. *)

Module Regex.

Inductive class_item : Type :=
| CChar (c : ascii)
| CSpace          (* \s *)
| CDigit          (* \d *)
| CWord.          (* \w *)

Inductive regex : Type :=
| Empty
| Char (c : ascii)
| Class (negated : bool) (items : list class_item)
| Any                              (* . *)
| Seq (r1 r2 : regex)
| Alt (r1 r2 : regex)
| Star (r : regex)                 (* r*, greedy *)
| Group (i : nat) (r : regex)      (* the i-th capturing group *)
| Bol                              (* ^ *)
| Eol.                             (* $ *)

Definition Plus (r : regex) : regex := Seq r (Star r).
Definition Opt (r : regex) : regex := Alt r Empty.

(** The pattern that matches the text [s] literally. *)
Fixpoint Str (s : string) : regex :=
  match s with
  | EmptyString => Empty
  | String c s' => Seq (Char c) (Str s')
  end.

(** A sequence of patterns. *)
Fixpoint seqs (rs : list regex) : regex :=
  match rs with
  | [] => Empty
  | [r] => r
  | r :: rest => Seq r (seqs rest)
  end.

Definition space : regex := Class false [CSpace].
Definition digit : regex := Class false [CDigit].
Definition word : regex := Class false [CWord].

(** [\s], on the white space of ASCII (see [JS.is_white]). *)
Definition is_space (c : ascii) : bool :=
  let n := nat_of_ascii c in
  ((9 <=? n) && (n <=? 13) || (n =? 32))%nat.

Definition is_digit (c : ascii) : bool :=
  let n := nat_of_ascii c in ((48 <=? n) && (n <=? 57))%nat.

Definition is_word (c : ascii) : bool :=
  let n := nat_of_ascii c in
  (((65 <=? n) && (n <=? 90)) || ((97 <=? n) && (n <=? 122))
   || is_digit c || (n =? 95))%nat.

Definition item_matches (c : ascii) (it : class_item) : bool :=
  match it with
  | CChar d => Ascii.eqb c d
  | CSpace => is_space c
  | CDigit => is_digit c
  | CWord => is_word c
  end.

Definition class_matches (negated : bool) (items : list class_item) (c : ascii)
  : bool :=
  xorb negated (existsb (item_matches c) items).

(** The line ends at which [.] stops: line feed and carriage return.  The
    [.] of the program stops at U+2028 and U+2029 too, which a text that is
    [wide_space_free] does not hold. *)
Definition is_line_terminator (c : ascii) : bool :=
  let n := nat_of_ascii c in ((n =? 10) || (n =? 13))%nat.

(** The text captured by each group that took part in the match. *)
Definition captures := list (nat * string).

Fixpoint capture (caps : captures) (i : nat) : option string :=
  match caps with
  | [] => None
  | (j, s) :: rest => if (i =? j)%nat then Some s else capture rest i
  end.

(** [run r pos s caps k]: match [r] at offset [pos], where [s] is the rest of
    the input, and continue with [k]; the first success wins. *)
Fixpoint run {T : Type} (r : regex) (pos : nat) (s : string) (caps : captures)
  (k : nat -> string -> captures -> option T) {struct r} : option T :=
  match r with
  | Empty => k pos s caps
  | Char c =>
      match s with
      | String d s' => if Ascii.eqb c d then k (S pos) s' caps else None
      | EmptyString => None
      end
  | Class negated items =>
      match s with
      | String d s' =>
          if class_matches negated items d then k (S pos) s' caps else None
      | EmptyString => None
      end
  | Any =>
      match s with
      | String d s' => if is_line_terminator d then None else k (S pos) s' caps
      | EmptyString => None
      end
  | Seq r1 r2 =>
      run r1 pos s caps (fun pos' s' caps' => run r2 pos' s' caps' k)
  | Alt r1 r2 =>
      match run r1 pos s caps k with
      | Some t => Some t
      | None => run r2 pos s caps k
      end
  | Star r' =>
      (fix star (fuel : nat) (pos : nat) (s : string) (caps : captures)
         {struct fuel} : option T :=
         match fuel with
         | O => k pos s caps
         | S fuel' =>
             match run r' pos s caps
                     (fun pos' s' caps' =>
                        if (pos <? pos')%nat then star fuel' pos' s' caps'
                        else None) with
             | Some t => Some t
             | None => k pos s caps
             end
         end) (S (String.length s)) pos s caps
  | Group i r' =>
      run r' pos s caps
        (fun pos' s' caps' =>
           k pos' s' ((i, String.substring 0 (pos' - pos) s) :: caps'))
  | Bol => if (pos =? 0)%nat then k pos s caps else None
  | Eol => match s with EmptyString => k pos s caps | _ => None end
  end.

(** The result of [input.match(r)] and [r.exec(input)]. *)
Record match_result : Type := mkMatch {
  index : nat;
  matched : string;              (* element 0 *)
  groups : captures              (* elements 1, 2, ... *)
}.

Fixpoint exec_from (r : regex) (pos : nat) (s : string) : option match_result :=
  match run r pos s [] (fun pos' _ caps => Some (pos', caps)) with
  | Some (pos', caps) =>
      Some (mkMatch pos (String.substring 0 (pos' - pos) s) caps)
  | None =>
      match s with
      | EmptyString => None
      | String _ s' => exec_from r (S pos) s'
      end
  end.

Definition exec (r : regex) (input : string) : option match_result :=
  exec_from r 0 input.

(** [r.test(input)] *)
Definition test (r : regex) (input : string) : bool :=
  match exec r input with Some _ => true | None => false end.

(** [m[i]] for [i >= 1]: the captured text, absent when the group did not take
    part in the match. *)
Definition group (m : match_result) (i : nat) : option string :=
  capture (groups m) i.

(** [input.replace(r, replacement)], for a replacement text without [$]. *)
Definition replace (input : string) (r : regex) (replacement : string)
  : string :=
  match exec r input with
  | None => input
  | Some m =>
      String.substring 0 (index m) input +:+ replacement +:+
      String.substring (index m + String.length (matched m))
        (String.length input - (index m + String.length (matched m))) input
  end.

(** The syntax characters of a pattern text. *)
Definition is_syntax_character (c : ascii) : bool :=
  existsb (Ascii.eqb c)
    ["^"; "$"; "\"; "."; "*"; "+"; "?"; "("; ")"; "["; "]"; "{"; "}"; "|"]%char.

Fixpoint plain (s : string) : bool :=
  match s with
  | EmptyString => true
  | String c s' => negb (is_syntax_character c) && plain s'
  end.

(** The text is plain characters followed by one opening bracket. *)
Definition opens_group (s : string) : bool :=
  match String.length s with
  | O => false
  | S n =>
      plain (String.substring 0 n s)
      && String.eqb (String.substring n 1 s) "("
  end.

(** [new RegExp(`${name}...`)] for a pattern text that starts with the
    interpolated text [name] and goes on with the pattern [rest]: a [name]
    without syntax characters stands for itself; a [name] that ends by
    opening a group, which the rest of the pattern never closes, is rejected
    with a syntax error.  Other texts are outside the embedding. *)
Definition RegExp (name : string) (rest : regex) : JS.outcome regex :=
  if plain name then JS.Ok (Seq (Str name) rest)
  else if opens_group name then JS.Throw JS.SyntaxError
  else JS.Unmodelled.

End Regex.

(** ** Error message provider (error-message-provider.ts) *)

Module ErrorMessageProvider.
Import JS.

Inductive ErrorCategory : Type :=
| VARIABLE | FUNCTION | ARRAY | TYPE | CONTROL | OTHER.

Record ErrorInfo : Type := mkErrorInfo {
  message : string;
  suggestion : string;
  category : ErrorCategory
}.

(** [`${message}\n\n详细信息：${errorInfo.message}\n建议：${errorInfo.suggestion}`] *)
Definition enhanced (msg : string) (errorInfo : ErrorInfo) : string :=
  msg +:+ LF +:+ LF +:+ "详细信息：" +:+ message errorInfo +:+ LF +:+
  "建议：" +:+ suggestion errorInfo.

(** The two lookups are written over any table and any regular expression
    engine: [RegExp_test pattern msg] is [new RegExp(pattern).test(msg)], which
    raises when the pattern is rejected.  A table lists the keys of the object
    in the order of [for ... in], each with its value. *)
Section Lookup.

Variable RegExp_test : string -> string -> outcome bool.
Variable ERROR_DETAILS : list (string * ErrorInfo).

(** First loop: [if (message.includes(errorPattern)) return ...]. *)
Fixpoint exact_pass (msg : string) (entries : list (string * ErrorInfo))
  : option ErrorInfo :=
  match entries with
  | [] => None
  | (errorPattern, errorInfo) :: rest =>
      if includes msg errorPattern then Some errorInfo
      else exact_pass msg rest
  end.

(** Second loop: the keys that start and end with a double quote are patterns;
    the pattern is the key without its first and last character. *)
Fixpoint regex_pass (msg : string) (entries : list (string * ErrorInfo))
  : outcome (option ErrorInfo) :=
  match entries with
  | [] => Ok None
  | (errorPattern, errorInfo) :: rest =>
      if startsWith errorPattern DQUOTE && endsWith errorPattern DQUOTE then
        let regexPattern :=
          substring errorPattern 1
            (Z.of_nat (String.length errorPattern) - 1) in
        bind (RegExp_test regexPattern msg) (fun hit =>
          if hit then Ok (Some errorInfo) else regex_pass msg rest)
      else regex_pass msg rest
  end.

Definition getEnhancedMessage_in (msg : string) : outcome string :=
  if falsy msg then Ok "未知错误"
  else
    match exact_pass msg ERROR_DETAILS with
    | Some errorInfo => Ok (enhanced msg errorInfo)
    | None =>
        bind (regex_pass msg ERROR_DETAILS) (fun found =>
          match found with
          | Some errorInfo => Ok (enhanced msg errorInfo)
          | None => Ok msg
          end)
    end.

Definition getSafeEnhancedMessage_in (msg : string) : outcome string :=
  try_catch (getEnhancedMessage_in msg)
    (fun _error => Ok (or_else msg "未知错误")).

(** The result is [None] for [undefined]. *)
Definition getErrorCategory_in (msg : string) : outcome (option ErrorCategory) :=
  if falsy msg then Ok None
  else
    match exact_pass msg ERROR_DETAILS with
    | Some errorInfo => Ok (Some (category errorInfo))
    | None =>
        bind (regex_pass msg ERROR_DETAILS) (fun found =>
          match found with
          | Some errorInfo => Ok (Some (category errorInfo))
          | None => Ok (Some OTHER)
          end)
    end.

End Lookup.

(** [new RegExp(pattern).test(msg)] *)
Definition RegExp_test (pattern msg : string) : outcome bool :=
  bind (Regex.RegExp pattern Regex.Empty) (fun regex => Ok (Regex.test regex msg)).

(** The static table, in the order of its source. *)
Definition ERROR_DETAILS : list (string * ErrorInfo) :=
  [ ("无法重新声明块范围变量",
     mkErrorInfo
       "在同一个作用域中，每个变量名只能声明一次。请使用不同的变量名或在不同的作用域中声明。"
       "使用不同的变量名或移除重复声明" VARIABLE);
    ("使用了未定义的变量",
     mkErrorInfo
       "尝试使用一个未在当前作用域中声明的变量。请确保在使用前先声明变量。"
       "先声明变量再使用" VARIABLE);
    ("未声明的变量",
     mkErrorInfo
       "引用了一个在当前作用域中不存在的变量。变量必须在使用前声明。"
       "声明该变量或检查变量名是否拼写错误" VARIABLE);
    ("数组的初始化元素数量超过了数组大小",
     mkErrorInfo
       "数组初始化时提供的元素数量不能超过数组声明的大小。请减少初始化元素的数量或增加数组大小。"
       "增大数组声明大小或减少初始化元素" ARRAY);
    ("调用了未定义的函数",
     mkErrorInfo
       "尝试调用一个未声明的函数。请确保在调用前先定义该函数。"
       "定义该函数或检查函数名是否拼写错误" FUNCTION);
    ("函数名已经定义过",
     mkErrorInfo
       "在同一个作用域中，每个函数名只能定义一次。请使用不同的函数名。"
       "使用不同的函数名或移除重复定义" FUNCTION);
    ("参数个数不匹配",
     mkErrorInfo
       "函数调用时提供的参数数量与函数定义时的参数数量不匹配。请检查函数定义并提供正确数量的参数。"
       "调整参数数量以匹配函数定义" FUNCTION);
    ("非循环块中使用了 Stmtbreak 语句",
     mkErrorInfo
       "break语句只能用在循环内部。请移除不在循环体内的break语句。"
       "移除break语句或将其放在循环内" CONTROL);
    ("非循环块中使用了 Stmtcontinue 语句",
     mkErrorInfo
       "continue语句只能用在循环内部。请移除不在循环体内的continue语句。"
       "移除continue语句或将其放在循环内" CONTROL);
    ("有返回值的函数缺少 return 语句",
     mkErrorInfo
       "有返回值类型的函数必须包含至少一个return语句。请添加带有适当返回值的return语句。"
       "添加带有适当返回值的return语句" FUNCTION);
    ("有返回值的函数不应返回为空",
     mkErrorInfo
       "有返回值的函数需要在return语句中提供一个值。请在return语句中添加适当的返回值。"
       "在return语句中添加返回值" FUNCTION);
    ("void 函数不应存在非空返回值",
     mkErrorInfo
       "void类型的函数不应该有返回值。请移除return语句中的表达式。"
       "移除return语句中的表达式或使用'return;'" FUNCTION);
    ("不能将void类型变量参与运算或用于赋值",
     mkErrorInfo
       "void类型的函数返回值不能用于赋值或参与运算。请使用有返回值的函数。"
       "修改函数返回类型或不将结果用于赋值" TYPE);
    ("类型不匹配",
     mkErrorInfo
       "表达式的类型与预期的类型不匹配。请确保类型兼容或添加适当的类型转换。"
       "修改表达式或添加类型转换" TYPE);
    ("数组.*初始化元素数量超过了数组大小",
     mkErrorInfo
       "数组初始化时提供的元素数量不能超过数组声明的大小。请减少初始化元素的数量或增加数组大小。"
       "增大数组大小或减少初始化元素" ARRAY) ].

Definition getEnhancedMessage : string -> outcome string :=
  getEnhancedMessage_in RegExp_test ERROR_DETAILS.

Definition getSafeEnhancedMessage : string -> outcome string :=
  getSafeEnhancedMessage_in RegExp_test ERROR_DETAILS.

Definition getErrorCategory : string -> outcome (option ErrorCategory) :=
  getErrorCategory_in RegExp_test ERROR_DETAILS.

End ErrorMessageProvider.

(** ** Syntax trees (generated/ast.ts, as the validators and the hover
    provider read them)

    One module per node type, so that the fields keep their names.  An
    optional property is an [option]; a cross reference is a [Reference]. *)

(** A cross reference: [ref] is absent when the name did not resolve. *)
Record Reference (T : Type) : Type := mkReference {
  ref : option T;
  refText : string               (* $refText *)
}.
Arguments mkReference {T} ref refText.
Arguments ref {T} _.
Arguments refText {T} _.

(** An expression is kept as the text of its concrete syntax node, when it
    has one ([$cstNode?.text]). *)
Module Exp.
Record t : Type := mk { cstText : option string }.
End Exp.

(** An array dimension; [value] is present on a literal. *)
Module ConstExp.
Record t : Type := mk { value : option string; cstText : option string }.
End ConstExp.

Module InitVal.
Inductive t : Type := mk (singleInit : list Exp.t) (manyInit : list t).
Definition singleInit (i : t) : list Exp.t := let 'mk s _ := i in s.
Definition manyInit (i : t) : list t := let 'mk _ m := i in m.
End InitVal.

(** What the hover provider reads of the container of a definition: its
    [btype], when it has that property, and the same of its own container. *)
Module Container.
Record t : Type := mk {
  btype : option string;
  container_btype : option (option string)   (* of $container, when present *)
}.
End Container.

Module VarDef.
Record t : Type := mk {
  name : string;
  index : list ConstExp.t;
  Init : list InitVal.t;
  container : option Container.t;            (* $container *)
  cstParentText : option string;             (* $cstNode?.parent?.text *)
  cstContainerText : option string           (* $cstNode?.container?.text *)
}.
End VarDef.

Module ConstDef.
Record t : Type := mk {
  name : string;
  cstContainerText : option string
}.
End ConstDef.

Module FuncFParam.
Record t : Type := mk {
  btype : string;
  name : string;
  cstText : option string                    (* $cstNode?.text *)
}.
End FuncFParam.

(** A definition of a declaration group. *)
Inductive Def : Type :=
| DVar (d : VarDef.t)
| DConst (d : ConstDef.t).

Definition Def_name (d : Def) : string :=
  match d with
  | DVar v => VarDef.name v
  | DConst c => ConstDef.name c
  end.

Module Decl.
Record t : Type := mk { defs : list Def }.
End Decl.

(** An item of a block: a declaration or a statement ([blockStmt]). *)
Module BlockItem.
Record t (S : Type) : Type := mk {
  decl : option Decl.t;
  blockStmt : option S
}.
Arguments mk {S} decl blockStmt.
Arguments decl {S} _.
Arguments blockStmt {S} _.
End BlockItem.

(** Statements, by [$type].  [Block] is the statement that has [blockItems];
    [Stmtother] stands for the remaining statement types, which have none. *)
Inductive Stmt : Type :=
| Stmtbreak
| Stmtcontinue
| Stmtreturn (tobereturn : option Exp.t)
| Stmtwhile (whilestmt : Stmt)
| Stmtelif (ifstmt : Stmt) (elsestmt : option Stmt)
| Block (blockItems : list (BlockItem.t Stmt))
| Stmtother (type : string).

(** [node.blockItems], absent on the nodes that are not blocks. *)
Definition blockItems_of (node : Stmt) : option (list (BlockItem.t Stmt)) :=
  match node with
  | Block blockItems => Some blockItems
  | _ => None
  end.

Module FuncDef.
Record t : Type := mk {
  functype : string;
  name : string;
  funcFparam : list FuncFParam.t;
  block : Stmt
}.
End FuncDef.

Module CompUnit.
Record t : Type := mk { functions : list FuncDef.t }.
End CompUnit.

(** A declaration that a variable use can refer to. *)
Inductive VarTarget : Type :=
| TParam (p : FuncFParam.t)
| TConst (c : ConstDef.t)
| TVar (v : VarDef.t).

Module VariableLVal.
Record t : Type := mk { value : Reference VarTarget }.
End VariableLVal.

Module FunctionCall.
Record t : Type := mk { funcname : Reference FuncDef.t }.
End FunctionCall.

Module FuncRParams.
Record t : Type := mk {
  funcname : Reference FuncDef.t;
  funcRparams : list Exp.t
}.
End FuncRParams.

(** The nodes that validation checks are registered for, and the rest. *)
Inductive AstNode : Type :=
| NCompUnit (n : CompUnit.t)
| NFuncDef (n : FuncDef.t)
| NDecl (n : Decl.t)
| NDef (n : Def)
| NVariableLVal (n : VariableLVal.t)
| NFunctionCall (n : FunctionCall.t)
| NFuncRParams (n : FuncRParams.t)
| NStmt (n : Stmt)
| NContainerOf (child : FuncRParams.t)   (* $container of a call node *)
| NOther (type : string).

(** ** Diagnostics reported by the validators *)

(** quickfix-provider.ts: [ERROR_CODES] *)
Module ERROR_CODES.
Definition UNDEFINED_VARIABLE : string := "undefined-variable".
Definition DUPLICATE_DECLARATION : string := "duplicate-declaration".
Definition ARRAY_SIZE_OVERFLOW : string := "array-size-overflow".
Definition UNDEFINED_FUNCTION : string := "undefined-function".
Definition DUPLICATE_FUNCTION : string := "duplicate-function".
Definition PARAMETER_MISMATCH : string := "parameter-mismatch".
Definition INVALID_BREAK_CONTINUE : string := "invalid-break-continue".
Definition MISSING_RETURN : string := "missing-return".
Definition EMPTY_RETURN : string := "empty-return".
Definition VOID_RETURN_VALUE : string := "void-return-value".
Definition VOID_ASSIGNMENT : string := "void-assignment".
Definition TYPE_MISMATCH : string := "type-mismatch".
Definition MISSING_SEMICOLON : string := "missing-semicolon".
Definition UNMATCHED_BRACKETS : string := "unmatched-brackets".
Definition UNUSED_VARIABLE : string := "unused-variable".
End ERROR_CODES.

(** A value of the [data] object of a diagnostic. *)
Inductive Value : Type :=
| VString (s : string)
| VNumber (n : Z)
| VCategory (c : ErrorMessageProvider.ErrorCategory).

(** One call [accept(severity, message, { node, property, code, data })]. *)
Module Diagnostic.
Record t : Type := mk {
  severity : string;
  message : string;
  node : AstNode;
  property : option string;
  code : option string;
  data : list (string * Value)
}.
End Diagnostic.


(** A check returns the diagnostics it reported, in the order of its calls of
    [accept]. *)
Definition accepted : Type := JS.outcome (list Diagnostic.t).

(** [accept("error", getSafeEnhancedMessage(message), { ... })] *)
Definition accept_error (msg : string) (node : AstNode)
  (property : option string) (code : string) (data : list (string * Value))
  : accepted :=
  let* enhanced := ErrorMessageProvider.getSafeEnhancedMessage msg in
  JS.Ok [Diagnostic.mk "error" enhanced node property (Some code) data].

Definition accept_hint (msg : string) (node : AstNode) : accepted :=
  JS.Ok [Diagnostic.mk "hint" msg node None None []].

(** Two checks, or two steps of a check, one after the other. *)
Definition and_then (first second : accepted) : accepted :=
  let* ds1 := first in
  let* ds2 := second in
  JS.Ok (ds1 ++ ds2).

(** [`${x}`] for an optional text: an absent one prints as [undefined]. *)
Definition print_optional (o : option string) : string :=
  match o with Some s => s | None => "undefined" end.

(** ** The store of the [Set] objects

    [new Set()] allocates a fresh object in the store; the objects of earlier
    calls stay in it. *)

Module Store.

Abbreviation t := (list (gset string)).

(** [new Set<string>()] *)
Definition new_Set (h : t) : nat * t := (length h, h ++ [∅]).

(** [set.has(x)] *)
Definition has (h : t) (set : nat) (x : string) : bool :=
  match h !! set with
  | Some names => bool_decide (x ∈ names)
  | None => false
  end.

(** [set.add(x)] *)
Definition add (h : t) (set : nat) (x : string) : t :=
  match h !! set with
  | Some names => <[set := {[x]} ∪ names]> h
  | None => h
  end.

End Store.

(** A check that allocates: its diagnostics and the store it leaves. *)
Definition stateful : Type := Store.t -> accepted * Store.t.

Definition lift (check : accepted) : stateful := fun h => (check, h).

(** [first] and then the rest of the loop; a raise of [first] ends the loop. *)
Definition then_loop (first : accepted) (rest : stateful) : stateful :=
  fun h =>
    match first with
    | JS.Ok ds1 =>
        let (later, h') := rest h in
        (let* ds2 := later in JS.Ok (ds1 ++ ds2), h')
    | other => (other, h)
    end.

(** ** Function validator (func-validator.ts) *)

Module FuncValidator.
Import ErrorMessageProvider.

(** [hoverTipsFunc] *)
Definition hoverTipsFunc (e : FuncRParams.t) : accepted :=
  let params := option_map FuncDef.funcFparam (ref (FuncRParams.funcname e)) in
  let paramArray :=
    match params with
    | Some ps =>
        map (fun p => match FuncFParam.cstText p with
                      | Some text => text
                      | None => EmptyString
                      end) ps
    | None => []
    end in
  accept_hint
    ("(方法) (" +:+ JS.join ", " paramArray +:+ "): " +:+
     print_optional (option_map FuncDef.functype (ref (FuncRParams.funcname e)))
     +:+ "。")
    (NFuncRParams e).

(** [checkFunctionDeclared] *)
Definition checkFunctionDeclared (funcCall : FunctionCall.t) : accepted :=
  match ref (FunctionCall.funcname funcCall) with
  | None =>
      let funcName := refText (FunctionCall.funcname funcCall) in
      let msg := "调用了未定义的函数 '" +:+ funcName +:+ "'。" in
      accept_error msg (NFunctionCall funcCall) (Some "funcname")
        ERROR_CODES.UNDEFINED_FUNCTION
        [ ("explanation", VString "函数在调用前需要先定义");
          ("suggestion",
           VString ("请先定义该函数，例如：'int " +:+ funcName +:+
                    "() { return 0; }'"));
          ("category", VCategory FUNCTION);
          ("functionName", VString funcName) ]
  | Some _ => JS.Ok []
  end.

(** The diagnostic of [checkUniqueFuncName] for a repeated name. *)
Definition duplicate_function (func : FuncDef.t) : accepted :=
  let msg := "函数名 '" +:+ FuncDef.name func +:+ "' 已经定义过。" in
  accept_error msg (NFuncDef func) (Some "name")
    ERROR_CODES.DUPLICATE_FUNCTION
    [ ("explanation", VString "同一作用域内不能重复定义同名函数");
      ("suggestion", VString "使用不同的函数名或移除重复的定义");
      ("category", VCategory FUNCTION);
      ("functionName", VString (FuncDef.name func)) ].

(** The diagnostics of [checkStatementsInBlock] for [break] and [continue]. *)
Definition invalid_break (stmt : Stmt) : accepted :=
  accept_error "'break' 语句只能在循环中使用。" (NStmt stmt) None
    ERROR_CODES.INVALID_BREAK_CONTINUE
    [ ("explanation", VString "break语句只能出现在while循环中");
      ("suggestion", VString "移除break语句或将其放在循环内");
      ("category", VCategory CONTROL) ].

Definition invalid_continue (stmt : Stmt) : accepted :=
  accept_error "'continue' 语句只能在循环中使用。" (NStmt stmt) None
    ERROR_CODES.INVALID_BREAK_CONTINUE
    [ ("explanation", VString "continue语句只能出现在while循环中");
      ("suggestion", VString "移除continue语句或将其放在循环内");
      ("category", VCategory CONTROL) ].

(** [checkStatementsInBlock(block, inLoop, accept)]: [block] is any node; the
    walk returns at once on a node without [blockItems]. *)
Fixpoint checkStatementsInBlock (block : Stmt) (inLoop : bool) {struct block}
  : accepted :=
  match block with
  | Block blockItems =>
      (fix for_of (items : list (BlockItem.t Stmt)) : accepted :=
         match items with
         | [] => JS.Ok []
         | blockItem :: rest =>
             and_then
               match blockItem with
               | BlockItem.mk _ (Some stmt) =>
                   match stmt with
                   | Stmtbreak =>
                       if negb inLoop then invalid_break stmt else JS.Ok []
                   | Stmtcontinue =>
                       if negb inLoop then invalid_continue stmt else JS.Ok []
                   | Stmtwhile whilestmt =>
                       checkStatementsInBlock whilestmt true
                   | Stmtelif ifstmt elsestmt =>
                       and_then
                         (checkStatementsInBlock ifstmt inLoop)
                         match elsestmt with
                         | Some elsestmt' =>
                             checkStatementsInBlock elsestmt' inLoop
                         | None => JS.Ok []
                         end
                   | Block _ => checkStatementsInBlock stmt inLoop
                   | Stmtreturn _ | Stmtother _ => JS.Ok []
                   end
               | BlockItem.mk _ None => JS.Ok []
               end
               (for_of rest)
         end) blockItems
  | _ => JS.Ok []
  end.

(** [checkBreakContinueInNonLoopBlocks] *)
Definition checkBreakContinueInNonLoopBlocks (funcDef : FuncDef.t) : accepted :=
  checkStatementsInBlock (FuncDef.block funcDef) false.

(** [checkFunctionParameterMismatch] *)
Definition checkFunctionParameterMismatch (func : FuncRParams.t) : accepted :=
  let declaredParams :=
    option_map FuncDef.funcFparam (ref (FuncRParams.funcname func)) in
  let declaredParamArray : list (option string) :=
    match declaredParams with
    | Some ps => map FuncFParam.cstText ps
    | None => []
    end in
  let callParamArray := FuncRParams.funcRparams func in
  if negb (length declaredParamArray =? length callParamArray)%nat then
    let msg :=
      "参数个数不匹配。预期 " +:+ JS.string_of_nat (length declaredParamArray)
      +:+ " 个参数，但实际调用时传递了 " +:+
      JS.string_of_nat (length callParamArray) +:+ " 个参数。" in
    accept_error msg (NFuncRParams func) (Some "funcRparams")
      ERROR_CODES.PARAMETER_MISMATCH
      [ ("explanation", VString "函数调用时参数数量必须与函数定义匹配");
        ("suggestion",
         VString (if (length declaredParamArray <? length callParamArray)%nat
                  then "减少参数数量" else "增加缺少的参数"));
        ("category", VCategory FUNCTION);
        ("functionName", VString (refText (FuncRParams.funcname func)));
        ("expectedCount", VNumber (Z.of_nat (length declaredParamArray)));
        ("actualCount", VNumber (Z.of_nat (length callParamArray))) ]
  else JS.Ok [].

(** The loop of [checkUniqueFuncName] over [compUnit.functions]. *)
Fixpoint checkUniqueFuncName_for_of (funcNames : nat)
  (functions : list FuncDef.t) : stateful :=
  match functions with
  | [] => lift (JS.Ok [])
  | func :: rest =>
      fun h =>
        if Store.has h funcNames (FuncDef.name func) then
          then_loop (duplicate_function func)
            (checkUniqueFuncName_for_of funcNames rest) h
        else
          checkUniqueFuncName_for_of funcNames rest
            (Store.add h funcNames (FuncDef.name func))
  end.

(** [checkUniqueFuncName] *)
Definition checkUniqueFuncName (compUnit : CompUnit.t) : stateful :=
  fun h =>
    let (funcNames, h') := Store.new_Set h in
    checkUniqueFuncName_for_of funcNames (CompUnit.functions compUnit) h'.

(** The variable [actuallReturnType] of [checkFunctionReturnType]. *)
Inductive returned : Type :=
| Null
| Undefined
| Expression (e : Exp.t).

(** The [forEach] of [checkFunctionReturnType]: the pair is
    [(hasReturn, actuallReturnType)]. *)
Fixpoint scan_returns (blockItems : list (BlockItem.t Stmt))
  (state : bool * returned) : bool * returned :=
  match blockItems with
  | [] => state
  | blockItem :: rest =>
      match BlockItem.blockStmt blockItem with
      | Some (Stmtreturn tobereturn) =>
          scan_returns rest
            (true, match tobereturn with
                   | Some e => Expression e
                   | None => Undefined
                   end)
      | _ => scan_returns rest state
      end
  end.

Definition is_undefined (v : returned) : bool :=
  match v with Undefined => true | _ => false end.

(** [checkFunctionReturnType] *)
Definition checkFunctionReturnType (func : FuncDef.t) : accepted :=
  let returnType := FuncDef.functype func in
  let block := FuncDef.block func in
  let '(hasReturn, actuallReturnType) :=
    match blockItems_of block with
    | Some blockItems => scan_returns blockItems (false, Null)
    | None => (false, Null)
    end in
  if negb hasReturn && negb (String.eqb returnType "void") then
    accept_error
      ("有返回值: " +:+ returnType +:+ " 的函数缺少 return 语句。")
      (NFuncDef func) (Some "functype") ERROR_CODES.MISSING_RETURN
      [ ("explanation", VString "有返回值的函数必须包含return语句");
        ("suggestion",
         VString ("添加 'return <" +:+ returnType +:+ "类型的值>;' 语句"));
        ("category", VCategory FUNCTION);
        ("returnType", VString returnType);
        ("functionName", VString (FuncDef.name func)) ]
  else if hasReturn && negb (String.eqb returnType "void")
          && is_undefined actuallReturnType then
    accept_error
      ("有返回值: " +:+ returnType +:+ " 的函数不应返回为空。")
      (NStmt block) None ERROR_CODES.EMPTY_RETURN
      [ ("explanation", VString "有返回值的函数必须在return语句中提供一个值");
        ("suggestion",
         VString ("将 'return;' 改为 'return <" +:+ returnType +:+
                  "类型的值>;'"));
        ("category", VCategory FUNCTION);
        ("returnType", VString returnType);
        ("functionName", VString (FuncDef.name func)) ]
  else if hasReturn && String.eqb returnType "void"
          && negb (is_undefined actuallReturnType) then
    accept_error "void 函数不应存在非空返回值。"
      (NStmt block) None ERROR_CODES.VOID_RETURN_VALUE
      [ ("explanation", VString "void类型的函数不应该有返回值");
        ("suggestion", VString "移除return语句中的表达式或使用'return;'");
        ("category", VCategory FUNCTION);
        ("functionName", VString (FuncDef.name func)) ]
  else JS.Ok [].

(** [checkDefTypeMatchFuncReturnType] *)
Definition checkDefTypeMatchFuncReturnType (funcFparam : FuncRParams.t)
  : accepted :=
  let tarReturnType :=
    option_map FuncDef.functype (ref (FuncRParams.funcname funcFparam)) in
  match tarReturnType with
  | Some type =>
      if String.eqb type "void" then
        accept_error "不能将void类型变量参与运算或用于赋值"
          (NContainerOf funcFparam) None ERROR_CODES.VOID_ASSIGNMENT
          [ ("explanation",
             VString "void类型的函数返回值不能用于赋值或参与运算");
            ("suggestion", VString "使用有返回值的函数或不将结果用于赋值");
            ("category", VCategory TYPE) ]
      else JS.Ok []
  | None => JS.Ok []
  end.

End FuncValidator.

(** The other copy of the function validator in the repository differs in one
    method: there the walk over the statements is switched off. *)
Module FuncValidator_disabled.

(** [checkBreakContinueInNonLoopBlocks], with an empty body *)
Definition checkBreakContinueInNonLoopBlocks (funcDef : FuncDef.t) : accepted :=
  JS.Ok [].

End FuncValidator_disabled.

(** ** Declaration validator (decl-validator.ts) *)

Module DeclValidator.
Import ErrorMessageProvider.

(** The diagnostic of [checkUniqueDef] for a repeated name. *)
Definition duplicate_declaration (d : Def) : accepted :=
  let msg := "无法重新声明块范围变量 '" +:+ Def_name d +:+ "'。" in
  accept_error msg (NDef d) (Some "name") ERROR_CODES.DUPLICATE_DECLARATION
    [ ("explanation", VString "同一作用域内不能重复声明同名变量");
      ("suggestion", VString "使用不同的变量名或移除重复的声明");
      ("category", VCategory VARIABLE);
      ("variableName", VString (Def_name d)) ].

(** The [forEach] of [checkUniqueDef] over [constDecl.defs]. *)
Fixpoint checkUniqueDef_forEach (reported : nat) (defs : list Def) : stateful :=
  match defs with
  | [] => lift (JS.Ok [])
  | d :: rest =>
      fun h =>
        if Store.has h reported (Def_name d) then
          then_loop (duplicate_declaration d)
            (fun h' =>
               checkUniqueDef_forEach reported rest
                 (Store.add h' reported (Def_name d))) h
        else
          checkUniqueDef_forEach reported rest
            (Store.add h reported (Def_name d))
  end.

(** [checkUniqueDef] *)
Definition checkUniqueDef (constDecl : Decl.t) : stateful :=
  fun h =>
    let (reported, h') := Store.new_Set h in
    checkUniqueDef_forEach reported (Decl.defs constDecl) h'.

(** [hoverTipsArray]: reading [arr.Init[0].manyInit] raises when the
    definition has no initializer. *)
Definition hoverTipsArray (arr : VarDef.t) : accepted :=
  match VarDef.index arr with
  | index0 :: _ =>
      let lengthInt :=
        match ConstExp.value index0 with
        | Some length => JS.parseInt length
        | None => None
        end in
      match VarDef.Init arr with
      | [] => JS.Throw JS.TypeError
      | init0 :: _ =>
          let actualSize := length (InitVal.manyInit init0) in
          match lengthInt with
          | Some declaredSize =>
              if (declaredSize <? Z.of_nat actualSize)%Z then
                let msg :=
                  "数组 " +:+ VarDef.name arr +:+
                  " 的初始化元素数量超过了数组大小。" in
                accept_error msg (NDef (DVar arr)) (Some "Init")
                  ERROR_CODES.ARRAY_SIZE_OVERFLOW
                  [ ("explanation", VString "数组元素数量超过了声明的大小");
                    ("suggestion",
                     VString "增大数组大小或减少初始化元素的数量");
                    ("category", VCategory ARRAY);
                    ("arrayName", VString (VarDef.name arr));
                    ("declaredSize", VNumber declaredSize);
                    ("actualSize", VNumber (Z.of_nat actualSize)) ]
              else JS.Ok []
          | None => JS.Ok []
          end
      end
  | [] => JS.Ok []
  end.

(** [hoverTipsLval] *)
Definition hoverTipsLval (lval : VariableLVal.t) : accepted :=
  match ref (VariableLVal.value lval) with
  | Some (TParam p) =>
      accept_hint
        ("(参数) " +:+ refText (VariableLVal.value lval) +:+ ": " +:+
         FuncFParam.btype p +:+ "。")
        (NVariableLVal lval)
  | Some (TConst c) =>
      accept_hint (print_optional (ConstDef.cstContainerText c))
        (NVariableLVal lval)
  | Some (TVar v) =>
      accept_hint (print_optional (VarDef.cstContainerText v))
        (NVariableLVal lval)
  | None => JS.Ok []
  end.

(** [checkVariableDeclared] *)
Definition checkVariableDeclared (lval : VariableLVal.t) : accepted :=
  match ref (VariableLVal.value lval) with
  | None =>
      let varName := refText (VariableLVal.value lval) in
      let msg := "使用了未定义的变量 '" +:+ varName +:+ "'。" in
      accept_error msg (NVariableLVal lval) (Some "value")
        ERROR_CODES.UNDEFINED_VARIABLE
        [ ("explanation", VString "变量在使用前需要先定义");
          ("suggestion",
           VString ("请先声明该变量，例如：'int " +:+ varName +:+ " = 0;'"));
          ("category", VCategory VARIABLE);
          ("variableName", VString varName) ]
  | Some _ => JS.Ok []
  end.

End DeclValidator.

(** ** The validation pass (hello-world-validator.ts)

    [registerValidationChecks] binds the checks to the node types.  The pass
    of the framework visits the nodes of the tree one after the other and
    runs, on each, the checks of its type in the order of their registration;
    a check that raises is reported as one more diagnostic on its node. *)

Module Validator.

(** The table [checks] of [registerValidationChecks]. *)
Definition checks (node : AstNode) : list stateful :=
  match node with
  | NDecl n => [DeclValidator.checkUniqueDef n]
  | NDef (DVar n) => [lift (DeclValidator.hoverTipsArray n)]
  | NVariableLVal n =>
      [ lift (DeclValidator.hoverTipsLval n);
        lift (DeclValidator.checkVariableDeclared n) ]
  | NFuncRParams n =>
      [ lift (FuncValidator.hoverTipsFunc n);
        lift (FuncValidator.checkFunctionParameterMismatch n);
        lift (FuncValidator.checkDefTypeMatchFuncReturnType n) ]
  | NFunctionCall n => [lift (FuncValidator.checkFunctionDeclared n)]
  | NCompUnit n => [FuncValidator.checkUniqueFuncName n]
  | NFuncDef n =>
      [ lift (FuncValidator.checkBreakContinueInNonLoopBlocks n);
        lift (FuncValidator.checkFunctionReturnType n) ]
  | _ => []
  end.

(** Modelled from the framework: the handler that wraps every registered
    check is code of langium, not of this repository, and is not under src/.
    For a check that raised it reports one error on the node.  The message of
    that error is the text below followed by a colon and the message of the
    exception; an exception of the embedding has no message, so this
    diagnostic holds the fixed part only, and the statements read no more of
    its message than that it starts with this text. *)
Definition validation_exception (node : AstNode) : Diagnostic.t :=
  Diagnostic.mk "error" "An error occurred during validation" node None None [].

(** One check on one node, inside the handler of the framework. *)
Definition run_check (node : AstNode) (check : stateful) : stateful :=
  fun h =>
    match check h with
    | (JS.Throw _, h') => (JS.Ok [validation_exception node], h')
    | result => result
    end.

Fixpoint run_checks (node : AstNode) (cs : list stateful) : stateful :=
  match cs with
  | [] => lift (JS.Ok [])
  | check :: rest =>
      fun h =>
        let (first, h') := run_check node check h in
        let (later, h'') := run_checks node rest h' in
        (and_then first later, h'')
  end.

(** The pass over the nodes of a document, in the order of the traversal. *)
Fixpoint validate (nodes : list AstNode) : stateful :=
  match nodes with
  | [] => lift (JS.Ok [])
  | node :: rest =>
      fun h =>
        let (first, h') := run_checks node (checks node) h in
        let (later, h'') := validate rest h' in
        (and_then first later, h'')
  end.

End Validator.

(** ** Hover provider (hover-provider.ts) *)

Module SysyHoverProvider.
Import Regex.

(** [/^\d+$/] *)
Definition INTEGER_TEXT : regex := Seq Bol (Seq (Plus digit) Eol).

(** [/^\d+\.\d+([eE][-+]?\d+)?$/] *)
Definition DECIMAL_TEXT : regex :=
  Seq Bol
    (Seq (Plus digit)
       (Seq (Char ".")
          (Seq (Plus digit)
             (Seq (Opt (Group 1
                          (Seq (Class false [CChar "e"; CChar "E"])
                             (Seq (Opt (Class false [CChar "-"; CChar "+"]))
                                (Plus digit)))))
                Eol)))).

Definition UNKNOWN_TYPE : string := "未知类型".

(** The type read from the text around a definition. *)
Definition type_of_parent_text (varType : string) (parentText : option string)
  : string :=
  match parentText with
  | Some text =>
      if JS.falsy text then varType
      else if JS.includes text "int " then "int"
      else if JS.includes text "float " then "float"
      else varType
  | None => varType
  end.

(** [node.name === "decimal" || node.name === "octal" || node.name === "hex"] *)
Definition is_special_name (name : string) : bool :=
  String.eqb name "decimal" || String.eqb name "octal" || String.eqb name "hex".

(** The variable [varType] of [buildVarDefHoverContent], at the point where
    the texts are built. *)
Definition varDefType (node : VarDef.t) : string :=
  let varType := UNKNOWN_TYPE in
  (* from the container *)
  let varType :=
    match VarDef.container node with
    | Some container =>
        match Container.btype container with
        | Some btype => btype
        | None => type_of_parent_text varType (VarDef.cstParentText node)
        end
    | None => varType
    end in
  (* from the initial value *)
  let varType :=
    if String.eqb varType UNKNOWN_TYPE then
      match VarDef.Init node with
      | init0 :: _ =>
          match InitVal.singleInit init0 with
          | single0 :: _ =>
              match Exp.cstText single0 with
              | Some initText =>
                  if JS.falsy initText then varType
                  else if test INTEGER_TEXT initText then "int"
                  else if test DECIMAL_TEXT initText then "float"
                  else varType
              | None => varType
              end
          | [] => varType
          end
      | [] => varType
      end
    else varType in
  (* the special names *)
  if is_special_name (VarDef.name node) then "int" else varType.

(** The texts about the dimensions and the initial value. *)
Definition array_detail (node : VarDef.t) : string :=
  match VarDef.index node with [] => EmptyString | _ => "[]" end.

Definition initialised_text (node : VarDef.t) : string :=
  match VarDef.Init node with
  | [] => EmptyString
  | _ => JS.LF +:+ JS.LF +:+ "已初始化"
  end.

(** [buildVarDefHoverContent]: the [value] of the markdown content. *)
Definition buildVarDefHoverContent (node : VarDef.t) : string :=
  let varType := varDefType node in
  let detail :=
    "(变量) " +:+ VarDef.name node +:+ ": " +:+ varType +:+ array_detail node in
  let content :=
    "变量定义" +:+ JS.LF +:+ JS.LF +:+ "类型: " +:+ varType +:+
    match VarDef.index node with
    | [] => EmptyString
    | [_] => JS.LF +:+ JS.LF +:+ "这是一个数组变量" +:+ "，维度为 1"
    | index =>
        JS.LF +:+ JS.LF +:+ "这是一个数组变量" +:+ "，维度为 " +:+
        JS.string_of_nat (length index)
    end +:+ initialised_text node in
  "**" +:+ detail +:+ "**" +:+ JS.LF +:+ JS.LF +:+ content.

(** The variable [varType] of [buildVariableHoverContent] for a reference to
    a variable definition. *)
Definition variableType (ref : VarDef.t) : string :=
  let varType := UNKNOWN_TYPE in
  let from_text := type_of_parent_text varType (VarDef.cstParentText ref) in
  let varType :=
    match VarDef.container ref with
    | Some container =>
        match Container.btype container with
        | Some btype => btype
        | None =>
            match Container.container_btype container with
            | Some (Some btype) => btype
            | _ => from_text
            end
        end
    | None => from_text
    end in
  if is_special_name (VarDef.name ref) then "int" else varType.

(** [buildVariableHoverContent]: the [value] of the content, absent for an
    unresolved reference and for a reference to a constant. *)
Definition buildVariableHoverContent (node : VariableLVal.t) : option string :=
  match ref (VariableLVal.value node) with
  | None => None
  | Some (TParam p) =>
      let is_array :=
        match FuncFParam.cstText p with
        | Some text => JS.includes text "["
        | None => false
        end in
      let detail :=
        "(参数) " +:+ FuncFParam.name p +:+ ": " +:+ FuncFParam.btype p +:+
        (if is_array then "[]" else EmptyString) in
      let content :=
        "函数参数" +:+ JS.LF +:+ JS.LF +:+ "类型: " +:+ FuncFParam.btype p +:+
        (if is_array then JS.LF +:+ JS.LF +:+ "这是一个数组参数"
         else EmptyString) in
      Some ("**" +:+ detail +:+ "**" +:+ JS.LF +:+ JS.LF +:+ content)
  | Some (TVar v) =>
      let varType := variableType v in
      let detail :=
        "(变量) " +:+ VarDef.name v +:+ ": " +:+ varType +:+ array_detail v in
      let content :=
        "变量定义" +:+ JS.LF +:+ JS.LF +:+ "类型: " +:+ varType +:+
        match VarDef.index v with
        | [] => EmptyString
        | [size] =>
            JS.LF +:+ JS.LF +:+ "这是一个数组变量" +:+
            match ConstExp.cstText size with
            | Some text => "，大小为 " +:+ text
            | None => EmptyString
            end
        | index =>
            JS.LF +:+ JS.LF +:+ "这是一个数组变量" +:+ "，维度为 " +:+
            JS.string_of_nat (length index)
        end +:+ initialised_text v in
      Some ("**" +:+ detail +:+ "**" +:+ JS.LF +:+ JS.LF +:+ content)
  | Some (TConst _) => None
  end.

End SysyHoverProvider.

(** ** Protocol types and documents (vscode-languageserver) *)

Module Position.
Record t : Type := mk { line : nat; character : nat }.
End Position.

Module Range.
Record t : Type := mk { start : Position.t; end_ : Position.t }.
End Range.

(** The [code] of a protocol diagnostic: a text, a number, or an object with
    an optional [value]. *)
Inductive DiagnosticCode : Type :=
| CodeString (s : string)
| CodeNumber (n : Z)
| CodeObject (value : option string).

Module LspDiagnostic.
Record t : Type := mk {
  range : Range.t;
  message : string;
  code : option DiagnosticCode
}.
End LspDiagnostic.

Module TextEdit.
Record t : Type := mk { range : Range.t; newText : string }.
End TextEdit.

(** An argument of a command. *)
Inductive Argument : Type :=
| AString (s : string)
| ARange (r : Range.t)
| ANumber (n : Z).

(** [Command.create(title, command, ...args)] *)
Module Command.
Record t : Type := create {
  title : string;
  command : string;
  arguments : list Argument
}.
End Command.

Module CodeActionKind.
Definition QuickFix : string := "quickfix".
Definition RefactorExtract : string := "refactor.extract".
End CodeActionKind.

(** A code action; [edit] lists the changes of each document. *)
Module CodeAction.
Record t : Type := mk {
  title : string;
  kind : string;
  diagnostics : option (list LspDiagnostic.t);
  edit : option (list (string * list TextEdit.t));
  command : option Command.t
}.
End CodeAction.

(** A document: its address and its text. *)
Module TextDocument.

Record t : Type := mk { uri : string; text : string }.

Definition isEOL (c : ascii) : bool :=
  let n := nat_of_ascii c in ((n =? 13) || (n =? 10))%nat.

(** [computeLineOffsets]: the offsets after each end of line; a carriage
    return followed by a line feed is one end of line. *)
Fixpoint line_ends (s : string) (i : nat) : list nat :=
  match s with
  | EmptyString => []
  | String c s' =>
      if isEOL c then
        match s' with
        | String d s'' =>
            if ((nat_of_ascii c =? 13) && (nat_of_ascii d =? 10))%nat
            then (i + 2) :: line_ends s'' (i + 2)
            else (i + 1) :: line_ends s' (i + 1)
        | EmptyString => [i + 1]
        end
      else line_ends s' (i + 1)
  end.

Definition lineOffsets (doc : t) : list nat := 0 :: line_ends (text doc) 0.

Definition lineCount (doc : t) : nat := length (lineOffsets doc).

(** [offsetAt({ line, character: 0 })] *)
Definition offsetAt_line (doc : t) (line : nat) : nat :=
  match List.nth_error (lineOffsets doc) line with
  | Some offset => offset
  | None => String.length (text doc)
  end.

(** [ensureBeforeEOL(offset, lineOffset)] *)
Fixpoint ensureBeforeEOL (content : string) (lineOffset : nat) (steps : nat)
  (offset : nat) : nat :=
  match steps with
  | O => offset
  | S steps' =>
      if (lineOffset <? offset)%nat then
        match String.get (offset - 1) content with
        | Some c =>
            if isEOL c then ensureBeforeEOL content lineOffset steps' (offset - 1)
            else offset
        | None => offset
        end
      else offset
  end.

(** [offsetAt(position)].  The offsets of the line starts count bytes, and
    so does the character of the position: at character 0 the offset cuts the
    text where the program cuts it; at another character it does when the
    line is ASCII up to there. *)
Definition offsetAt (doc : t) (position : Position.t) : nat :=
  match List.nth_error (lineOffsets doc) (Position.line position) with
  | None => String.length (text doc)
  | Some lineOffset =>
      if (Position.character position =? 0)%nat then lineOffset
      else
        let nextLineOffset := offsetAt_line doc (Position.line position + 1) in
        let offset :=
          Nat.min (lineOffset + Position.character position) nextLineOffset in
        ensureBeforeEOL (text doc) lineOffset offset offset
  end.

(** [getText(range)]: the text of the program when both ends of the range
    are at character 0 or on ASCII lines (see [offsetAt]). *)
Definition getText (doc : t) (range : Range.t) : string :=
  JS.substring (text doc)
    (Z.of_nat (offsetAt doc (Range.start range)))
    (Z.of_nat (offsetAt doc (Range.end_ range))).

(** [getText({ start: { line, character: 0 }, end: { line: line + 1,
    character: 0 } })]: the line with its end of line. *)
Definition getLine (doc : t) (line : nat) : string :=
  let start := offsetAt_line doc line in
  let stop := offsetAt_line doc (line + 1) in
  String.substring start (stop - start) (text doc).

End TextDocument.

(** The request [CodeActionParams]. *)
Module CodeActionParams.
Record t : Type := mk {
  uri : string;                        (* textDocument.uri *)
  range : Range.t;
  diagnostics : list LspDiagnostic.t   (* context.diagnostics *)
}.
End CodeActionParams.

(** ** Quick-fix provider (quickfix-provider.ts): the resolvers *)

Module SysyQuickFixProvider.
Import Regex.

(** [QuickFixResolver]: a resolver gives an action or [undefined]. *)
Definition QuickFixResolver : Type :=
  LspDiagnostic.t -> TextDocument.t -> JS.outcome (option CodeAction.t).

Definition start_line (diagnostic : LspDiagnostic.t) : nat :=
  Position.line (Range.start (LspDiagnostic.range diagnostic)).

(** The line of the diagnostic, with its end of line. *)
Definition line_of (diagnostic : LspDiagnostic.t) (document : TextDocument.t)
  : string :=
  TextDocument.getLine document (start_line diagnostic).

(** The range of that line: from its start to the start of the next. *)
Definition line_range (diagnostic : LspDiagnostic.t) : Range.t :=
  Range.mk (Position.mk (start_line diagnostic) 0)
    (Position.mk (start_line diagnostic + 1) 0).

Definition at_position (p : Position.t) : Range.t := Range.mk p p.

(** A quick fix with one edit of the document. *)
Definition edit_action (title : string) (diagnostic : LspDiagnostic.t)
  (document : TextDocument.t) (range : Range.t) (newText : string)
  : CodeAction.t :=
  CodeAction.mk title CodeActionKind.QuickFix (Some [diagnostic])
    (Some [(TextDocument.uri document, [TextEdit.mk range newText])]) None.

(** A quick fix that defers to a command. *)
Definition command_action (title : string) (diagnostic : LspDiagnostic.t)
  (command : Command.t) : CodeAction.t :=
  CodeAction.mk title CodeActionKind.QuickFix (Some [diagnostic]) None
    (Some command).

Definition quote : regex := Char "'".
Definition not_quote : regex := Class true [CChar "'"].

(** [/未定义的变量\s*'([^']+)'|未声明的变量\s*'?([^'\s.]+)'?/] *)
Definition UNDECLARED_VARIABLE : regex :=
  Alt
    (seqs [Str "未定义的变量"; Star space; quote; Group 1 (Plus not_quote);
           quote])
    (seqs [Str "未声明的变量"; Star space; Opt quote;
           Group 2 (Plus (Class true [CChar "'"; CSpace; CChar "."]));
           Opt quote]).

(** [createUndeclaredVarFix] *)
Definition createUndeclaredVarFix : QuickFixResolver :=
  fun diagnostic document =>
    let found := exec UNDECLARED_VARIABLE (LspDiagnostic.message diagnostic) in
    let varName :=
      JS.or_opt (found ≫= fun m => group m 1) (found ≫= fun m => group m 2) in
    match varName with
    | None => JS.Ok None
    | Some varName =>
        if JS.falsy varName then JS.Ok None else
        let indentation :=
          JS.repeat " "
            (Position.character
               (Range.start (LspDiagnostic.range diagnostic))) in
        JS.Ok (Some
          (edit_action ("声明变量 '" +:+ varName +:+ "'") diagnostic document
             (at_position (Position.mk (start_line diagnostic) 0))
             ("int " +:+ varName +:+ " = 0;" +:+ JS.LF +:+ indentation)))
    end.

(** [createGlobalVarDeclarationFix] *)
Definition createGlobalVarDeclarationFix : QuickFixResolver :=
  fun diagnostic document =>
    let found := exec UNDECLARED_VARIABLE (LspDiagnostic.message diagnostic) in
    let varName :=
      JS.or_opt (found ≫= fun m => group m 1) (found ≫= fun m => group m 2) in
    match varName with
    | None => JS.Ok None
    | Some varName =>
        if JS.falsy varName then JS.Ok None else
        let fileStartPosition := Position.mk 0 0 in
        JS.Ok (Some
          (edit_action ("在全局作用域声明变量 '" +:+ varName +:+ "'")
             diagnostic document (at_position fileStartPosition)
             ("int " +:+ varName +:+ " = 0;" +:+ JS.LF +:+ JS.LF)))
    end.

(** [/无法重新声明块范围变量\s*'([^']+)'/] *)
Definition DUPLICATE_VARIABLE : regex :=
  seqs [Str "无法重新声明块范围变量"; Star space; quote;
        Group 1 (Plus not_quote); quote].

(** [createRenameDuplicateVarFix] *)
Definition createRenameDuplicateVarFix : QuickFixResolver :=
  fun diagnostic document =>
    let found := exec DUPLICATE_VARIABLE (LspDiagnostic.message diagnostic) in
    match found ≫= fun m => group m 1 with
    | None => JS.Ok None
    | Some varName =>
        if JS.falsy varName then JS.Ok None
        else
          let newVarName := varName +:+ "_new" in
          JS.Ok (Some
            (edit_action ("重命名变量为 '" +:+ newVarName +:+ "'") diagnostic
               document (LspDiagnostic.range diagnostic) newVarName))
    end.

(** [/数组\s*([^\s]+)\s*的初始化元素数量超过了数组大小/] *)
Definition ARRAY_OVERFLOW : regex :=
  seqs [Str "数组"; Star space; Group 1 (Plus (Class true [CSpace]));
        Star space; Str "的初始化元素数量超过了数组大小"].

(** The pattern [=\s*{(...)}] whose group is [[^}]] any number of times. *)
Definition INIT_LIST : regex :=
  seqs [Char "="; Star space; Char "{";
        Group 1 (Star (Class true [CChar "}"])); Char "}"].

(** [createArraySizeOverflowFix] *)
Definition createArraySizeOverflowFix : QuickFixResolver :=
  fun diagnostic document =>
    let found := exec ARRAY_OVERFLOW (LspDiagnostic.message diagnostic) in
    match found ≫= fun m => group m 1 with
    | None => JS.Ok None
    | Some arrayName =>
        if JS.falsy arrayName then JS.Ok None
        else
          let line := line_of diagnostic document in
          (* new RegExp(`${arrayName}\\s*\\[(\\d+)\\]`) *)
          let* sizePattern :=
            RegExp arrayName
              (seqs [Star space; Char "["; Group 1 (Plus digit); Char "]"]) in
          let sizeMatch := exec sizePattern line in
          match sizeMatch ≫= fun m => group m 1 with
          | None => JS.Ok None
          | Some sizeText =>
              match JS.parseInt sizeText with
              | None => JS.Ok None
              | Some currentSize =>
                  let initListMatch := exec INIT_LIST line in
                  match initListMatch ≫= fun m => group m 1 with
                  | None => JS.Ok None
                  | Some initList =>
                      if JS.falsy initList then JS.Ok None
                      else
                        let initElements :=
                          Z.of_nat (length (JS.split "," initList)) in
                        let newSize := Z.max currentSize initElements in
                        (* new RegExp(`${arrayName}\\s*\\[${currentSize}\\]`) *)
                        let* declared :=
                          RegExp arrayName
                            (seqs [Star space; Char "[";
                                   Str (JS.string_of_Z currentSize);
                                   Char "]"]) in
                        let newText :=
                          replace line declared
                            (arrayName +:+ "[" +:+ JS.string_of_Z newSize +:+
                             "]") in
                        JS.Ok (Some
                          (edit_action
                             ("将数组 '" +:+ arrayName +:+ "' 的大小从 " +:+
                              JS.string_of_Z currentSize +:+ " 增大到 " +:+
                              JS.string_of_Z newSize)
                             diagnostic document (line_range diagnostic)
                             newText))
                  end
              end
          end
    end.

(** [/调用了未定义的函数\s*'([^']+)'/] *)
Definition UNDECLARED_FUNCTION : regex :=
  seqs [Str "调用了未定义的函数"; Star space; quote; Group 1 (Plus not_quote);
        quote].

(** [`int param${i + 1}`] for each of the [n] parameters *)
Fixpoint paramDefs_from (i n : nat) : list string :=
  match n with
  | O => []
  | S n' => ("int param" +:+ JS.string_of_nat (i + 1)) :: paramDefs_from (S i) n'
  end.

(** [createUndeclaredFuncFix] *)
Definition createUndeclaredFuncFix : QuickFixResolver :=
  fun diagnostic document =>
    let found := exec UNDECLARED_FUNCTION (LspDiagnostic.message diagnostic) in
    match found ≫= fun m => group m 1 with
    | None => JS.Ok None
    | Some funcName =>
        if JS.falsy funcName then JS.Ok None
        else
          let line := line_of diagnostic document in
          (* the pattern built from funcName: the name, white space, and
             the text between the brackets as group 1 *)
          let* callPattern :=
            RegExp funcName
              (seqs [Star space; Char "(";
                     Group 1 (Star (Class true [CChar ")"])); Char ")"]) in
          let callMatch := exec callPattern line in
          let params :=
            match callMatch ≫= fun m => group m 1 with
            | Some text =>
                filter (fun p => negb (JS.falsy p))
                  (map JS.trim (JS.split "," text))
            | None => []
            end in
          let paramDefs := JS.join ", " (paramDefs_from 0 (length params)) in
          JS.Ok (Some
            (edit_action ("声明函数 '" +:+ funcName +:+ "'") diagnostic document
               (at_position (Position.mk (TextDocument.lineCount document) 0))
               (JS.LF +:+ "// 自动生成的函数声明" +:+ JS.LF +:+ "int " +:+
                funcName +:+ "(" +:+ paramDefs +:+ ") {" +:+ JS.LF +:+
                "    // 实现函数体" +:+ JS.LF +:+ "    return 0;" +:+ JS.LF +:+
                "}" +:+ JS.LF)))
    end.

(** [/函数名\s*'([^']+)'\s*已经定义过/] *)
Definition DUPLICATE_FUNCTION_NAME : regex :=
  seqs [Str "函数名"; Star space; quote; Group 1 (Plus not_quote); quote;
        Star space; Str "已经定义过"].

(** [createRenameDuplicateFuncFix] *)
Definition createRenameDuplicateFuncFix : QuickFixResolver :=
  fun diagnostic document =>
    let found := exec DUPLICATE_FUNCTION_NAME (LspDiagnostic.message diagnostic) in
    match found ≫= fun m => group m 1 with
    | None => JS.Ok None
    | Some funcName =>
        if JS.falsy funcName then JS.Ok None
        else
          let newFuncName := funcName +:+ "_new" in
          JS.Ok (Some
            (edit_action ("重命名函数为 '" +:+ newFuncName +:+ "'") diagnostic
               document (LspDiagnostic.range diagnostic) newFuncName))
    end.

(** [/参数个数不匹配。预期\s*(\d+)\s*个参数，但实际调用时传递了\s*(\d+)\s*个参数/] *)
Definition PARAMETER_COUNTS : regex :=
  seqs [Str "参数个数不匹配。预期"; Star space; Group 1 (Plus digit);
        Star space; Str "个参数，但实际调用时传递了"; Star space;
        Group 2 (Plus digit); Star space; Str "个参数"].

(** The two counts of the message; the groups are runs of digits. *)
Definition parameter_counts (msg : string) : option (Z * Z) :=
  match exec PARAMETER_COUNTS msg with
  | None => None
  | Some m =>
      match group m 1 ≫= JS.parseInt, group m 2 ≫= JS.parseInt with
      | Some expectedCount, Some actualCount => Some (expectedCount, actualCount)
      | _, _ => None
      end
  end.

Definition adjustParameters (diagnostic : LspDiagnostic.t)
  (document : TextDocument.t) (expectedCount : Z) : Command.t :=
  Command.create "修复参数数量" "sysy.adjustParameters"
    [ AString (TextDocument.uri document);
      ARange (LspDiagnostic.range diagnostic);
      ANumber expectedCount ].

(** [createParameterMismatchFix] *)
Definition createParameterMismatchFix : QuickFixResolver :=
  fun diagnostic document =>
    match parameter_counts (LspDiagnostic.message diagnostic) with
    | None => JS.Ok None
    | Some (expectedCount, actualCount) =>
        if (expectedCount <? actualCount)%Z then
          JS.Ok (Some
            (command_action "移除多余的参数" diagnostic
               (adjustParameters diagnostic document expectedCount)))
        else
          let missingCount := (expectedCount - actualCount)%Z in
          JS.Ok (Some
            (command_action
               ("添加" +:+ JS.string_of_Z missingCount +:+ "个缺少的参数")
               diagnostic
               (adjustParameters diagnostic document expectedCount)))
    end.

(** The pattern of a call: a name ([\w+], group 1), white space, and between
    brackets any characters (group 2). *)
Definition CALL : regex :=
  seqs [Group 1 (Plus word); Star space; Char "("; Group 2 (Star Any);
        Char ")"].

(** [`0 /* 参数${i + 1} */`] for [i] from [actualCount] below [expectedCount] *)
Fixpoint placeholders (i : Z) (n : nat) : list string :=
  match n with
  | O => []
  | S n' =>
      ("0 /* 参数" +:+ JS.string_of_Z (i + 1) +:+ " */")
      :: placeholders (i + 1) n'
  end.

(** [createAdjustParametersFix] *)
Definition createAdjustParametersFix (diagnostic : LspDiagnostic.t)
  (document : TextDocument.t) (removingParams : bool)
  : JS.outcome (option CodeAction.t) :=
  match parameter_counts (LspDiagnostic.message diagnostic) with
  | None => JS.Ok None
  | Some (expectedCount, actualCount) =>
      let line := line_of diagnostic document in
      match exec CALL line with
      | None => JS.Ok None
      | Some callMatch =>
          let funcName := default EmptyString (group callMatch 1) in
          let params :=
            map JS.trim (JS.split "," (default EmptyString (group callMatch 2))) in
          let adjusted :=
            if removingParams && (expectedCount <? actualCount)%Z then
              Some (firstn (Z.to_nat expectedCount) params,
                    "将函数 '" +:+ funcName +:+ "' 调用参数减少到 " +:+
                    JS.string_of_Z expectedCount +:+ " 个")
            else if negb removingParams && (actualCount <? expectedCount)%Z then
              Some (params ++
                    placeholders actualCount
                      (Z.to_nat (expectedCount - actualCount)),
                    "向函数 '" +:+ funcName +:+ "' 调用添加 " +:+
                    JS.string_of_Z (expectedCount - actualCount) +:+
                    " 个缺省参数")
            else None in
          match adjusted with
          | None => JS.Ok None
          | Some (newParams, title) =>
              let newCall :=
                funcName +:+ "(" +:+ JS.join ", " newParams +:+ ")" in
              match JS.indexOf line (matched callMatch) with
              | None => JS.Ok None
              | Some startIndex =>
                  let callRange :=
                    Range.mk
                      (Position.mk (start_line diagnostic) startIndex)
                      (Position.mk (start_line diagnostic)
                         (startIndex + String.length (matched callMatch))) in
                  JS.Ok (Some
                    (edit_action title diagnostic document callRange newCall))
              end
          end
      end
  end.

(** [createInvalidBreakContinueFix] *)
Definition createInvalidBreakContinueFix : QuickFixResolver :=
  fun diagnostic document =>
    JS.Ok (Some
      (edit_action "删除无效的 break/continue 语句" diagnostic document
         (line_range diagnostic)
         ("// 已删除无效的 break/continue 语句" +:+ JS.LF))).

(** [/有返回值:\s*(\w+)\s*的函数缺少/] *)
Definition MISSING_RETURN_TYPE : regex :=
  seqs [Str "有返回值:"; Star space; Group 1 (Plus word); Star space;
        Str "的函数缺少"].

(** [match?.[1] || "int"] *)
Definition returnType_of (pattern : regex) (msg : string) : string :=
  default "int" (JS.or_opt (exec pattern msg ≫= fun m => group m 1) (Some "int")).

(** [createMissingReturnFix] *)
Definition createMissingReturnFix : QuickFixResolver :=
  fun diagnostic document =>
    let returnType :=
      returnType_of MISSING_RETURN_TYPE (LspDiagnostic.message diagnostic) in
    JS.Ok (Some
      (command_action "添加 return 语句" diagnostic
         (Command.create "添加 return 语句" "sysy.addReturnStatement"
            [ AString (TextDocument.uri document);
              ARange (LspDiagnostic.range diagnostic);
              AString returnType ]))).

(** The [for ... of] over the characters of a line in
    [createAppendReturnFix]: the count of open braces after the line, or
    [None] when it reached zero within the line. *)
Fixpoint scan_braces (line : string) (braceCount : Z) : option Z :=
  match line with
  | EmptyString => Some braceCount
  | String char rest =>
      let braceCount :=
        if Ascii.eqb char "{" then (braceCount + 1)%Z
        else if Ascii.eqb char "}" then (braceCount - 1)%Z
        else braceCount in
      if (braceCount =? 0)%Z then None else scan_braces rest braceCount
  end.

(** The [while] of [createAppendReturnFix] over the lines from [endLine] on:
    the line on which the count reached zero, if any. *)
Fixpoint find_end_line (lines : list string) (endLine : nat) (braceCount : Z)
  : option nat :=
  match lines with
  | [] => None
  | line :: rest =>
      match scan_braces line braceCount with
      | None => Some endLine
      | Some braceCount' => find_end_line rest (S endLine) braceCount'
      end
  end.

(** [/^\s*/] *)
Definition LEADING_SPACE : regex := Seq Bol (Star space).

Definition defaultReturnValue (returnType : string) : string :=
  if String.eqb returnType "float" || String.eqb returnType "double"
  then "0.0" else "0".

(** [createAppendReturnFix]: [lines[endLine - 1]] is absent when the closing
    brace is found on the first line, and reading its text raises. *)
Definition createAppendReturnFix : QuickFixResolver :=
  fun diagnostic document =>
    let returnType :=
      returnType_of MISSING_RETURN_TYPE (LspDiagnostic.message diagnostic) in
    let text := TextDocument.text document in
    let lines := JS.split "010" text in
    match find_end_line (skipn (start_line diagnostic) lines)
            (start_line diagnostic) 1 with
    | None => JS.Ok None
    | Some endLine =>
        match endLine with
        | O => JS.Throw JS.TypeError
        | S previous =>
            match List.nth_error lines previous with
            | None => JS.Throw JS.TypeError
            | Some previousLine =>
                let indentation :=
                  JS.or_else
                    (match exec LEADING_SPACE previousLine with
                     | Some m => matched m
                     | None => EmptyString
                     end) "    " in
                JS.Ok (Some
                  (edit_action
                     ("在函数结尾添加 return " +:+
                      defaultReturnValue returnType +:+ ";")
                     diagnostic document
                     (at_position (Position.mk endLine 0))
                     (indentation +:+ "return " +:+
                      defaultReturnValue returnType +:+ ";" +:+ JS.LF)))
            end
        end
    end.

(** The pattern of a return with a value: white space (group 1), [return],
    [\s+], the characters other than [;] (group 2, [[^;]+]), and [;]. *)
Definition RETURN_VALUE : regex :=
  seqs [Group 1 (Star space); Str "return"; Plus space;
        Group 2 (Plus (Class true [CChar ";"])); Char ";"].

(** [createVoidReturnValueFix] *)
Definition createVoidReturnValueFix : QuickFixResolver :=
  fun diagnostic document =>
    let line := line_of diagnostic document in
    match exec RETURN_VALUE line with
    | None => JS.Ok None
    | Some returnMatch =>
        let indent := default EmptyString (group returnMatch 1) in
        JS.Ok (Some
          (edit_action "移除 void 函数的返回值" diagnostic document
             (line_range diagnostic) (indent +:+ "return;" +:+ JS.LF)))
    end.

(** The pattern of an assignment: white space (group 1), [[^=]+] (group 2),
    [=] and white space (group 3), [[^;]+] (group 4), and [;]. *)
Definition ASSIGNMENT : regex :=
  seqs [Group 1 (Star space); Group 2 (Plus (Class true [CChar "="]));
        Group 3 (Seq (Char "=") (Star space));
        Group 4 (Plus (Class true [CChar ";"])); Char ";"].

(** [createVoidAssignmentFix] *)
Definition createVoidAssignmentFix : QuickFixResolver :=
  fun diagnostic document =>
    let line := line_of diagnostic document in
    match exec ASSIGNMENT line with
    | None => JS.Ok None
    | Some assignmentMatch =>
        let indent := default EmptyString (group assignmentMatch 1) in
        let rightSide := default EmptyString (group assignmentMatch 4) in
        JS.Ok (Some
          (edit_action "移除 void 函数返回值的使用" diagnostic document
             (line_range diagnostic)
             (indent +:+ JS.trim rightSide +:+ ";" +:+ JS.LF)))
    end.

(** [createTypeMismatchFix]: an edit without changes *)
Definition createTypeMismatchFix : QuickFixResolver :=
  fun diagnostic document =>
    JS.Ok (Some
      (CodeAction.mk "添加类型转换" CodeActionKind.QuickFix (Some [diagnostic])
         (Some []) None)).

(** [createMissingSemicolonFix]: the body is inside a handler that gives
    [undefined]. *)
Definition createMissingSemicolonFix : QuickFixResolver :=
  fun diagnostic document =>
    JS.try_catch
      (let range := LspDiagnostic.range diagnostic in
       JS.Ok (Some
         (edit_action "添加缺失的分号" diagnostic document
            (at_position (Range.end_ range)) ";")))
      (fun _error => JS.Ok None).

(** [createUnmatchedBracketsFix] (the text around the range, which the body
    reads first, is not used) *)
Definition createUnmatchedBracketsFix : QuickFixResolver :=
  fun diagnostic document =>
    JS.try_catch
      (let range := LspDiagnostic.range diagnostic in
       if JS.includes (LspDiagnostic.message diagnostic) "缺少左括号"
          || JS.includes (LspDiagnostic.message diagnostic) "未找到匹配的左括号"
       then
         JS.Ok (Some
           (edit_action "添加缺失的左括号" diagnostic document
              (at_position (Range.start range)) "("))
       else
         JS.Ok (Some
           (edit_action "添加缺失的右括号" diagnostic document
              (at_position (Range.end_ range)) ")")))
      (fun _error => JS.Ok None).

(** [/有返回值:\s*(\w+)\s*的函数不应返回为空/] *)
Definition EMPTY_RETURN_TYPE : regex :=
  seqs [Str "有返回值:"; Star space; Group 1 (Plus word); Star space;
        Str "的函数不应返回为空"].

(** The pattern of an empty return: white space (group 1), [return], white
    space, and [;]. *)
Definition EMPTY_RETURN_STATEMENT : regex :=
  seqs [Group 1 (Star space); Str "return"; Star space; Char ";"].

(** [createEmptyReturnFix] *)
Definition createEmptyReturnFix : QuickFixResolver :=
  fun diagnostic document =>
    let returnType :=
      returnType_of EMPTY_RETURN_TYPE (LspDiagnostic.message diagnostic) in
    let line := line_of diagnostic document in
    match exec EMPTY_RETURN_STATEMENT line with
    | None => JS.Ok None
    | Some returnMatch =>
        let indent := default EmptyString (group returnMatch 1) in
        JS.Ok (Some
          (edit_action
             ("添加返回值 '" +:+ defaultReturnValue returnType +:+ "'")
             diagnostic document (line_range diagnostic)
             (indent +:+ "return " +:+ defaultReturnValue returnType +:+ ";"
              +:+ JS.LF)))
    end.

(** [getErrorCode]: the code of a message, by the texts it contains. *)
Definition getErrorCode (msg : string) : option string :=
  let has := JS.includes msg in
  if JS.falsy msg then None
  else if has "使用了未定义的变量" || has "未声明的变量" then
    Some ERROR_CODES.UNDEFINED_VARIABLE
  else if has "无法重新声明块范围变量" then
    Some ERROR_CODES.DUPLICATE_DECLARATION
  else if has "数组" && has "初始化元素数量超过了数组大小" then
    Some ERROR_CODES.ARRAY_SIZE_OVERFLOW
  else if has "调用了未定义的函数" then Some ERROR_CODES.UNDEFINED_FUNCTION
  else if has "函数名" && has "已经定义过" then
    Some ERROR_CODES.DUPLICATE_FUNCTION
  else if has "参数个数不匹配" then Some ERROR_CODES.PARAMETER_MISMATCH
  else if has "非循环块中使用了" then Some ERROR_CODES.INVALID_BREAK_CONTINUE
  else if has "有返回值的函数缺少" then Some ERROR_CODES.MISSING_RETURN
  else if has "有返回值的函数不应返回为空" then Some ERROR_CODES.EMPTY_RETURN
  else if has "void 函数不应存在非空返回值" then
    Some ERROR_CODES.VOID_RETURN_VALUE
  else if has "不能将void类型变量参与运算或用于赋值" then
    Some ERROR_CODES.VOID_ASSIGNMENT
  else if has "类型不匹配" || has "无法将类型" then
    Some ERROR_CODES.TYPE_MISMATCH
  else if has "缺少分号" || has "应该有分号" then
    Some ERROR_CODES.MISSING_SEMICOLON
  else if has "括号不匹配" || has "缺少左括号" || has "缺少右括号"
          || has "括号未闭合" then
    Some ERROR_CODES.UNMATCHED_BRACKETS
  else if has "未使用的变量" || has "变量已声明但从未使用" then
    Some ERROR_CODES.UNUSED_VARIABLE
  else None.

(** [/'([^']+)'/] *)
Definition QUOTED : regex := seqs [quote; Group 1 (Plus not_quote); quote].

(** [extractContextParams], as far as [createUnusedVariableFix] reads its
    result: whether there are parameters at all, and their [variableName].
    The category of the message is looked up on the way. *)
Definition extractContextParams (diagnostic : LspDiagnostic.t)
  (document : TextDocument.t) : JS.outcome (option (option string)) :=
  let msg := LspDiagnostic.message diagnostic in
  let has := JS.includes msg in
  match getErrorCode msg with
  | None => JS.Ok None
  | Some errorCode =>
      let* errorCategory := ErrorMessageProvider.getErrorCategory msg in
      let quoted :=
        match exec QUOTED msg ≫= fun m => group m 1 with
        | Some name => if JS.falsy name then None else Some name
        | None => None
        end in
      let variableName :=
        if has "使用了未定义的变量" || has "未声明的变量" then quoted
        else if has "无法重新声明块范围变量" then quoted
        else if has "调用了未定义的函数" then None
        else if has "参数个数不匹配" then None
        else if has "数组" && has "初始化元素数量超过了数组大小" then None
        else if has "未使用的变量" then quoted
        else None in
      JS.Ok (Some variableName)
  end.

(** [createUnusedVariableFix]: of the two actions that the body builds, the
    one that removes the line is returned (the text of the line, which the
    body reads, is not used) *)
Definition createUnusedVariableFix : QuickFixResolver :=
  fun diagnostic document =>
    JS.try_catch
      (let* params := extractContextParams diagnostic document in
       match params with
       | Some (Some variableName) =>
           JS.Ok (Some
             (edit_action ("删除未使用的变量 '" +:+ variableName +:+ "'")
                diagnostic document (line_range diagnostic) EmptyString))
       | _ => JS.Ok None
       end)
      (fun _error => JS.Ok None).

(** [createGenericFix] *)
Definition createGenericFix (diagnostic : LspDiagnostic.t)
  (document : TextDocument.t) : CodeAction.t :=
  command_action "尝试修复此问题" diagnostic
    (Command.create "尝试修复" "sysy.genericFix"
       [ AString (TextDocument.uri document);
         ARange (LspDiagnostic.range diagnostic) ]).

(** The two actions of [addRefactoringActions]. *)
Definition refactoringActions (params : CodeActionParams.t)
  (document : TextDocument.t) : list CodeAction.t :=
  [ CodeAction.mk "提取为函数" CodeActionKind.RefactorExtract None None
      (Some (Command.create "提取为函数" "sysy.extractFunction"
               [ AString (TextDocument.uri document);
                 ARange (CodeActionParams.range params) ]));
    CodeAction.mk "提取为变量" CodeActionKind.RefactorExtract None
      (Some [ (TextDocument.uri document,
               [ TextEdit.mk (CodeActionParams.range params)
                   ("temp_var = " +:+
                    TextDocument.getText document
                      (CodeActionParams.range params) +:+ ";") ]) ])
      None ].

(** ** Quick-fix provider: the registries and the engine *)

(** A [Map] with text keys, in the order of insertion. *)
Section Map.
Context {V : Type}.

Fixpoint Map_get (m : list (string * V)) (key : string) : option V :=
  match m with
  | [] => None
  | (k, v) :: rest => if String.eqb k key then Some v else Map_get rest key
  end.

Definition Map_has (m : list (string * V)) (key : string) : bool :=
  match Map_get m key with Some _ => true | None => false end.

(** [m.set(key, value)]: a key that is present keeps its place. *)
Fixpoint Map_set (m : list (string * V)) (key : string) (value : V)
  : list (string * V) :=
  match m with
  | [] => [(key, value)]
  | (k, v) :: rest =>
      if String.eqb k key then (k, value) :: rest
      else (k, v) :: Map_set rest key value
  end.

End Map.

(** The provider object: the document service and the two registries. *)
Record provider : Type := mkProvider {
  getOrCreateDocument : string -> JS.outcome TextDocument.t;
  codeToFix : list (string * QuickFixResolver);
  diagnosticMessageToFix : list (string * QuickFixResolver)
}.

(** [registerCodeFix] and [registerMessageFix] *)
Definition registerCodeFix (errorCode : string) (resolver : QuickFixResolver)
  (this : provider) : provider :=
  mkProvider (getOrCreateDocument this)
    (Map_set (codeToFix this) errorCode resolver)
    (diagnosticMessageToFix this).

Definition registerMessageFix (diagnosticPattern : string)
  (resolver : QuickFixResolver) (this : provider) : provider :=
  mkProvider (getOrCreateDocument this) (codeToFix this)
    (Map_set (diagnosticMessageToFix this) diagnosticPattern resolver).

(** [registerQuickFixes]: the bindings, in the order of the source. *)
Definition code_bindings : list (string * QuickFixResolver) :=
  [ (ERROR_CODES.UNDEFINED_VARIABLE, createUndeclaredVarFix);
    (ERROR_CODES.DUPLICATE_DECLARATION, createRenameDuplicateVarFix);
    (ERROR_CODES.ARRAY_SIZE_OVERFLOW, createArraySizeOverflowFix);
    (ERROR_CODES.UNDEFINED_FUNCTION, createUndeclaredFuncFix);
    (ERROR_CODES.DUPLICATE_FUNCTION, createRenameDuplicateFuncFix);
    (ERROR_CODES.PARAMETER_MISMATCH, createParameterMismatchFix);
    (ERROR_CODES.INVALID_BREAK_CONTINUE, createInvalidBreakContinueFix);
    (ERROR_CODES.MISSING_RETURN, createMissingReturnFix);
    (ERROR_CODES.EMPTY_RETURN, createEmptyReturnFix);
    (ERROR_CODES.VOID_RETURN_VALUE, createVoidReturnValueFix);
    (ERROR_CODES.VOID_ASSIGNMENT, createVoidAssignmentFix);
    (ERROR_CODES.TYPE_MISMATCH, createTypeMismatchFix);
    (ERROR_CODES.MISSING_SEMICOLON, createMissingSemicolonFix);
    (ERROR_CODES.UNMATCHED_BRACKETS, createUnmatchedBracketsFix);
    (ERROR_CODES.UNUSED_VARIABLE, createUnusedVariableFix) ].

Definition message_bindings : list (string * QuickFixResolver) :=
  [ ("未定义的变量", createUndeclaredVarFix);
    ("未声明的变量", createUndeclaredVarFix);
    ("使用了未定义的变量", createUndeclaredVarFix);
    ("无法重新声明块范围变量", createRenameDuplicateVarFix);
    ("数组的初始化元素数量超过了数组大小", createArraySizeOverflowFix);
    ("调用了未定义的函数", createUndeclaredFuncFix);
    ("函数名已经定义过", createRenameDuplicateFuncFix);
    ("参数个数不匹配", createParameterMismatchFix);
    ("非循环块中使用了", createInvalidBreakContinueFix);
    ("有返回值的函数缺少 return", createMissingReturnFix);
    ("有返回值的函数不应返回为空", createEmptyReturnFix);
    ("void 函数不应存在非空返回值", createVoidReturnValueFix);
    ("不能将void类型变量参与运算或用于赋值", createVoidAssignmentFix);
    ("缺少分号", createMissingSemicolonFix);
    ("应该有分号", createMissingSemicolonFix);
    ("括号不匹配", createUnmatchedBracketsFix);
    ("缺少左括号", createUnmatchedBracketsFix);
    ("缺少右括号", createUnmatchedBracketsFix);
    ("括号未闭合", createUnmatchedBracketsFix);
    ("未使用的变量", createUnusedVariableFix);
    ("变量已声明但从未使用", createUnusedVariableFix) ].

Definition registerQuickFixes (this : provider) : provider :=
  let this :=
    fold_left (fun this binding =>
                 registerCodeFix (fst binding) (snd binding) this)
      code_bindings this in
  fold_left (fun this binding =>
               registerMessageFix (fst binding) (snd binding) this)
    message_bindings this.

(** The constructor: empty registries, then [registerQuickFixes]. *)
Definition new_SysyQuickFixProvider
  (getOrCreateDocument : string -> JS.outcome TextDocument.t) : provider :=
  registerQuickFixes (mkProvider getOrCreateDocument [] []).

(** [getDiagnosticCode] *)
Definition getDiagnosticCode (diagnostic : LspDiagnostic.t) : option string :=
  match LspDiagnostic.code diagnostic with
  | Some (CodeString s) => Some s
  | Some (CodeObject value) => value
  | Some (CodeNumber _) => None
  | None => None
  end.

(** The additional fix of a mismatch of parameters. *)
Definition adjust_by_message (diagnostic : LspDiagnostic.t)
  (document : TextDocument.t) : JS.outcome (option CodeAction.t) :=
  if JS.includes (LspDiagnostic.message diagnostic) "传递了"
  then createAdjustParametersFix diagnostic document true
  else createAdjustParametersFix diagnostic document false.

Definition one (fix_ : JS.outcome (option CodeAction.t))
  : JS.outcome (list (option CodeAction.t)) :=
  let* action := fix_ in JS.Ok [action].

(** [createAdditionalFixes] *)
Definition createAdditionalFixes (this : provider) (pattern : string)
  (diagnostic : LspDiagnostic.t) (document : TextDocument.t)
  : JS.outcome (list (option CodeAction.t)) :=
  if Map_has (codeToFix this) pattern then
    if String.eqb pattern ERROR_CODES.UNDEFINED_VARIABLE then
      one (createGlobalVarDeclarationFix diagnostic document)
    else if String.eqb pattern ERROR_CODES.PARAMETER_MISMATCH then
      one (adjust_by_message diagnostic document)
    else if String.eqb pattern ERROR_CODES.MISSING_RETURN then
      one (createAppendReturnFix diagnostic document)
    else JS.Ok []
  else
    if String.eqb pattern "使用了未定义的变量"
       || String.eqb pattern "未定义的变量"
       || String.eqb pattern "未声明的变量" then
      one (createGlobalVarDeclarationFix diagnostic document)
    else if String.eqb pattern "参数个数不匹配" then
      one (adjust_by_message diagnostic document)
    else if String.eqb pattern "有返回值的函数缺少 return" then
      one (createAppendReturnFix diagnostic document)
    else JS.Ok [].

(** A step of the engine works on the shared array [codeActions]: it gives
    its outcome and the array as it leaves it.  What was pushed before a
    raise stays in the array. *)
Definition engine (A : Type) : Type :=
  list CodeAction.t -> JS.outcome A * list CodeAction.t.

Definition done_ : engine unit := fun codeActions => (JS.Ok tt, codeActions).

(** [codeActions.push(...actions)] *)
Definition push (actions : list CodeAction.t) : engine unit :=
  fun codeActions => (JS.Ok tt, codeActions ++ actions).

(** A computation that does not touch the array. *)
Definition call {A : Type} (m : JS.outcome A) : engine A :=
  fun codeActions => (m, codeActions).

Definition step {A B : Type} (m : engine A) (k : A -> engine B) : engine B :=
  fun codeActions =>
    match m codeActions with
    | (JS.Ok a, codeActions') => k a codeActions'
    | (JS.Throw e, codeActions') => (JS.Throw e, codeActions')
    | (JS.Unmodelled, codeActions') => (JS.Unmodelled, codeActions')
    end.

(** [additionalActions.filter((action) => action !== undefined)] *)
Definition defined (actions : list (option CodeAction.t)) : list CodeAction.t :=
  omap id actions.

(** The action of a resolver, and after it the additional fixes. *)
Definition push_with_additional (this : provider) (pattern : string)
  (action : CodeAction.t) (diagnostic : LspDiagnostic.t)
  (document : TextDocument.t) : engine unit :=
  step (push [action]) (fun _ =>
  step (call (createAdditionalFixes this pattern diagnostic document))
    (fun additionalActions => push (defined additionalActions))).

(** The loop of [createCodeActionsForDiagnostic] over the entries of
    [diagnosticMessageToFix]: the first pattern that the message contains
    decides. *)
Fixpoint by_message (this : provider) (entries : list (string * QuickFixResolver))
  (diagnostic : LspDiagnostic.t) (document : TextDocument.t) : engine unit :=
  match entries with
  | [] => done_
  | (pattern, resolver) :: rest =>
      if JS.includes (LspDiagnostic.message diagnostic) pattern then
        step (call (resolver diagnostic document)) (fun action =>
          match action with
          | Some action =>
              push_with_additional this pattern action diagnostic document
          | None => done_
          end)
      else by_message this rest diagnostic document
  end.

(** [createCodeActionsForDiagnostic] *)
Definition createCodeActionsForDiagnostic (this : provider)
  (diagnostic : LspDiagnostic.t) (document : TextDocument.t) : engine unit :=
  let code := getDiagnosticCode diagnostic in
  let fallback :=
    by_message this (diagnosticMessageToFix this) diagnostic document in
  match code with
  | Some code =>
      if negb (JS.falsy code) then
        match Map_get (codeToFix this) code with
        | Some resolver =>
            step (call (resolver diagnostic document)) (fun action =>
              match action with
              | Some action =>
                  push_with_additional this code action diagnostic document
              | None => fallback
              end)
        | None => fallback
        end
      else fallback
  | None => fallback
  end.

(** The loop of [getCodeActions] over [params.context.diagnostics]. *)
Fixpoint for_each_diagnostic (this : provider)
  (diagnostics : list LspDiagnostic.t) (document : TextDocument.t)
  : engine unit :=
  match diagnostics with
  | [] => done_
  | diagnostic :: rest =>
      step (createCodeActionsForDiagnostic this diagnostic document)
        (fun _ => for_each_diagnostic this rest document)
  end.

(** The selection of the request lies on one line and is not empty. *)
Definition has_selection (params : CodeActionParams.t) : bool :=
  let range := CodeActionParams.range params in
  (Position.line (Range.start range) =? Position.line (Range.end_ range))%nat
  && negb (Position.character (Range.start range)
           =? Position.character (Range.end_ range))%nat.

(** The body of the [try] of [getCodeActions]. *)
Definition getCodeActions_body (this : provider) (params : CodeActionParams.t)
  : engine unit :=
  step (call (getOrCreateDocument this (CodeActionParams.uri params)))
    (fun document =>
  step (for_each_diagnostic this (CodeActionParams.diagnostics params) document)
    (fun _ =>
  step (if has_selection params
        then push (refactoringActions params document) else done_)
    (fun _ codeActions =>
       match codeActions, CodeActionParams.diagnostics params with
       | [], first :: _ => push [createGenericFix first document] codeActions
       | _, _ => done_ codeActions
       end))).

(** [getCodeActions]: the array, whether the body ended or raised. *)
Definition getCodeActions (this : provider) (params : CodeActionParams.t)
  : JS.outcome (list CodeAction.t) :=
  match getCodeActions_body this params [] with
  | (JS.Ok _, codeActions) => JS.Ok codeActions
  | (JS.Throw _error, codeActions) => JS.Ok codeActions
  | (JS.Unmodelled, _) => JS.Unmodelled
  end.

End SysyQuickFixProvider.

(** ** The language server (main.ts): the diagnostics on their way out *)

Module Server.
Import ErrorMessageProvider.

Module DiagnosticSeverity.
Definition Error : nat := 1.
Definition Warning : nat := 2.
Definition Information : nat := 3.
Definition Hint : nat := 4.
End DiagnosticSeverity.

(** A diagnostic as it is published: the fields that the server reads or
    writes before it sends it. *)
Module PublishedDiagnostic.
Record t : Type := mk {
  range : Range.t;
  message : string;
  code : option DiagnosticCode;
  source : option string;
  severity : option nat
}.
End PublishedDiagnostic.

Definition ERROR_CODE_PREFIX : string := "SYSY".

(** The values of the enumeration [ErrorCategory]. *)
Definition category_value (category : ErrorCategory) : string :=
  match category with
  | VARIABLE => "VAR"
  | FUNCTION => "FUNC"
  | ARRAY => "ARR"
  | TYPE => "TYPE"
  | CONTROL => "CTRL"
  | OTHER => "OTHER"
  end.

Definition CATEGORY_TO_SEVERITY (category : ErrorCategory) : nat :=
  match category with
  | OTHER => DiagnosticSeverity.Warning
  | _ => DiagnosticSeverity.Error
  end.

(** [!diagnostic.code], [!diagnostic.source] and [!diagnostic.severity] *)
Definition no_code (code : option DiagnosticCode) : bool :=
  match code with
  | None => true
  | Some (CodeString s) => JS.falsy s
  | Some (CodeNumber n) => (n =? 0)%Z
  | Some (CodeObject _) => false
  end.

Definition no_source (source : option string) : bool :=
  match source with
  | None => true
  | Some s => JS.falsy s
  end.

Definition no_severity (severity : option nat) : bool :=
  match severity with
  | None => true
  | Some n => (n =? 0)%nat
  end.

(** The body of the [forEach] of the wrapper of [sendDiagnostics]. *)
Definition enhance (diagnostic : PublishedDiagnostic.t)
  : JS.outcome PublishedDiagnostic.t :=
  let message := PublishedDiagnostic.message diagnostic in
  let errorCode := SysyQuickFixProvider.getErrorCode message in
  let* code :=
    if no_code (PublishedDiagnostic.code diagnostic) then
      let* category := getErrorCategory message in
      let prefix :=
        match category with
        | Some category => ERROR_CODE_PREFIX +:+ "-" +:+ category_value category
        | None => ERROR_CODE_PREFIX
        end in
      JS.Ok (Some (CodeString
                     match errorCode with
                     | Some errorCode => prefix +:+ "-" +:+ errorCode
                     | None => prefix +:+ "-ERROR"
                     end))
    else JS.Ok (PublishedDiagnostic.code diagnostic) in
  let source :=
    if no_source (PublishedDiagnostic.source diagnostic) then Some "SysY+"
    else PublishedDiagnostic.source diagnostic in
  let* severity :=
    if no_severity (PublishedDiagnostic.severity diagnostic) then
      let* category := getErrorCategory message in
      JS.Ok (Some match category with
                  | Some category => CATEGORY_TO_SEVERITY category
                  | None => DiagnosticSeverity.Error
                  end)
    else JS.Ok (PublishedDiagnostic.severity diagnostic) in
  JS.Ok (PublishedDiagnostic.mk (PublishedDiagnostic.range diagnostic) message
           code source severity).

(** The wrapper of [connection.sendDiagnostics]: the diagnostics that it
    hands to the original method. *)
Fixpoint sendDiagnostics (diagnostics : list PublishedDiagnostic.t)
  : JS.outcome (list PublishedDiagnostic.t) :=
  match diagnostics with
  | [] => JS.Ok []
  | diagnostic :: rest =>
      let* first := enhance diagnostic in
      let* later := sendDiagnostics rest in
      JS.Ok (first :: later)
  end.

(** The diagnostic as the quick-fix provider reads it. *)
Definition toLsp (diagnostic : PublishedDiagnostic.t) : LspDiagnostic.t :=
  LspDiagnostic.mk (PublishedDiagnostic.range diagnostic)
    (PublishedDiagnostic.message diagnostic)
    (PublishedDiagnostic.code diagnostic).

End Server.

(** ** Hover provider: the node under the cursor and the remaining contents *)

Module HoverRequest.

(** [$cstNode], as far as the search reads it. *)
Module CstNode.
Record t : Type := mk { offset : nat; end_ : nat }.
End CstNode.

(** A node of the tree as the search sees it: the node itself, its
    [$cstNode], when it has one, and the nodes that [streamChildren] yields
    for it, in their order. *)
Inductive Node (A : Type) : Type :=
| mkNode (value : A) (cstNode : option CstNode.t) (children : list (Node A)).
Arguments mkNode {A} value cstNode children.

Section Search.
Context {A : Type}.

Definition value (node : Node A) : A :=
  match node with mkNode value _ _ => value end.

Definition cstNode (node : Node A) : option CstNode.t :=
  match node with mkNode _ cstNode _ => cstNode end.

Definition streamChildren (node : Node A) : list (Node A) :=
  match node with mkNode _ _ children => children end.

(** [child.$cstNode && child.$cstNode.offset <= offset &&
    child.$cstNode.end >= offset] *)
Definition covers (offset : nat) (child : Node A) : bool :=
  match cstNode child with
  | Some cst =>
      (CstNode.offset cst <=? offset)%nat && (offset <=? CstNode.end_ cst)%nat
  | None => false
  end.

(** [getNodeAtPosition2] *)
Fixpoint getNodeAtPosition2 (node : Node A) (offset : nat) {struct node}
  : option (Node A) :=
  match node with
  | mkNode _ _ children =>
      (fix for_of (children : list (Node A)) : option (Node A) :=
         match children with
         | [] => None
         | child :: rest =>
             if covers offset child then
               match getNodeAtPosition2 child offset with
               | Some deeperNode => Some deeperNode
               | None => Some child
               end
             else for_of rest
         end) children
  end.

(** [getNodeAtPosition], from the offset of the position on *)
Definition getNodeAtPosition (rootNode : Node A) (offset : nat) : Node A :=
  (fix for_of (children : list (Node A)) : Node A :=
     match children with
     | [] => rootNode
     | child :: rest =>
         if covers offset child then
           match getNodeAtPosition2 child offset with
           | Some deeperNode => deeperNode
           | None => child
           end
         else for_of rest
     end) (streamChildren rootNode).

End Search.

(** [param.$cstNode?.text.includes("[")] *)
Definition is_array_param (param : FuncFParam.t) : bool :=
  match FuncFParam.cstText param with
  | Some text => JS.includes text "["
  | None => false
  end.

(** [buildFunctionHoverContent]: the [value] of the content *)
Definition buildFunctionHoverContent (node : FuncDef.t) : string :=
  let params :=
    JS.join ", "
      (map (fun param =>
              FuncFParam.btype param +:+ " " +:+ FuncFParam.name param +:+
              (if is_array_param param then "[]" else EmptyString))
         (FuncDef.funcFparam node)) in
  let returnType := FuncDef.functype node in
  let detail :=
    "(函数) " +:+ FuncDef.name node +:+ "(" +:+ params +:+ "): " +:+
    returnType in
  let content :=
    "函数定义" +:+ JS.LF +:+ JS.LF +:+ "返回类型: " +:+ returnType +:+ JS.LF +:+
    JS.LF +:+ "参数列表:" +:+ JS.LF in
  let content :=
    match FuncDef.funcFparam node with
    | [] => content +:+ "- 无参数" +:+ JS.LF
    | params =>
        fold_left
          (fun content param =>
             content +:+
             ("- " +:+ FuncFParam.name param +:+ ": " +:+
              FuncFParam.btype param +:+
              (if is_array_param param then " (数组)" else EmptyString)) +:+
             JS.LF)
          params content
    end in
  "**" +:+ detail +:+ "**" +:+ JS.LF +:+ JS.LF +:+ content.

(** [findParentFunction]: [containers] are the node's [$container], the
    [$container] of that, and so on up to the root. *)
Fixpoint findParentFunction (containers : list AstNode) : option FuncDef.t :=
  match containers with
  | [] => None
  | NFuncDef funcDef :: _ => Some funcDef
  | _ :: rest => findParentFunction rest
  end.

(** [buildFuncParamHoverContent]: the [value] of the content *)
Definition buildFuncParamHoverContent (node : FuncFParam.t)
  (containers : list AstNode) : string :=
  let detail :=
    "(参数) " +:+ FuncFParam.name node +:+ ": " +:+ FuncFParam.btype node in
  let content :=
    "函数参数" +:+ JS.LF +:+ JS.LF +:+ "类型: " +:+ FuncFParam.btype node in
  let detail := if is_array_param node then detail +:+ "[]" else detail in
  let content :=
    if is_array_param node
    then content +:+ JS.LF +:+ JS.LF +:+ "这是一个数组参数" else content in
  let content :=
    match findParentFunction containers with
    | Some funcDef =>
        content +:+ JS.LF +:+ JS.LF +:+ "所属函数: " +:+ FuncDef.name funcDef
    | None => content
    end in
  "**" +:+ detail +:+ "**" +:+ JS.LF +:+ JS.LF +:+ content.

(** A node as [buildHoverContent] tells the types apart; a parameter comes
    with its containers. *)
Inductive HoverNode : Type :=
| HVariableLVal (node : VariableLVal.t)
| HFuncDef (node : FuncDef.t)
| HVarDef (node : VarDef.t)
| HFuncFParam (node : FuncFParam.t) (containers : list AstNode)
| HOther.

(** [buildHoverContent]: the [value] of the content, if any *)
Definition buildHoverContent (node : HoverNode) : option string :=
  match node with
  | HVariableLVal node => SysyHoverProvider.buildVariableHoverContent node
  | HFuncDef node => Some (buildFunctionHoverContent node)
  | HVarDef node => Some (SysyHoverProvider.buildVarDefHoverContent node)
  | HFuncFParam node containers =>
      Some (buildFuncParamHoverContent node containers)
  | HOther => None
  end.

End HoverRequest.

(** ** Formatting service (formatting-provider.ts): the last step of a line *)

Module SysyFormattingService.
Import Regex.

(** The [for] of [cleanExtraSpaces] over the characters of the line, from
    the values of [inString], [stringChar] and [lastWasSpace]: the
    characters that it pushes onto [result].  ([stringChar] is read only
    while [inString] holds.) *)
Fixpoint pushed (line : string) (inString : bool) (stringChar : ascii)
  (lastWasSpace : bool) : string :=
  match line with
  | EmptyString => EmptyString
  | String char rest =>
      if negb inString && (Ascii.eqb char "034" || Ascii.eqb char "'") then
        String char (pushed rest true char false)
      else if inString && Ascii.eqb char stringChar then
        String char (pushed rest false stringChar false)
      else if inString then
        String char (pushed rest inString stringChar false)
      else if Ascii.eqb char " " then
        if negb lastWasSpace
        then String char (pushed rest inString stringChar true)
        else pushed rest inString stringChar lastWasSpace
      else String char (pushed rest inString stringChar false)
  end.

(** [/\s+$/] *)
Definition TRAILING_SPACE : regex := Seq (Plus space) Eol.

(** [cleanExtraSpaces] *)
Definition cleanExtraSpaces (line : string) : string :=
  replace (pushed line false "000" false) TRAILING_SPACE EmptyString.

End SysyFormattingService.

(** ** Refactoring provider (refactor-provider.ts): the extraction of a
    function *)

Module SysyRefactorProvider.
Import Regex.

Record VariableInfo : Type := mkVariableInfo { name : string; type : string }.

Record CodeAnalysisResult : Type := mkCodeAnalysisResult {
  parameters : list VariableInfo;
  hasReturn : bool;
  returnType : string
}.

(** [isValidExtractionRange] *)
Definition isValidExtractionRange (range : Range.t) : bool :=
  negb (Position.line (Range.start range) =? Position.line (Range.end_ range))%nat
  || (5 <? Z.of_nat (Position.character (Range.end_ range))
           - Z.of_nat (Position.character (Range.start range)))%Z.

(** [getTextInRange]: reading the text of a range does not raise. *)
Definition getTextInRange (document : TextDocument.t) (range : Range.t)
  : option string :=
  Some (TextDocument.getText document range).

(** [findUsedVariables] *)
Definition findUsedVariables (document : TextDocument.t) (range : Range.t)
  : list VariableInfo :=
  [ mkVariableInfo "a" "int"; mkVariableInfo "b" "int" ].

(** [/return \d+;/] *)
Definition RETURN_NUMBER : regex :=
  seqs [Str "return "; Plus digit; Char ";"].

(** [inferReturnType] *)
Definition inferReturnType (code : string) : string :=
  if JS.includes code "return 0" || JS.includes code "return a+b"
     || test RETURN_NUMBER code then "int"
  else if JS.includes code "return true" || JS.includes code "return false"
  then "bool"
  else "int".

(** [analyzeSelectedCode] *)
Definition analyzeSelectedCode (document : TextDocument.t) (range : Range.t)
  (code : string) : CodeAnalysisResult :=
  let usedVariables := findUsedVariables document range in
  let hasReturnStatement := JS.includes code "return " in
  let returnType :=
    if hasReturnStatement then inferReturnType code else "void" in
  mkCodeAnalysisResult usedVariables hasReturnStatement returnType.

(** [generateNewFunction] *)
Definition generateNewFunction (functionName : string)
  (analysis : CodeAnalysisResult) : string :=
  let paramList :=
    JS.join ", "
      (map (fun p => type p +:+ " " +:+ name p) (parameters analysis)) in
  let functionHeader :=
    JS.LF +:+ JS.LF +:+ returnType analysis +:+ " " +:+ functionName +:+ "(" +:+
    paramList +:+ ") {" +:+ JS.LF in
  let functionBody :=
    "    // 这里是抽取的代码" +:+ JS.LF +:+
    "    // TODO: 根据实际选中代码调整" +:+ JS.LF in
  let returnStatement :=
    if hasReturn analysis then EmptyString else "    return 0;" +:+ JS.LF in
  let functionFooter := "}" +:+ JS.LF in
  functionHeader +:+ functionBody +:+ returnStatement +:+ functionFooter.

(** [generateFunctionCall] *)
Definition generateFunctionCall (functionName : string)
  (analysis : CodeAnalysisResult) : string :=
  let argList := JS.join ", " (map name (parameters analysis)) in
  if hasReturn analysis then functionName +:+ "(" +:+ argList +:+ ")"
  else functionName +:+ "(" +:+ argList +:+ ");".

(** [findFunctionInsertPosition] *)
Definition findFunctionInsertPosition (document : TextDocument.t) : Position.t :=
  Position.mk (TextDocument.lineCount document) 0.

(** [extractFunction]: the changes of the workspace edit, by document. *)
Definition extractFunction
  (getOrCreateDocument : string -> JS.outcome TextDocument.t)
  (documentUri : string) (range : Range.t) (newFunctionName : string)
  : JS.outcome (option (list (string * list TextEdit.t))) :=
  let* document := getOrCreateDocument documentUri in
  if negb (isValidExtractionRange range) then JS.Ok None
  else
    match getTextInRange document range with
    | None => JS.Ok None
    | Some selectedCode =>
        if JS.falsy selectedCode then JS.Ok None
        else
          let analysis := analyzeSelectedCode document range selectedCode in
          let newFunction := generateNewFunction newFunctionName analysis in
          let functionCall := generateFunctionCall newFunctionName analysis in
          let insertPosition := findFunctionInsertPosition document in
          JS.Ok (Some
            [ (documentUri,
               [ TextEdit.mk range functionCall;
                 TextEdit.mk (Range.mk insertPosition insertPosition)
                   newFunction ]) ])
    end.

End SysyRefactorProvider.

(** ** Requests of the client (example-loader.js): the arguments of a call *)

Module Requests.
Import Regex.

(** [params.slice(0, end)] *)
Definition slice_to {A : Type} (params : list A) (end_ : Z) : list A :=
  if (end_ <? 0)%Z
  then firstn (Z.to_nat (Z.of_nat (length params) + end_)) params
  else firstn (Z.to_nat end_) params.

(** The handler of [sysy.adjustParameters]: the changes of the edit that it
    returns, or [null].  The lines are the pieces of the text between line
    feeds; a line that the document does not have is [undefined], and
    matching on it raises within the [try].  The text that matched occurs in
    the line, so that [indexOf] finds it ([exec_matched_found]); the run in
    which it would not is left unmodelled. *)
Definition adjustParameters
  (getOrCreateDocument : string -> JS.outcome TextDocument.t)
  (uri : string) (range : Range.t) (expectedCount : Z)
  : JS.outcome (option (list (string * list TextEdit.t))) :=
  let* document := getOrCreateDocument uri in
  JS.try_catch
    (let text := TextDocument.text document in
     let lines := JS.split "010" text in
     match nth_error lines (Position.line (Range.start range)) with
     | None => JS.Throw JS.TypeError
     | Some line =>
         match exec SysyQuickFixProvider.CALL line with
         | Some match_ =>
             let funcName := default EmptyString (group match_ 1) in
             let paramsText := default EmptyString (group match_ 2) in
             let params := map JS.trim (JS.split "," paramsText) in
             let actualCount := Z.of_nat (length params) in
             let newParams :=
               if (expectedCount <? actualCount)%Z
               then slice_to params expectedCount
               else params ++
                    SysyQuickFixProvider.placeholders actualCount
                      (Z.to_nat (expectedCount - actualCount)) in
             match JS.indexOf line (matched match_) with
             | None => JS.Unmodelled
             | Some startIdx =>
                 let newCall :=
                   funcName +:+ "(" +:+ JS.join ", " newParams +:+ ")" in
                 JS.Ok (Some
                   [ (uri,
                      [ TextEdit.mk
                          (Range.mk
                             (Position.mk (Position.line (Range.start range))
                                startIdx)
                             (Position.mk (Position.line (Range.start range))
                                (startIdx + String.length (matched match_))))
                          newCall ]) ])
             end
         | None => JS.Ok None
         end
     end)
    (fun _error => JS.Ok None).

End Requests.

(** ** Compiler of the web page (setupExtended.js): the syntax analysis *)

Module SysYCompiler.
Import Regex.

Module ErrorType.
Definition SYNTAX : string := "syntax".
Definition SEMANTIC : string := "semantic".
End ErrorType.

Record CompileError : Type := mkCompileError {
  type : string;
  message : string;
  line : Z;
  column : Z;
  endLine : Z;
  endColumn : Z;
  code : string
}.

(** The constructor: an end that is zero gives way to the start. *)
Definition new_CompileError (type message : string)
  (line column endLine endColumn : Z) (code : string) : CompileError :=
  mkCompileError type message line column
    (if (endLine =? 0)%Z then line else endLine)
    (if (endColumn =? 0)%Z then (column + 1)%Z else endColumn)
    code.

Definition length_of (s : string) : Z := Z.of_nat (String.length s).

(** [line.indexOf(pat)] as a number *)
Definition index_of (s pat : string) : Z :=
  match JS.indexOf s pat with
  | Some i => Z.of_nat i
  | None => (-1)%Z
  end.

(** The warning of a statement without its semicolon. *)
Definition semicolon_warnings (i : Z) (line : string) : list CompileError :=
  if negb (JS.falsy line)
     && negb (JS.startsWith line "//")
     && negb (JS.endsWith line "{")
     && negb (JS.endsWith line "}")
     && negb (JS.endsWith line ";")
     && (0 <? length_of line)%Z
  then
    [ new_CompileError ErrorType.SYNTAX "语句可能缺少分号" (i + 1)
        (length_of line) (i + 1) (length_of line + 1) line ]
  else [].

(** The loop over the characters of a line, from the index [j] and the count
    [openBrackets]: the count at its end, and the index at which it was left
    by [break]. *)
Fixpoint scan_brackets (rest : string) (j : Z) (openBrackets : Z)
  : Z * option Z :=
  match rest with
  | EmptyString => (openBrackets, None)
  | String c rest' =>
      let openBrackets :=
        if Ascii.eqb c "(" then (openBrackets + 1)%Z
        else if Ascii.eqb c ")" then (openBrackets - 1)%Z
        else openBrackets in
      if (openBrackets <? 0)%Z then (openBrackets, Some j)
      else scan_brackets rest' (j + 1) openBrackets
  end.

(** The errors of the brackets of a line. *)
Definition bracket_errors (i : Z) (line : string) : list CompileError :=
  let '(openBrackets, left_at) := scan_brackets line 0 0 in
  match left_at with
  | Some j =>
      [ new_CompileError ErrorType.SYNTAX "括号不匹配，多余的右括号" (i + 1)
          (j + 1) (i + 1) (j + 2) line ]
  | None => []
  end
  ++
  if (0 <? openBrackets)%Z then
    [ new_CompileError ErrorType.SYNTAX "括号不匹配，缺少右括号" (i + 1)
        (length_of line) (i + 1) (length_of line + 1) line ]
  else [].

(** The pattern of an array with its initial values: a name (group 1), the
    size in digits between square brackets (group 2), [=], and between braces
    the characters other than the closing brace (group 3). *)
Definition ARRAY_INIT : regex :=
  seqs [Group 1 (Plus word); Star space; Char "["; Group 2 (Plus digit);
        Char "]"; Star space; Char "="; Star space; Char "{";
        Group 3 (Star (Class true [CChar "}"])); Char "}"].

(** The error of an array with more initial values than its size. *)
Definition array_errors (i : Z) (line : string) : list CompileError :=
  match exec ARRAY_INIT line with
  | None => []
  | Some arrayInitMatch =>
      let arrayName := default EmptyString (group arrayInitMatch 1) in
      match group arrayInitMatch 2 ≫= JS.parseInt with
      | None => []
      | Some size =>
          let initItems :=
            filter (fun s => (0 <? String.length s)%nat)
              (map JS.trim
                 (JS.split "," (default EmptyString (group arrayInitMatch 3)))) in
          if (size <? Z.of_nat (length initItems))%Z then
            [ new_CompileError ErrorType.SEMANTIC
                ("数组 " +:+ arrayName +:+ " 的初始化元素数量(" +:+
                 JS.string_of_nat (length initItems) +:+ ")超过了数组大小(" +:+
                 JS.string_of_Z size +:+ ")")
                (i + 1) (index_of line "[" + 1) (i + 1) (index_of line "]")
                line ]
          else []
      end
  end.

(** The [for] over the lines, from the index [i]: the errors and the
    warnings that it pushes. *)
Fixpoint analyse_lines (lines : list string) (i : Z)
  : list CompileError * list CompileError :=
  match lines with
  | [] => ([], [])
  | text :: rest =>
      let line := JS.trim text in
      let '(errors, warnings) := analyse_lines rest (i + 1) in
      (bracket_errors i line ++ array_errors i line ++ errors,
       semicolon_warnings i line ++ warnings)
  end.

(** [_performSyntaxAnalysis]: what it pushes onto [errors] and onto
    [warnings]. *)
Definition _performSyntaxAnalysis (code : string)
  : list CompileError * list CompileError :=
  analyse_lines (JS.split "010" code) 0.

End SysYCompiler.

(** * Properties *)

(** ** Error message provider *)

Section EnrichmentFacts.
Import JS ErrorMessageProvider.

Lemma falsy_empty (s : string) : falsy s = true <-> s = EmptyString.
Proof. unfold falsy. apply String.eqb_eq. Qed.

Lemma falsy_nonempty (s : string) : falsy s = false <-> s <> EmptyString.
Proof. unfold falsy. apply String.eqb_neq. Qed.

(** No key of the static table starts and ends with a double quote: on it the
    second loop compiles no pattern and finds nothing. *)
Lemma regex_pass_static (R : string -> string -> outcome bool) (msg : string) :
  regex_pass R msg ERROR_DETAILS = Ok None.
Proof. reflexivity. Qed.

(** The first loop finds the first entry whose key the message contains. *)
Lemma exact_pass_find (msg : string) (table : list (string * ErrorInfo)) :
  exact_pass msg table =
  option_map snd (List.find (fun entry => includes msg (fst entry)) table).
Proof.
  induction table as [|[key info] table IH]; simpl; [reflexivity|].
  destruct (includes msg key); [reflexivity|exact IH].
Qed.

(** Enrichment on the static table, in closed form. *)
Lemma getEnhancedMessage_static (msg : string) :
  getEnhancedMessage msg =
  Ok (if falsy msg then "未知错误"
      else match exact_pass msg ERROR_DETAILS with
           | Some errorInfo => enhanced msg errorInfo
           | None => msg
           end).
Proof.
  unfold getEnhancedMessage, getEnhancedMessage_in.
  destruct (falsy msg); [reflexivity|].
  destruct (exact_pass msg ERROR_DETAILS); [reflexivity|].
  rewrite regex_pass_static. reflexivity.
Qed.

Lemma getErrorCategory_static (msg : string) :
  getErrorCategory msg =
  Ok (if falsy msg then None
      else match exact_pass msg ERROR_DETAILS with
           | Some errorInfo => Some (category errorInfo)
           | None => Some OTHER
           end).
Proof.
  unfold getErrorCategory, getErrorCategory_in.
  destruct (falsy msg); [reflexivity|].
  destruct (exact_pass msg ERROR_DETAILS); [reflexivity|].
  rewrite regex_pass_static. reflexivity.
Qed.

(** The enriched text of a message. *)
Definition enriched (msg : string) : string :=
  if falsy msg then "未知错误"
  else match exact_pass msg ERROR_DETAILS with
       | Some errorInfo => enhanced msg errorInfo
       | None => msg
       end.

Lemma getSafeEnhancedMessage_static (msg : string) :
  getSafeEnhancedMessage msg = Ok (enriched msg).
Proof.
  unfold getSafeEnhancedMessage, getSafeEnhancedMessage_in.
  change (getEnhancedMessage_in RegExp_test ERROR_DETAILS msg)
    with (getEnhancedMessage msg).
  rewrite getEnhancedMessage_static. reflexivity.
Qed.

End EnrichmentFacts.

(** The lookup in the words of the specification: the first entry of the
    table whose key the message contains and, when there is none, the first
    entry whose key is a quoted pattern that matches the message. *)
Section EnrichmentSpecification.
Import JS ErrorMessageProvider.

Definition quoted_key (key : string) : bool :=
  startsWith key DQUOTE && endsWith key DQUOTE.

Definition pattern_of_key (key : string) : string :=
  substring key 1 (Z.of_nat (String.length key) - 1).

Definition pattern_matches (pattern msg : string) : bool :=
  match RegExp_test pattern msg with
  | Ok hit => hit
  | _ => false
  end.

Definition two_pass_lookup_in (matches : string -> string -> bool)
  (table : list (string * ErrorInfo)) (msg : string) : option ErrorInfo :=
  match List.find (fun entry => includes msg (fst entry)) table with
  | Some entry => Some (snd entry)
  | None =>
      option_map snd
        (List.find
           (fun entry =>
              quoted_key (fst entry)
              && matches (pattern_of_key (fst entry)) msg)
           table)
  end.

Definition two_pass_lookup : string -> option ErrorInfo :=
  two_pass_lookup_in pattern_matches ERROR_DETAILS.

Definition enrichment_spec (msg : string) : string :=
  match two_pass_lookup msg with
  | Some errorInfo => enhanced msg errorInfo
  | None => msg
  end.

Definition category_spec (msg : string) : ErrorCategory :=
  match two_pass_lookup msg with
  | Some errorInfo => category errorInfo
  | None => OTHER
  end.

(** With an engine that answers without raising, the second loop finds the
    first quoted key whose pattern matches. *)
Lemma regex_pass_find (matches : string -> string -> bool) msg table :
  regex_pass (fun pattern m => Ok (matches pattern m)) msg table =
  Ok (option_map snd
        (List.find
           (fun entry =>
              quoted_key (fst entry)
              && matches (pattern_of_key (fst entry)) msg)
           table)).
Proof.
  induction table as [|[key info] table IH]; [reflexivity|].
  cbn [regex_pass List.find fst]. fold (quoted_key key).
  fold (pattern_of_key key).
  destruct (quoted_key key); cbn [andb bind]; [|exact IH].
  destruct (matches (pattern_of_key key) msg); [reflexivity|exact IH].
Qed.

(** The two loops over any table, with an engine that answers without
    raising: what the lookup [two_pass_lookup_in] finds, after the test of the
    empty message. *)
Lemma two_loops_over_a_table (matches : string -> string -> bool)
  (table : list (string * ErrorInfo)) (msg : string) :
  let engine := fun pattern m => Ok (matches pattern m) in
  let hit := two_pass_lookup_in matches table msg in
  getEnhancedMessage_in engine table msg =
    Ok (if falsy msg then "未知错误"
        else match hit with
             | Some errorInfo => enhanced msg errorInfo
             | None => msg
             end)
  /\ getErrorCategory_in engine table msg =
    Ok (if falsy msg then None
        else Some match hit with
                  | Some errorInfo => category errorInfo
                  | None => OTHER
                  end).
Proof.
  intros engine hit.
  unfold getEnhancedMessage_in, getErrorCategory_in, hit,
    two_pass_lookup_in, engine.
  rewrite regex_pass_find, exact_pass_find.
  split; destruct (falsy msg); try reflexivity;
    destruct (List.find _ table) as [[key info]|]; try reflexivity;
    cbn [option_map bind];
    destruct (List.find _ table) as [[key info]|]; reflexivity.
Qed.

(** The key of the table that is written as a pattern, and the pattern that
    it writes: [数组], any characters, and the rest of the key. *)
Definition ARRAY_KEY : string := "数组.*初始化元素数量超过了数组大小".

Definition ARRAY_KEY_PATTERN : Regex.regex :=
  Regex.seqs [Regex.Str "数组"; Regex.Star Regex.Any;
              Regex.Str "初始化元素数量超过了数组大小"].

(** A key that holds a syntax character of patterns. *)
Definition pattern_key (key : string) : bool := negb (Regex.plain key).

Lemma pattern_keys_static :
  filter pattern_key (map fst ERROR_DETAILS) = [ARRAY_KEY].
Proof. reflexivity. Qed.

(** The first entry of the static table whose key the message contains. *)
Definition contained_key (msg : string) : option (string * ErrorInfo) :=
  List.find (fun entry => includes msg (fst entry)) ERROR_DETAILS.

(** C4, as amended.  A message that is not empty is looked up by containment
    first: the first entry of the static table whose key the message contains
    wins, whatever pattern the message matches besides, and the message is
    returned with the explanation and the suggestion of that entry appended;
    its category is that of the entry.  A message that contains no key and
    that the pattern key of the table does not match is returned unchanged,
    with the category OTHER.  (The message that contains no key and that the
    pattern key matches is left out.)  The empty message is answered before
    the passes: its enrichment is the fixed text, and it has no category. *)
Theorem enrichment_two_pass_lookup :
  (forall msg,
     falsy msg = false ->
     (forall key errorInfo,
        contained_key msg = Some (key, errorInfo) ->
        getEnhancedMessage msg = Ok (enhanced msg errorInfo)
        /\ getErrorCategory msg = Ok (Some (category errorInfo)))
     /\ (contained_key msg = None ->
         Regex.test ARRAY_KEY_PATTERN msg = false ->
         getEnhancedMessage msg = Ok msg
         /\ getErrorCategory msg = Ok (Some OTHER)))
  /\ (getEnhancedMessage EmptyString = Ok "未知错误"
      /\ getErrorCategory EmptyString = Ok None).
Proof.
  split.
  - intros msg Hmsg.
    rewrite getEnhancedMessage_static, getErrorCategory_static, Hmsg.
    rewrite exact_pass_find. fold (contained_key msg). split.
    + intros key errorInfo ->. split; reflexivity.
    + intros -> _. split; reflexivity.
  - split; reflexivity.
Qed.

(** A message that contains two keys gets the text of the first of the
    table; a message without a key that the pattern does not match stays. *)
Lemma enrichment_two_pass_lookup_witness :
  (falsy "使用了未定义的变量 'x'。" = false
   /\ exists key errorInfo,
        contained_key "使用了未定义的变量 'x'。" = Some (key, errorInfo)
        /\ getEnhancedMessage "使用了未定义的变量 'x'。"
           = Ok (enhanced "使用了未定义的变量 'x'。" errorInfo))
  /\ (falsy "parse error" = false
      /\ contained_key "parse error" = None
      /\ Regex.test ARRAY_KEY_PATTERN "parse error" = false
      /\ getEnhancedMessage "parse error" = Ok "parse error"
      /\ getErrorCategory "parse error" = Ok (Some OTHER)).
Proof.
  split.
  - split; [reflexivity|].
    destruct (contained_key "使用了未定义的变量 'x'。") as [[key errorInfo]|]
      eqn:Hkey; [|discriminate Hkey].
    exists key, errorInfo. split; [reflexivity|].
    apply (proj1 (proj1 enrichment_two_pass_lookup "使用了未定义的变量 'x'。"
                    eq_refl) key errorInfo Hkey).
  - split; [reflexivity|]. split; [reflexivity|]. split; [reflexivity|].
    apply (proj2 (proj1 enrichment_two_pass_lookup "parse error" eq_refl)
             eq_refl eq_refl).
Defined.

(** C4, as stated, fails on the empty message: no key matches it, yet its
    enrichment is not the message itself and its category is not OTHER. *)
Lemma enrichment_empty_message :
  two_pass_lookup EmptyString = None
  /\ getEnhancedMessage EmptyString <> Ok (enrichment_spec EmptyString)
  /\ getErrorCategory EmptyString <> Ok (Some (category_spec EmptyString)).
Proof.
  split; [reflexivity|]. split; intros H; vm_compute in H; discriminate H.
Qed.

(** The message of the array check is the one that the amended claim leaves
    out: it contains no key of the table, the pattern key matches it, and the
    second loop, which takes for patterns the keys between double quotes,
    does not compile that key: the message stays as it is, with the category
    OTHER. *)
Example array_message_not_enriched :
  contained_key "数组 arr 的初始化元素数量超过了数组大小。" = None
  /\ Regex.test ARRAY_KEY_PATTERN "数组 arr 的初始化元素数量超过了数组大小。" = true
  /\ getEnhancedMessage "数组 arr 的初始化元素数量超过了数组大小。"
    = Ok "数组 arr 的初始化元素数量超过了数组大小。"
  /\ getErrorCategory "数组 arr 的初始化元素数量超过了数组大小。" = Ok (Some OTHER).
Proof. repeat split; reflexivity. Qed.

(** C5.  The safe enrichment returns a text for every message and never
    raises, whatever the table and the regular expression engine; when the
    enrichment inside it raises, the result is the message, unchanged. *)
Theorem safe_enrichment_never_raises :
  (forall msg : string, exists text, getSafeEnhancedMessage msg = Ok text)
  /\ (forall R table msg e, getSafeEnhancedMessage_in R table msg <> Throw e)
  /\ (forall R table msg e,
        getEnhancedMessage_in R table msg = Throw e ->
        getSafeEnhancedMessage_in R table msg = Ok msg).
Proof.
  split; [|split].
  - intros msg. exists (enriched msg). apply getSafeEnhancedMessage_static.
  - intros R table msg e. unfold getSafeEnhancedMessage_in, try_catch.
    destruct (getEnhancedMessage_in R table msg); discriminate.
  - intros R table msg e H. unfold getSafeEnhancedMessage_in. rewrite H. simpl.
    unfold getEnhancedMessage_in in H. unfold or_else.
    destruct (falsy msg); [discriminate H|reflexivity].
Qed.

(** A table whose only key is a quoted pattern that opens a group and does
    not close it: the enrichment raises, the safe enrichment returns the
    message. *)
Lemma safe_enrichment_never_raises_witness :
  getEnhancedMessage_in RegExp_test
    [(DQUOTE +:+ "(" +:+ DQUOTE, mkErrorInfo "m" "s" OTHER)] "x"
    = Throw SyntaxError
  /\ getSafeEnhancedMessage_in RegExp_test
       [(DQUOTE +:+ "(" +:+ DQUOTE, mkErrorInfo "m" "s" OTHER)] "x"
     = Ok "x".
Proof.
  split; [reflexivity|].
  apply (proj2 (proj2 safe_enrichment_never_raises) RegExp_test
           [(DQUOTE +:+ "(" +:+ DQUOTE, mkErrorInfo "m" "s" OTHER)] "x"
           SyntaxError).
  reflexivity.
Defined.

End EnrichmentSpecification.

(** ** Validators *)

Section ValidatorFacts.
Import JS ErrorMessageProvider.

(** A reported error is one diagnostic, with the enriched message. *)
Lemma accept_error_one msg node property code data :
  accept_error msg node property code data =
  Ok [Diagnostic.mk "error" (enriched msg) node property (Some code) data].
Proof.
  unfold accept_error. rewrite getSafeEnhancedMessage_static. reflexivity.
Qed.


Lemma and_then_Ok (ds1 ds2 : list Diagnostic.t) :
  and_then (Ok ds1) (Ok ds2) = Ok (ds1 ++ ds2).
Proof. reflexivity. Qed.

(** Induction over statements, through the items of blocks. *)
Lemma Stmt_nested_ind (P : Stmt -> Prop) :
  P Stmtbreak ->
  P Stmtcontinue ->
  (forall tobereturn, P (Stmtreturn tobereturn)) ->
  (forall whilestmt, P whilestmt -> P (Stmtwhile whilestmt)) ->
  (forall ifstmt elsestmt,
     P ifstmt ->
     match elsestmt with Some s => P s | None => True end ->
     P (Stmtelif ifstmt elsestmt)) ->
  (forall blockItems,
     Forall (fun item => match BlockItem.blockStmt item with
                         | Some s => P s
                         | None => True
                         end) blockItems ->
     P (Block blockItems)) ->
  (forall type, P (Stmtother type)) ->
  forall s, P s.
Proof.
  intros Hbreak Hcontinue Hreturn Hwhile Helif Hblock Hother.
  fix rec 1. intros [ | | tobereturn | whilestmt | ifstmt elsestmt | items | type].
  - exact Hbreak.
  - exact Hcontinue.
  - apply Hreturn.
  - apply Hwhile, rec.
  - apply Helif; [apply rec|]. destruct elsestmt as [s|]; [apply rec|exact I].
  - apply Hblock.
    revert items. fix items_rec 1. intros [|[d [s|]] items].
    + constructor.
    + constructor; [apply rec|apply items_rec].
    + constructor; [exact I|apply items_rec].
  - apply Hother.
Qed.

(** The work of the walk on one item of a block. *)
Definition item_check (blockStmt : option Stmt) (inLoop : bool) : accepted :=
  match blockStmt with
  | Some stmt =>
      match stmt with
      | Stmtbreak =>
          if negb inLoop then FuncValidator.invalid_break stmt else Ok []
      | Stmtcontinue =>
          if negb inLoop then FuncValidator.invalid_continue stmt else Ok []
      | Stmtwhile whilestmt =>
          FuncValidator.checkStatementsInBlock whilestmt true
      | Stmtelif ifstmt elsestmt =>
          and_then
            (FuncValidator.checkStatementsInBlock ifstmt inLoop)
            match elsestmt with
            | Some elsestmt' =>
                FuncValidator.checkStatementsInBlock elsestmt' inLoop
            | None => Ok []
            end
      | Block _ => FuncValidator.checkStatementsInBlock stmt inLoop
      | Stmtreturn _ | Stmtother _ => Ok []
      end
  | None => Ok []
  end.

Lemma checkStatementsInBlock_cons d blockStmt rest inLoop :
  FuncValidator.checkStatementsInBlock
    (Block (BlockItem.mk d blockStmt :: rest)) inLoop =
  and_then (item_check blockStmt inLoop)
    (FuncValidator.checkStatementsInBlock (Block rest) inLoop).
Proof. destruct blockStmt as [[]|]; reflexivity. Qed.

Lemma checkStatementsInBlock_nil inLoop :
  FuncValidator.checkStatementsInBlock (Block []) inLoop = Ok [].
Proof. reflexivity. Qed.

(** Inside a loop the walk reports nothing, however deep it goes: neither
    on a node nor on a statement met as an item. *)
Lemma in_loop_silent (stmt : Stmt) :
  FuncValidator.checkStatementsInBlock stmt true = Ok []
  /\ item_check (Some stmt) true = Ok [].
Proof.
  induction stmt as [ | | t | w [IHw _] | i e [IHi _] IHe | items IH | t ]
    using Stmt_nested_ind; try (split; reflexivity).
  - split; [reflexivity|exact IHw].
  - split; [reflexivity|]. simpl. rewrite IHi.
    destruct e as [e'|]; [|reflexivity]. destruct IHe as [-> _]. reflexivity.
  - assert (H : FuncValidator.checkStatementsInBlock (Block items) true = Ok []).
    { induction IH as [|[d blockStmt] items Hitem _ IHitems]; [reflexivity|].
      rewrite checkStatementsInBlock_cons, IHitems.
      destruct blockStmt as [stmt|]; [|reflexivity].
      cbn [BlockItem.blockStmt] in Hitem. destruct Hitem as [_ ->].
      reflexivity. }
    split; exact H.
Qed.

Lemma checkStatementsInBlock_in_loop (block : Stmt) :
  FuncValidator.checkStatementsInBlock block true = Ok [].
Proof. apply in_loop_silent. Qed.


(** The diagnostics of a [break] and of a [continue] outside a loop. *)
Definition break_diagnostic : Diagnostic.t :=
  Diagnostic.mk "error" "'break' 语句只能在循环中使用。" (NStmt Stmtbreak) None
    (Some ERROR_CODES.INVALID_BREAK_CONTINUE)
    [ ("explanation", VString "break语句只能出现在while循环中");
      ("suggestion", VString "移除break语句或将其放在循环内");
      ("category", VCategory CONTROL) ].



(** A [break] as the only statement of a function reports one diagnostic;
    the same statement as the body block of a [while] reports none. *)
Example break_outside_and_inside_while :
  FuncValidator.checkBreakContinueInNonLoopBlocks
    (FuncDef.mk "void" "f" [] (Block [BlockItem.mk None (Some Stmtbreak)]))
    = Ok [break_diagnostic]
  /\ FuncValidator.checkBreakContinueInNonLoopBlocks
       (FuncDef.mk "void" "f" []
          (Block [BlockItem.mk None
                    (Some (Stmtwhile
                             (Block [BlockItem.mk None (Some Stmtbreak)])))]))
     = Ok [].
Proof. split; reflexivity. Qed.

(** In the other copy of the validator the check reports nothing at all. *)
Remark disabled_check_is_silent (funcDef : FuncDef.t) :
  FuncValidator_disabled.checkBreakContinueInNonLoopBlocks funcDef = Ok [].
Proof. reflexivity. Qed.

(** The statement list of a function, and the return statements that are
    items of that list, each with its expression. *)
Definition top_level_items (func : FuncDef.t) : list (BlockItem.t Stmt) :=
  default [] (blockItems_of (FuncDef.block func)).

Definition return_of (blockItem : BlockItem.t Stmt) : option (option Exp.t) :=
  match BlockItem.blockStmt blockItem with
  | Some (Stmtreturn tobereturn) => Some tobereturn
  | _ => None
  end.

Definition top_level_returns (blockItems : list (BlockItem.t Stmt))
  : list (option Exp.t) :=
  omap return_of blockItems.

Definition missing_return_diagnostic (func : FuncDef.t) : Diagnostic.t :=
  let returnType := FuncDef.functype func in
  Diagnostic.mk "error"
    (enriched ("有返回值: " +:+ returnType +:+ " 的函数缺少 return 语句。"))
    (NFuncDef func) (Some "functype") (Some ERROR_CODES.MISSING_RETURN)
    [ ("explanation", VString "有返回值的函数必须包含return语句");
      ("suggestion",
       VString ("添加 'return <" +:+ returnType +:+ "类型的值>;' 语句"));
      ("category", VCategory FUNCTION);
      ("returnType", VString returnType);
      ("functionName", VString (FuncDef.name func)) ].

Definition empty_return_diagnostic (func : FuncDef.t) : Diagnostic.t :=
  let returnType := FuncDef.functype func in
  Diagnostic.mk "error"
    (enriched ("有返回值: " +:+ returnType +:+ " 的函数不应返回为空。"))
    (NStmt (FuncDef.block func)) None (Some ERROR_CODES.EMPTY_RETURN)
    [ ("explanation", VString "有返回值的函数必须在return语句中提供一个值");
      ("suggestion",
       VString ("将 'return;' 改为 'return <" +:+ returnType +:+ "类型的值>;'"));
      ("category", VCategory FUNCTION);
      ("returnType", VString returnType);
      ("functionName", VString (FuncDef.name func)) ].

Definition void_return_value_diagnostic (func : FuncDef.t) : Diagnostic.t :=
  Diagnostic.mk "error" (enriched "void 函数不应存在非空返回值。")
    (NStmt (FuncDef.block func)) None (Some ERROR_CODES.VOID_RETURN_VALUE)
    [ ("explanation", VString "void类型的函数不应该有返回值");
      ("suggestion", VString "移除return语句中的表达式或使用'return;'");
      ("category", VCategory FUNCTION);
      ("functionName", VString (FuncDef.name func)) ].

Lemma top_level_returns_cons blockItem blockItems :
  top_level_returns (blockItem :: blockItems) =
  match return_of blockItem with
  | Some tobereturn => tobereturn :: top_level_returns blockItems
  | None => top_level_returns blockItems
  end.
Proof. reflexivity. Qed.

(** The scan keeps the last return statement among the items. *)
Lemma scan_returns_last blockItems state :
  FuncValidator.scan_returns blockItems state =
  match last (top_level_returns blockItems) with
  | Some (Some e) => (true, FuncValidator.Expression e)
  | Some None => (true, FuncValidator.Undefined)
  | None => state
  end.
Proof.
  revert state.
  induction blockItems as [|[d blockStmt] blockItems IH]; intros state;
    [reflexivity|].
  rewrite top_level_returns_cons.
  destruct blockStmt as [[ | | tobereturn | | | | ]|];
    cbn [FuncValidator.scan_returns return_of BlockItem.blockStmt];
    rewrite IH; try reflexivity.
  rewrite last_cons.
  destruct (last (top_level_returns blockItems)) as [[e|]|];
    destruct tobereturn; reflexivity.
Qed.

(** C6.  The check of the return shape looks at the items of the
    statement list of the function only, and among them the last return
    statement decides.  A function that is not void reports MISSING_RETURN
    when no item is a return statement, and EMPTY_RETURN when the return
    statement has no expression; a void function reports VOID_RETURN_VALUE
    when the return statement has an expression; nothing else is reported.  A
    return statement inside an [if] or a [while] is not an item of the list
    and does not count. *)
Theorem return_shape (func : FuncDef.t) :
  FuncValidator.checkFunctionReturnType func =
  let returns := top_level_returns (top_level_items func) in
  if String.eqb (FuncDef.functype func) "void" then
    match last returns with
    | Some (Some _) => Ok [void_return_value_diagnostic func]
    | _ => Ok []
    end
  else
    match last returns with
    | None => Ok [missing_return_diagnostic func]
    | Some None => Ok [empty_return_diagnostic func]
    | Some (Some _) => Ok []
    end.
Proof.
  unfold FuncValidator.checkFunctionReturnType, top_level_items.
  assert (Hscan :
    match blockItems_of (FuncDef.block func) with
    | Some blockItems =>
        FuncValidator.scan_returns blockItems (false, FuncValidator.Null)
    | None => (false, FuncValidator.Null)
    end =
    match last (top_level_returns
                  (default [] (blockItems_of (FuncDef.block func)))) with
    | Some (Some e) => (true, FuncValidator.Expression e)
    | Some None => (true, FuncValidator.Undefined)
    | None => (false, FuncValidator.Null)
    end).
  { destruct (blockItems_of (FuncDef.block func)); simpl;
      [apply scan_returns_last|reflexivity]. }
  rewrite Hscan. clear Hscan. cbv zeta.
  destruct (last _) as [[e|]|];
    destruct (String.eqb (FuncDef.functype func) "void"); simpl;
    try reflexivity; rewrite accept_error_one; reflexivity.
Qed.

(** A function that is not void and returns only inside an [if] and inside a
    [while]: MISSING_RETURN. *)
Example nested_returns_do_not_count :
  let one := Some (Exp.mk (Some "1")) in
  let body :=
    Block [ BlockItem.mk None
              (Some (Stmtelif
                       (Block [BlockItem.mk None (Some (Stmtreturn one))])
                       None));
            BlockItem.mk None
              (Some (Stmtwhile
                       (Block [BlockItem.mk None (Some (Stmtreturn one))]))) ] in
  let func := FuncDef.mk "int" "f" [] body in
  FuncValidator.checkFunctionReturnType func =
  Ok [missing_return_diagnostic func].
Proof. reflexivity. Qed.








End ValidatorFacts.

(** ** Array size overflow: from the check to the quick fix *)

Section ArraySizeOverflow.
Import JS ErrorMessageProvider SysyQuickFixProvider.

(** The protocol diagnostic that the framework makes of a reported one; the
    range is that of the concrete syntax of the node or of its property. *)
Definition toDiagnostic (range : Range.t) (d : Diagnostic.t) : LspDiagnostic.t :=
  LspDiagnostic.mk range (Diagnostic.message d)
    (option_map CodeString (Diagnostic.code d)).

Definition array_overflow_diagnostic (arr : VarDef.t)
  (declaredSize : Z) (actualSize : nat) : Diagnostic.t :=
  Diagnostic.mk "error"
    (enriched ("数组 " +:+ VarDef.name arr +:+ " 的初始化元素数量超过了数组大小。"))
    (NDef (DVar arr)) (Some "Init") (Some ERROR_CODES.ARRAY_SIZE_OVERFLOW)
    [ ("explanation", VString "数组元素数量超过了声明的大小");
      ("suggestion", VString "增大数组大小或减少初始化元素的数量");
      ("category", VCategory ARRAY);
      ("arrayName", VString (VarDef.name arr));
      ("declaredSize", VNumber declaredSize);
      ("actualSize", VNumber (Z.of_nat actualSize)) ].

(** [int arr[3] = {1,2,3,4,5};]: the definition, the document, and the range
    of the initializer in it. *)
Definition literal (text : string) : InitVal.t :=
  InitVal.mk [Exp.mk (Some text)] [].

Definition arr_3_of_5 : VarDef.t :=
  VarDef.mk "arr" [ConstExp.mk (Some "3") (Some "3")]
    [InitVal.mk []
       [literal "1"; literal "2"; literal "3"; literal "4"; literal "5"]]
    (Some (Container.mk (Some "int") None))
    (Some "int arr[3] = {1,2,3,4,5};") (Some "int arr[3] = {1,2,3,4,5};").




(** The same declaration inside a function: the line keeps its indentation
    and its end of line. *)
Example array_fix_in_function :
  let document :=
    TextDocument.mk "file:///main.sy"
      ("int main() {" +:+ LF +:+ "    int arr[3] = {1, 2, 3, 4, 5};" +:+ LF +:+
       "    return arr[0];" +:+ LF +:+ "}" +:+ LF) in
  let diagnostic :=
    toDiagnostic (Range.mk (Position.mk 1 17) (Position.mk 1 32))
      (array_overflow_diagnostic arr_3_of_5 3 5) in
  createArraySizeOverflowFix diagnostic document =
  Ok (Some
        (edit_action "将数组 'arr' 的大小从 3 增大到 5" diagnostic document
           (Range.mk (Position.mk 1 0) (Position.mk 2 0))
           ("    int arr[5] = {1, 2, 3, 4, 5};" +:+ LF))).
Proof. vm_compute. reflexivity. Qed.

End ArraySizeOverflow.

(** ** Validation twice *)

Section Idempotence.
Import JS.

(** A check whose diagnostics do not depend on the store it starts from. *)
Definition store_independent (check : stateful) : Prop :=
  forall h h', fst (check h) = fst (check h').

Lemma lift_independent (check : accepted) : store_independent (lift check).
Proof. intros h h'. reflexivity. Qed.

(** The loops over names, as functions of the set of the names seen. *)
Fixpoint unique_functions (seen : gset string) (functions : list FuncDef.t)
  : accepted :=
  match functions with
  | [] => Ok []
  | func :: rest =>
      if bool_decide (FuncDef.name func ∈ seen) then
        match FuncValidator.duplicate_function func with
        | Ok ds1 =>
            let* ds2 := unique_functions seen rest in Ok (ds1 ++ ds2)
        | other => other
        end
      else unique_functions ({[FuncDef.name func]} ∪ seen) rest
  end.

Fixpoint unique_defs (seen : gset string) (defs : list Def) : accepted :=
  match defs with
  | [] => Ok []
  | d :: rest =>
      if bool_decide (Def_name d ∈ seen) then
        match DeclValidator.duplicate_declaration d with
        | Ok ds1 =>
            let* ds2 := unique_defs ({[Def_name d]} ∪ seen) rest in
            Ok (ds1 ++ ds2)
        | other => other
        end
      else unique_defs ({[Def_name d]} ∪ seen) rest
  end.

Lemma Store_has_lookup (h : Store.t) set seen x :
  h !! set = Some seen -> Store.has h set x = bool_decide (x ∈ seen).
Proof. intros H. unfold Store.has. rewrite H. reflexivity. Qed.

Lemma Store_add_lookup (h : Store.t) set seen x :
  h !! set = Some seen -> Store.add h set x !! set = Some ({[x]} ∪ seen).
Proof.
  intros H. unfold Store.add. rewrite H.
  apply list_lookup_insert_eq. eapply lookup_lt_Some, H.
Qed.

Lemma Store_new_Set_lookup (h : Store.t) :
  snd (Store.new_Set h) !! fst (Store.new_Set h) = Some ∅.
Proof.
  unfold Store.new_Set. cbn [fst snd].
  rewrite lookup_app_r by lia. rewrite Nat.sub_diag. reflexivity.
Qed.

Lemma then_loop_fst first rest h :
  fst (then_loop first rest h) =
  match first with
  | Ok ds1 => let* ds2 := fst (rest h) in Ok (ds1 ++ ds2)
  | other => other
  end.
Proof.
  unfold then_loop. destruct first; try reflexivity.
  destruct (rest h). reflexivity.
Qed.

Lemma checkUniqueFuncName_for_of_pure functions :
  forall (h : Store.t) funcNames seen,
    h !! funcNames = Some seen ->
    fst (FuncValidator.checkUniqueFuncName_for_of funcNames functions h)
    = unique_functions seen functions.
Proof.
  induction functions as [|func rest IH]; intros h funcNames seen Hseen;
    [reflexivity|].
  cbn [FuncValidator.checkUniqueFuncName_for_of unique_functions].
  rewrite (Store_has_lookup _ _ _ _ Hseen).
  destruct (bool_decide (FuncDef.name func ∈ seen)).
  - rewrite then_loop_fst. rewrite (IH _ _ _ Hseen).
    destruct (FuncValidator.duplicate_function func); reflexivity.
  - apply IH. apply Store_add_lookup, Hseen.
Qed.

Lemma checkUniqueDef_forEach_pure defs :
  forall (h : Store.t) reported seen,
    h !! reported = Some seen ->
    fst (DeclValidator.checkUniqueDef_forEach reported defs h)
    = unique_defs seen defs.
Proof.
  induction defs as [|d rest IH]; intros h reported seen Hseen;
    [reflexivity|].
  cbn [DeclValidator.checkUniqueDef_forEach unique_defs].
  rewrite (Store_has_lookup _ _ _ _ Hseen).
  destruct (bool_decide (Def_name d ∈ seen)).
  - rewrite then_loop_fst.
    rewrite (IH _ _ _ (Store_add_lookup _ _ _ _ Hseen)).
    destruct (DeclValidator.duplicate_declaration d); reflexivity.
  - apply IH. apply Store_add_lookup, Hseen.
Qed.

(** The set of a call is new: what the call reports is fixed by the node. *)
Lemma checkUniqueFuncName_pure compUnit (h : Store.t) :
  fst (FuncValidator.checkUniqueFuncName compUnit h)
  = unique_functions ∅ (CompUnit.functions compUnit).
Proof.
  unfold FuncValidator.checkUniqueFuncName.
  pose proof (Store_new_Set_lookup h) as Hnew.
  destruct (Store.new_Set h) as [funcNames h'].
  apply checkUniqueFuncName_for_of_pure, Hnew.
Qed.

Lemma checkUniqueDef_pure constDecl (h : Store.t) :
  fst (DeclValidator.checkUniqueDef constDecl h)
  = unique_defs ∅ (Decl.defs constDecl).
Proof.
  unfold DeclValidator.checkUniqueDef.
  pose proof (Store_new_Set_lookup h) as Hnew.
  destruct (Store.new_Set h) as [reported h'].
  apply checkUniqueDef_forEach_pure, Hnew.
Qed.

Lemma checks_independent (node : AstNode) :
  Forall store_independent (Validator.checks node).
Proof.
  destruct node as [n|n|n|[n|n]|n|n|n|n|n|type];
    cbn [Validator.checks]; repeat constructor;
    try apply lift_independent.
  - intros h h'. rewrite !checkUniqueFuncName_pure. reflexivity.
  - intros h h'. rewrite !checkUniqueDef_pure. reflexivity.
Qed.

Lemma run_check_fst node check h :
  fst (Validator.run_check node check h) =
  match fst (check h) with
  | Throw _ => Ok [Validator.validation_exception node]
  | result => result
  end.
Proof.
  unfold Validator.run_check. destruct (check h) as [[ds|e|] h']; reflexivity.
Qed.

Lemma run_checks_independent node checks :
  Forall store_independent checks ->
  store_independent (Validator.run_checks node checks).
Proof.
  induction 1 as [|check checks Hcheck _ IH]; intros h h'; [reflexivity|].
  cbn [Validator.run_checks].
  pose proof (run_check_fst node check h) as H1.
  pose proof (run_check_fst node check h') as H2.
  destruct (Validator.run_check node check h) as [first h1].
  destruct (Validator.run_check node check h') as [first' h1'].
  pose proof (IH h1 h1') as Hrest.
  destruct (Validator.run_checks node checks h1) as [later h2].
  destruct (Validator.run_checks node checks h1') as [later' h2'].
  cbn [fst] in *. rewrite H1, H2, (Hcheck h h'), Hrest. reflexivity.
Qed.

(** C9.  What a validation pass reports does not depend on the store it
    starts from: the sets of names are allocated by each call, and the sets
    that earlier calls left in the store are not read.  So validation run
    twice on the same nodes, the second run starting from the store that the
    first one left, reports the same diagnostics: the same list, in the same
    order, each with the same code, message, node and property. *)
Theorem validation_twice (nodes : list AstNode) :
  (forall h h' : Store.t,
     fst (Validator.validate nodes h) = fst (Validator.validate nodes h'))
  /\ (forall h : Store.t,
       fst (Validator.validate nodes (snd (Validator.validate nodes h)))
       = fst (Validator.validate nodes h)).
Proof.
  assert (Hany : store_independent (Validator.validate nodes)).
  { induction nodes as [|node nodes IH]; intros h h'; [reflexivity|].
    cbn [Validator.validate].
    pose proof (run_checks_independent node _ (checks_independent node) h h')
      as Hnode.
    destruct (Validator.run_checks node (Validator.checks node) h)
      as [first h1].
    destruct (Validator.run_checks node (Validator.checks node) h')
      as [first' h1'].
    pose proof (IH h1 h1') as Hrest.
    destruct (Validator.validate nodes h1) as [later h2].
    destruct (Validator.validate nodes h1') as [later' h2'].
    cbn [fst] in *. rewrite Hnode, Hrest. reflexivity. }
  split; [exact Hany|]. intros h. apply Hany.
Qed.

(** A declaration group with the names a, a, b: one diagnostic, on the
    second a, in the first run and in the second. *)
Example duplicate_declaration_twice :
  let def name := DConst (ConstDef.mk name None) in
  let nodes := [NDecl (Decl.mk [def "a"; def "a"; def "b"])] in
  let first := Validator.validate nodes [] in
  let second := Validator.validate nodes (snd first) in
  option_map (map Diagnostic.code)
    (match fst first with Ok ds => Some ds | _ => None end)
    = Some [Some ERROR_CODES.DUPLICATE_DECLARATION]
  /\ fst second = fst first
  /\ length (snd first) = 1 /\ length (snd second) = 2.
Proof. vm_compute. repeat split; reflexivity. Qed.

End Idempotence.

(** ** Hover: the type of a variable definition *)

Section HoverType.
Import SysyHoverProvider.

(** The steps of the resolution, each giving a type or nothing. *)
Definition step_annotation (node : VarDef.t) : option string :=
  VarDef.container node ≫= Container.btype.

Definition step_surrounding_text (node : VarDef.t) : option string :=
  VarDef.container node ≫= fun _ =>
  VarDef.cstParentText node ≫= fun text =>
  if JS.includes text "int " then Some "int"
  else if JS.includes text "float " then Some "float"
  else None.

Definition initializer_text (node : VarDef.t) : option string :=
  head (VarDef.Init node) ≫= fun init0 =>
  head (InitVal.singleInit init0) ≫= Exp.cstText.

Definition step_initializer (node : VarDef.t) : option string :=
  initializer_text node ≫= fun text =>
  if Regex.test INTEGER_TEXT text then Some "int"
  else if Regex.test DECIMAL_TEXT text then Some "float"
  else None.

Definition step_name (node : VarDef.t) : option string :=
  if is_special_name (VarDef.name node) then Some "int" else None.

(** The first step that gives a type. *)
Fixpoint first_success (steps : list (option string)) : option string :=
  match steps with
  | [] => None
  | Some type :: _ => Some type
  | None :: rest => first_success rest
  end.

(** The chain as C8 states it: the names come last. *)
Definition claimed_type (node : VarDef.t) : string :=
  default UNKNOWN_TYPE
    (first_success [ step_annotation node; step_surrounding_text node;
                     step_initializer node; step_name node ]).

Lemma test_empty_integer : Regex.test INTEGER_TEXT EmptyString = false.
Proof. reflexivity. Qed.

Lemma test_empty_decimal : Regex.test DECIMAL_TEXT EmptyString = false.
Proof. reflexivity. Qed.

(** The step of the initializer, as the code writes it. *)
Lemma initializer_step (node : VarDef.t) :
  match VarDef.Init node with
  | init0 :: _ =>
      match InitVal.singleInit init0 with
      | single0 :: _ =>
          match Exp.cstText single0 with
          | Some initText =>
              if JS.falsy initText then UNKNOWN_TYPE
              else if Regex.test INTEGER_TEXT initText then "int"
              else if Regex.test DECIMAL_TEXT initText then "float"
              else UNKNOWN_TYPE
          | None => UNKNOWN_TYPE
          end
      | [] => UNKNOWN_TYPE
      end
  | [] => UNKNOWN_TYPE
  end = default UNKNOWN_TYPE (step_initializer node).
Proof.
  unfold step_initializer, initializer_text.
  destruct (VarDef.Init node) as [|init0 inits]; [reflexivity|].
  cbn [head mbind option_bind].
  destruct (InitVal.singleInit init0) as [|single0 singles]; [reflexivity|].
  cbn [head mbind option_bind].
  destruct (Exp.cstText single0) as [initText|]; [|reflexivity].
  cbn [mbind option_bind].
  destruct (JS.falsy initText) eqn:Hfalsy.
  - apply falsy_empty in Hfalsy. subst initText. reflexivity.
  - destruct (Regex.test INTEGER_TEXT initText); [reflexivity|].
    destruct (Regex.test DECIMAL_TEXT initText); reflexivity.
Qed.

(** The case in which the container gave no type. *)
Ltac unknown_step H :=
  change (String.eqb UNKNOWN_TYPE UNKNOWN_TYPE) with true; cbv iota;
  rewrite H; destruct (step_initializer _); reflexivity.

(** C8, as amended.  The displayed type of a variable definition is [int]
    for the names decimal, octal and hex, whatever the earlier steps found;
    for every other name it is the result of the first step that succeeds
    among: the type annotation of the containing declaration, the type read
    from the surrounding text, the shape of the text of the initializer
    (integer-looking gives int, decimal-looking gives float); and the unknown
    type when none succeeds. *)
Theorem hover_type_priority (node : VarDef.t) :
  step_annotation node <> Some UNKNOWN_TYPE ->
  varDefType node =
  match step_name node with
  | Some type => type
  | None =>
      default UNKNOWN_TYPE
        (first_success [ step_annotation node; step_surrounding_text node;
                         step_initializer node ])
  end.
Proof.
  intros Hannotation.
  pose proof (initializer_step node) as Hinit.
  unfold varDefType, step_name.
  destruct (is_special_name (VarDef.name node)); [reflexivity|].
  unfold step_annotation, step_surrounding_text in *.
  destruct (VarDef.container node) as [container|]; cbn [mbind option_bind] in *.
  - destruct (Container.btype container) as [btype|].
    + cbn [first_success default].
      destruct (String.eqb btype UNKNOWN_TYPE) eqn:Heq; [|reflexivity].
      apply String.eqb_eq in Heq. subst btype. contradiction.
    + unfold type_of_parent_text.
      destruct (VarDef.cstParentText node) as [text|]; cbn [mbind option_bind].
      * destruct (JS.falsy text) eqn:Hfalsy.
        { apply falsy_empty in Hfalsy. subst text.
          change (JS.includes EmptyString "int ") with false.
          change (JS.includes EmptyString "float ") with false.
          unknown_step Hinit. }
        destruct (JS.includes text "int "); [reflexivity|].
        destruct (JS.includes text "float "); [reflexivity|].
        unknown_step Hinit.
      * unknown_step Hinit.
  - unknown_step Hinit.
Qed.

(** [float hex = 1.5;]: the annotation says float, the hover says int. *)
Definition float_hex : VarDef.t :=
  VarDef.mk "hex" [] [InitVal.mk [Exp.mk (Some "1.5")] []]
    (Some (Container.mk (Some "float") None))
    (Some "float hex = 1.5;") (Some "float hex = 1.5;").

Lemma hover_type_priority_witness : varDefType float_hex = "int".
Proof.
  rewrite (hover_type_priority float_hex); [reflexivity|].
  vm_compute. discriminate.
Defined.

(** C8, as stated, fails on that definition: the first step succeeds with
    float, and the displayed type is int. *)
Lemma hover_names_override_annotation :
  step_annotation float_hex = Some "float"
  /\ claimed_type float_hex = "float"
  /\ varDefType float_hex = "int"
  /\ varDefType float_hex <> claimed_type float_hex
  /\ buildVarDefHoverContent float_hex =
     "**(变量) hex: int**" +:+ JS.LF +:+ JS.LF +:+ "变量定义" +:+ JS.LF +:+ JS.LF
     +:+ "类型: int" +:+ JS.LF +:+ JS.LF +:+ "已初始化".
Proof.
  refine (conj _ (conj _ (conj _ (conj _ _)))); try reflexivity.
  vm_compute. discriminate.
Qed.

(** The hover of a reference to a variable definition applies the same names
    after its own steps. *)
Remark reference_hover_names_override (ref : VarDef.t) :
  is_special_name (VarDef.name ref) = true -> variableType ref = "int".
Proof. intros H. unfold variableType. rewrite H. reflexivity. Qed.

End HoverType.

(** ** Quick-fix engine *)

Section EngineFacts.
Import JS SysyQuickFixProvider.

(** The loop over a batch that is cut in two. *)
Lemma for_each_diagnostic_app this before after document codeActions :
  for_each_diagnostic this (before ++ after) document codeActions =
  match for_each_diagnostic this before document codeActions with
  | (Ok _, codeActions') => for_each_diagnostic this after document codeActions'
  | other => other
  end.
Proof.
  revert codeActions.
  induction before as [|diagnostic before IH]; intros codeActions;
    [reflexivity|].
  cbn [app for_each_diagnostic]. unfold step.
  destruct (createCodeActionsForDiagnostic this diagnostic document codeActions)
    as [[[]|e|] codeActions']; [apply IH|reflexivity|reflexivity].
Qed.

(** C1, as amended.  When the work on one diagnostic of the batch raises,
    the exception is caught by the handler of the request: the request
    answers with the actions pushed up to the raise, and the diagnostics
    after it in the batch are not processed. *)
Theorem resolver_exception_ends_batch
  this params document before diagnostic after pushed e codeActions :
  getOrCreateDocument this (CodeActionParams.uri params) = Ok document ->
  CodeActionParams.diagnostics params = before ++ diagnostic :: after ->
  for_each_diagnostic this before document [] = (Ok tt, pushed) ->
  createCodeActionsForDiagnostic this diagnostic document pushed
    = (Throw e, codeActions) ->
  getCodeActions this params = Ok codeActions.
Proof.
  intros Hdocument Hbatch Hbefore Hraise.
  unfold getCodeActions, getCodeActions_body.
  unfold step at 1. unfold call at 1. rewrite Hdocument.
  unfold step at 1.
  rewrite Hbatch, for_each_diagnostic_app, Hbefore.
  cbn [for_each_diagnostic]. unfold step at 1. rewrite Hraise. reflexivity.
Qed.

(** Two functions on two lines, with a stray closing brace on the first;
    a missing return reported on the first line and a [break] outside a loop
    on the second. *)
Definition stray_brace_document : TextDocument.t :=
  TextDocument.mk "file:///f.sy"
    ("int f() { int x = 1; } }" +:+ LF +:+ "void g() { break; }").

Definition missing_return_on_line_0 : LspDiagnostic.t :=
  LspDiagnostic.mk (Range.mk (Position.mk 0 0) (Position.mk 0 3))
    "有返回值: int 的函数缺少 return 语句。"
    (Some (CodeString ERROR_CODES.MISSING_RETURN)).

Definition break_on_line_1 : LspDiagnostic.t :=
  LspDiagnostic.mk (Range.mk (Position.mk 1 11) (Position.mk 1 17))
    "'break' 语句只能在循环中使用。"
    (Some (CodeString ERROR_CODES.INVALID_BREAK_CONTINUE)).

Definition stray_brace_provider : provider :=
  new_SysyQuickFixProvider (fun _ => Ok stray_brace_document).

Definition no_selection : Range.t :=
  Range.mk (Position.mk 0 0) (Position.mk 0 0).

Definition add_return_action : CodeAction.t :=
  command_action "添加 return 语句" missing_return_on_line_0
    (Command.create "添加 return 语句" "sysy.addReturnStatement"
       [ AString "file:///f.sy";
         ARange (Range.mk (Position.mk 0 0) (Position.mk 0 3));
         AString "int" ]).

Definition remove_break_action : CodeAction.t :=
  edit_action "删除无效的 break/continue 语句" break_on_line_1
    stray_brace_document (Range.mk (Position.mk 1 0) (Position.mk 2 0))
    ("// 已删除无效的 break/continue 语句" +:+ LF).

(** The additional fix of the missing return finds the closing brace on the
    first line and raises; the batch ends there. *)
Lemma resolver_exception_ends_batch_witness :
  getCodeActions stray_brace_provider
    (CodeActionParams.mk "file:///f.sy" no_selection
       [break_on_line_1; missing_return_on_line_0; break_on_line_1])
  = Ok [remove_break_action; add_return_action].
Proof.
  apply (resolver_exception_ends_batch stray_brace_provider
           (CodeActionParams.mk "file:///f.sy" no_selection
              [break_on_line_1; missing_return_on_line_0; break_on_line_1])
           stray_brace_document [break_on_line_1] missing_return_on_line_0
           [break_on_line_1] [remove_break_action] TypeError).
  - reflexivity.
  - reflexivity.
  - vm_compute. reflexivity.
  - vm_compute. reflexivity.
Defined.

(** C1, as stated, fails on that document: alone, the diagnostic of the
    [break] gets its fix; after the diagnostic whose work raises, it gets
    none. *)
Lemma later_diagnostics_are_dropped :
  createCodeActionsForDiagnostic stray_brace_provider missing_return_on_line_0
    stray_brace_document [] = (Throw TypeError, [add_return_action])
  /\ getCodeActions stray_brace_provider
       (CodeActionParams.mk "file:///f.sy" no_selection [break_on_line_1])
     = Ok [remove_break_action]
  /\ getCodeActions stray_brace_provider
       (CodeActionParams.mk "file:///f.sy" no_selection
          [missing_return_on_line_0; break_on_line_1])
     = Ok [add_return_action]
  /\ ~ In remove_break_action [add_return_action].
Proof.
  refine (conj _ (conj _ (conj _ _))); try (vm_compute; reflexivity).
  intros [H|[]]. discriminate H.
Qed.

(** C7, as amended.  When the batch is not empty and its processing ends
    without a raise and without any action, the request answers with exactly
    one generic quick fix, for the first diagnostic of the batch, provided
    that it carries no selection within one line; with such a selection the
    two extract actions are in the list before the test, and no generic
    action is added.  The generic action defers to the command
    sysy.genericFix and has no edit. *)
Theorem generic_fix_when_no_action this params document first rest :
  getOrCreateDocument this (CodeActionParams.uri params) = Ok document ->
  CodeActionParams.diagnostics params = first :: rest ->
  for_each_diagnostic this (first :: rest) document [] = (Ok tt, []) ->
  getCodeActions this params =
    Ok (if has_selection params then refactoringActions params document
        else [createGenericFix first document])
  /\ CodeAction.edit (createGenericFix first document) = None
  /\ option_map Command.command
       (CodeAction.command (createGenericFix first document))
     = Some "sysy.genericFix".
Proof.
  intros Hdocument Hbatch Hnone.
  refine (conj _ (conj eq_refl eq_refl)).
  unfold getCodeActions, getCodeActions_body.
  unfold step at 1. unfold call at 1. rewrite Hdocument.
  unfold step at 1. rewrite Hbatch, Hnone.
  unfold step. destruct (has_selection params); reflexivity.
Qed.

(** A diagnostic without a code whose message no pattern matches. *)
Definition unknown_diagnostic : LspDiagnostic.t :=
  LspDiagnostic.mk (Range.mk (Position.mk 0 0) (Position.mk 0 3))
    "something else" None.

Definition selection_on_line_0 : Range.t :=
  Range.mk (Position.mk 0 0) (Position.mk 0 3).

Lemma generic_fix_when_no_action_witness :
  getCodeActions stray_brace_provider
    (CodeActionParams.mk "file:///f.sy" no_selection [unknown_diagnostic])
  = Ok [createGenericFix unknown_diagnostic stray_brace_document].
Proof.
  apply (generic_fix_when_no_action stray_brace_provider
           (CodeActionParams.mk "file:///f.sy" no_selection
              [unknown_diagnostic])
           stray_brace_document unknown_diagnostic []).
  - reflexivity.
  - reflexivity.
  - vm_compute. reflexivity.
Defined.

(** C7, as stated, fails on a request with a selection: the batch is not
    empty and gives no action, and the answer is the two extract actions,
    without a generic quick fix. *)
Lemma selection_suppresses_generic_fix :
  let params :=
    CodeActionParams.mk "file:///f.sy" selection_on_line_0
      [unknown_diagnostic] in
  for_each_diagnostic stray_brace_provider [unknown_diagnostic]
    stray_brace_document [] = (Ok tt, [])
  /\ getCodeActions stray_brace_provider params
     = Ok (refactoringActions params stray_brace_document)
  /\ getCodeActions stray_brace_provider params
     <> Ok [createGenericFix unknown_diagnostic stray_brace_document]
  /\ ~ In (createGenericFix unknown_diagnostic stray_brace_document)
         (refactoringActions params stray_brace_document).
Proof.
  refine (conj _ (conj _ (conj _ _))); try (vm_compute; reflexivity).
  - vm_compute. discriminate.
  - vm_compute. intros [H|[H|[]]]; discriminate H.
Qed.

(** A resolver that raises before it gives an action: the message names an
    array with an opening bracket, and the pattern built from that name is
    rejected.  The answer is the list as it was, here empty; the batch ends,
    and no generic action is added. *)
Example rejected_pattern_ends_batch :
  let bad_name :=
    LspDiagnostic.mk (Range.mk (Position.mk 0 0) (Position.mk 0 3))
      "数组 a( 的初始化元素数量超过了数组大小。"
      (Some (CodeString ERROR_CODES.ARRAY_SIZE_OVERFLOW)) in
  createArraySizeOverflowFix bad_name stray_brace_document = Throw SyntaxError
  /\ getCodeActions stray_brace_provider
       (CodeActionParams.mk "file:///f.sy" no_selection
          [bad_name; break_on_line_1])
     = Ok [].
Proof. split; vm_compute; reflexivity. Qed.

End EngineFacts.

(** ** Texts *)

Section StringFacts.

Lemma append_cons (x : ascii) (a b : string) :
  String x a +:+ b = String x (a +:+ b).
Proof. reflexivity. Qed.

Lemma append_assoc (a b c : string) : (a +:+ b) +:+ c = a +:+ (b +:+ c).
Proof.
  induction a as [|x a IH]; [reflexivity|].
  rewrite !append_cons, IH. reflexivity.
Qed.

Lemma append_empty_r (a : string) : a +:+ "" = a.
Proof.
  induction a as [|x a IH]; [reflexivity|].
  rewrite append_cons, IH. reflexivity.
Qed.

Lemma length_append (a b : string) :
  String.length (a +:+ b) = String.length a + String.length b.
Proof.
  induction a as [|x a IH]; [reflexivity|].
  rewrite append_cons. simpl. rewrite IH. reflexivity.
Qed.

Lemma substring_append_prefix (a b : string) :
  String.substring 0 (String.length a) (a +:+ b) = a.
Proof.
  induction a as [|x a IH]; [destruct b; reflexivity|].
  rewrite append_cons. simpl. rewrite IH. reflexivity.
Qed.

Lemma prefix_append (a b : string) : String.prefix a (a +:+ b) = true.
Proof.
  induction a as [|x a IH]; [destruct b; reflexivity|].
  rewrite append_cons. simpl. destruct (ascii_dec x x); [exact IH|contradiction].
Qed.

Lemma includes_unfold (s pat : string) :
  JS.includes s pat =
  String.prefix pat s
  || match s with
     | EmptyString => false
     | String _ s' => JS.includes s' pat
     end.
Proof. destruct s; reflexivity. Qed.

Lemma includes_prefix (s pat : string) :
  String.prefix pat s = true -> JS.includes s pat = true.
Proof. intros H. rewrite includes_unfold, H. reflexivity. Qed.

End StringFacts.

(** ** Error message provider: the shape of an enriched message *)

Section EnrichmentShape.
Import JS ErrorMessageProvider.

Lemma exact_pass_In msg table info :
  exact_pass msg table = Some info ->
  exists key, In (key, info) table /\ includes msg key = true.
Proof.
  induction table as [|[key i] table IH]; [discriminate|].
  cbn [exact_pass]. destruct (includes msg key) eqn:Hkey.
  - intros [= <-]. exists key. split; [left; reflexivity|exact Hkey].
  - intros H. destruct (IH H) as (k & Hin & Hk).
    exists k. split; [right; exact Hin|exact Hk].
Qed.

(** What enrichment appends for an entry of the table. *)
Definition details (info : ErrorInfo) : string :=
  LF +:+ LF +:+ "详细信息：" +:+ message info +:+ LF +:+ "建议：" +:+
  suggestion info.

Lemma enriched_appends (msg : string) :
  falsy msg = false -> exists tail, enriched msg = msg +:+ tail.
Proof.
  intros Hmsg. unfold enriched. rewrite Hmsg.
  destruct (exact_pass msg ERROR_DETAILS) as [info|].
  - exists (details info). reflexivity.
  - exists "". symmetry. apply append_empty_r.
Qed.

Lemma enhanced_longer msg info : enhanced msg info <> msg.
Proof.
  intros H. apply (f_equal String.length) in H.
  change (enhanced msg info) with (msg +:+ details info) in H.
  unfold details in H. rewrite !length_append in H.
  change (String.length LF) with 1 in H. lia.
Qed.

Lemma categories_of_table :
  Forall (fun entry => category (snd entry) <> OTHER) ERROR_DETAILS.
Proof. repeat constructor; discriminate. Qed.

(** Enrichment only appends.  For a message that is not empty, the enriched
    text, of [getEnhancedMessage] and of [getSafeEnhancedMessage] alike, is
    the message itself followed either by nothing or by the explanation and
    the suggestion of an entry of the table whose key the message contains. *)
Theorem enrichment_keeps_message (msg : string) :
  falsy msg = false ->
  exists tail,
    getEnhancedMessage msg = Ok (msg +:+ tail)
    /\ getSafeEnhancedMessage msg = Ok (msg +:+ tail)
    /\ (tail = ""
        \/ exists key info,
             In (key, info) ERROR_DETAILS /\ includes msg key = true
             /\ tail = LF +:+ LF +:+ "详细信息：" +:+ message info +:+ LF +:+
                       "建议：" +:+ suggestion info).
Proof.
  intros Hmsg. rewrite getSafeEnhancedMessage_static, getEnhancedMessage_static.
  unfold enriched. rewrite Hmsg.
  destruct (exact_pass msg ERROR_DETAILS) as [info|] eqn:Hpass.
  - exists (details info). split; [reflexivity|]. split; [reflexivity|].
    right. destruct (exact_pass_In _ _ _ Hpass) as (key & Hin & Hkey).
    exists key, info. auto.
  - exists "". rewrite append_empty_r. auto.
Qed.

Lemma enrichment_keeps_message_witness :
  falsy "类型不匹配" = false
  /\ exists tail,
       getEnhancedMessage "类型不匹配" = Ok ("类型不匹配" +:+ tail)
       /\ getSafeEnhancedMessage "类型不匹配" = Ok ("类型不匹配" +:+ tail)
       /\ (tail = ""
           \/ exists key info,
                In (key, info) ERROR_DETAILS
                /\ includes "类型不匹配" key = true
                /\ tail = LF +:+ LF +:+ "详细信息：" +:+ message info +:+ LF
                          +:+ "建议：" +:+ suggestion info).
Proof.
  split; [reflexivity|].
  apply (enrichment_keeps_message "类型不匹配"). reflexivity.
Defined.

(** A message that is not empty comes back unchanged exactly when its
    category is OTHER: the entries of the table all have another category,
    and each of them appends a text that is not empty. *)
Theorem unchanged_iff_other (msg : string) :
  falsy msg = false ->
  (getEnhancedMessage msg = Ok msg <-> getErrorCategory msg = Ok (Some OTHER)).
Proof.
  intros Hmsg. rewrite getEnhancedMessage_static, getErrorCategory_static.
  rewrite Hmsg.
  destruct (exact_pass msg ERROR_DETAILS) as [info|] eqn:Hpass.
  - destruct (exact_pass_In _ _ _ Hpass) as (key & Hin & _).
    pose proof (proj1 (List.Forall_forall _ _) categories_of_table _ Hin)
      as Hcat.
    cbn [snd] in Hcat.
    split; intros [= H]; [exfalso; exact (enhanced_longer _ _ H)|contradiction].
  - split; reflexivity.
Qed.

Lemma unchanged_iff_other_witness :
  falsy "syntax error" = false
  /\ (getEnhancedMessage "syntax error" = Ok "syntax error"
      <-> getErrorCategory "syntax error" = Ok (Some OTHER)).
Proof.
  split; [reflexivity|].
  apply (unchanged_iff_other "syntax error"). reflexivity.
Defined.

End EnrichmentShape.

(** ** Repeated names *)

Section UniqueNames.
Import JS ErrorMessageProvider.

(** The elements of a list whose name one of the elements before them has. *)
Fixpoint repeats {A : Type} (name : A -> string) (earlier : list string)
  (l : list A) : list A :=
  match l with
  | [] => []
  | x :: rest =>
      if existsb (String.eqb (name x)) earlier
      then x :: repeats name (name x :: earlier) rest
      else repeats name (name x :: earlier) rest
  end.

(** The diagnostics of a repeated name. *)
Definition duplicate_function_diagnostic (func : FuncDef.t) : Diagnostic.t :=
  Diagnostic.mk "error"
    (enriched ("函数名 '" +:+ FuncDef.name func +:+ "' 已经定义过。"))
    (NFuncDef func) (Some "name") (Some ERROR_CODES.DUPLICATE_FUNCTION)
    [ ("explanation", VString "同一作用域内不能重复定义同名函数");
      ("suggestion", VString "使用不同的函数名或移除重复的定义");
      ("category", VCategory FUNCTION);
      ("functionName", VString (FuncDef.name func)) ].

Definition duplicate_declaration_diagnostic (d : Def) : Diagnostic.t :=
  Diagnostic.mk "error"
    (enriched ("无法重新声明块范围变量 '" +:+ Def_name d +:+ "'。"))
    (NDef d) (Some "name") (Some ERROR_CODES.DUPLICATE_DECLARATION)
    [ ("explanation", VString "同一作用域内不能重复声明同名变量");
      ("suggestion", VString "使用不同的变量名或移除重复的声明");
      ("category", VCategory VARIABLE);
      ("variableName", VString (Def_name d)) ].

Lemma seen_earlier (seen : gset string) (earlier : list string) (x : string) :
  (forall y, y ∈ seen <-> In y earlier) ->
  bool_decide (x ∈ seen) = existsb (String.eqb x) earlier.
Proof.
  intros H. destruct (existsb (String.eqb x) earlier) eqn:Hex.
  - apply bool_decide_eq_true. apply H.
    apply existsb_exists in Hex. destruct Hex as (y & Hy & Heq).
    apply String.eqb_eq in Heq. subst y. exact Hy.
  - apply bool_decide_eq_false. intros Hin. apply H in Hin.
    assert (Hex' : existsb (String.eqb x) earlier = true).
    { apply existsb_exists. exists x. split; [exact Hin|apply String.eqb_refl]. }
    congruence.
Qed.

Lemma seen_add (seen : gset string) (earlier : list string) (x : string) :
  (forall y, y ∈ seen <-> In y earlier) ->
  forall y, y ∈ ({[x]} ∪ seen : gset string) <-> In y (x :: earlier).
Proof.
  intros H y. rewrite elem_of_union, elem_of_singleton, H. cbn. intuition.
Qed.

Lemma seen_keep (seen : gset string) (earlier : list string) (x : string) :
  (forall y, y ∈ seen <-> In y earlier) -> x ∈ seen ->
  forall y, y ∈ seen <-> In y (x :: earlier).
Proof.
  intros H Hx y. rewrite H. cbn. split; [auto|]. intros [<-|Hy]; [apply H, Hx|exact Hy].
Qed.

Lemma unique_functions_repeats functions :
  forall seen earlier,
    (forall y, y ∈ seen <-> In y earlier) ->
    unique_functions seen functions =
    Ok (map duplicate_function_diagnostic (repeats FuncDef.name earlier functions)).
Proof.
  induction functions as [|func rest IH]; intros seen earlier Hseen; [reflexivity|].
  cbn [unique_functions repeats].
  rewrite (seen_earlier _ _ _ Hseen).
  destruct (existsb (String.eqb (FuncDef.name func)) earlier) eqn:Hex.
  - unfold FuncValidator.duplicate_function. rewrite accept_error_one.
    rewrite (IH seen (FuncDef.name func :: earlier)); [reflexivity|].
    apply seen_keep; [exact Hseen|].
    rewrite <- (seen_earlier _ _ _ Hseen) in Hex.
    apply bool_decide_eq_true in Hex. exact Hex.
  - apply IH. apply seen_add, Hseen.
Qed.

Lemma unique_defs_repeats defs :
  forall seen earlier,
    (forall y, y ∈ seen <-> In y earlier) ->
    unique_defs seen defs =
    Ok (map duplicate_declaration_diagnostic (repeats Def_name earlier defs)).
Proof.
  induction defs as [|d rest IH]; intros seen earlier Hseen; [reflexivity|].
  cbn [unique_defs repeats].
  rewrite (seen_earlier _ _ _ Hseen).
  destruct (existsb (String.eqb (Def_name d)) earlier) eqn:Hex.
  - unfold DeclValidator.duplicate_declaration. rewrite accept_error_one.
    rewrite (IH _ (Def_name d :: earlier)); [reflexivity|].
    apply seen_add, Hseen.
  - apply IH. apply seen_add, Hseen.
Qed.

Lemma empty_seen : forall y : string, y ∈ (∅ : gset string) <-> In y [].
Proof. intros y. rewrite elem_of_empty. reflexivity. Qed.

Lemma repeats_nil_NoDup {A : Type} (name : A -> string) (l : list A) :
  forall earlier,
    repeats name earlier l = [] <->
    (List.NoDup (map name l) /\ forall x, In x l -> ~ In (name x) earlier).
Proof.
  induction l as [|x rest IH]; intros earlier.
  - cbn. split; [intros _; split; [constructor|tauto]|reflexivity].
  - cbn [repeats map].
    destruct (existsb (String.eqb (name x)) earlier) eqn:Hex.
    + split; [discriminate|]. intros [_ H]. exfalso.
      apply existsb_exists in Hex. destruct Hex as (y & Hy & Heq).
      apply String.eqb_eq in Heq. subst y.
      exact (H x (or_introl eq_refl) Hy).
    + rewrite IH. split.
      * intros [Hnodup Hnot]. split.
        -- constructor; [|exact Hnodup]. intros Hin.
           apply in_map_iff in Hin. destruct Hin as (y & Heq & Hy).
           apply (Hnot y Hy). left. symmetry. exact Heq.
        -- intros y [<-|Hy] Hin.
           ++ assert (existsb (String.eqb (name x)) earlier = true); [|congruence].
              apply existsb_exists. exists (name x). split; [exact Hin|apply String.eqb_refl].
           ++ apply (Hnot y Hy). right. exact Hin.
      * intros [Hnodup Hnot]. inversion Hnodup as [|? ? Hx Hrest]; subst.
        split; [exact Hrest|]. intros y Hy [Heq|Hin].
        -- apply Hx. rewrite Heq. apply in_map, Hy.
        -- apply (Hnot y (or_intror Hy) Hin).
Qed.

(** [checkUniqueFuncName] reports, in their order, the functions whose name
    a function before them in the unit has, each with one DUPLICATE_FUNCTION
    diagnostic on its name; it reports nothing exactly when the names of the
    unit are pairwise different. *)
Theorem unique_function_names (compUnit : CompUnit.t) (h : Store.t) :
  fst (FuncValidator.checkUniqueFuncName compUnit h) =
    Ok (map duplicate_function_diagnostic
          (repeats FuncDef.name [] (CompUnit.functions compUnit)))
  /\ (fst (FuncValidator.checkUniqueFuncName compUnit h) = Ok [] <->
      List.NoDup (map FuncDef.name (CompUnit.functions compUnit))).
Proof.
  rewrite checkUniqueFuncName_pure.
  rewrite (unique_functions_repeats _ ∅ [] empty_seen).
  split; [reflexivity|].
  split.
  - intros [= H]. apply map_eq_nil in H.
    apply (repeats_nil_NoDup FuncDef.name) in H. apply H.
  - intros H. f_equal.
    assert (Hr : repeats FuncDef.name [] (CompUnit.functions compUnit) = []).
    { apply repeats_nil_NoDup. split; [exact H|]. intros x _ []. }
    rewrite Hr. reflexivity.
Qed.

(** [checkUniqueDef] reports, in their order, the definitions of a
    declaration whose name a definition before them in that declaration has,
    each with one DUPLICATE_DECLARATION diagnostic on its name; it reports
    nothing exactly when the names of the declaration are pairwise
    different. *)
Theorem unique_definitions (constDecl : Decl.t) (h : Store.t) :
  fst (DeclValidator.checkUniqueDef constDecl h) =
    Ok (map duplicate_declaration_diagnostic
          (repeats Def_name [] (Decl.defs constDecl)))
  /\ (fst (DeclValidator.checkUniqueDef constDecl h) = Ok [] <->
      List.NoDup (map Def_name (Decl.defs constDecl))).
Proof.
  rewrite checkUniqueDef_pure.
  rewrite (unique_defs_repeats _ ∅ [] empty_seen).
  split; [reflexivity|].
  split.
  - intros [= H]. apply map_eq_nil in H.
    apply (repeats_nil_NoDup Def_name) in H. apply H.
  - intros H. f_equal.
    assert (Hr : repeats Def_name [] (Decl.defs constDecl) = []).
    { apply repeats_nil_NoDup. split; [exact H|]. intros x _ []. }
    rewrite Hr. reflexivity.
Qed.

Lemma validate_cons node rest h :
  fst (Validator.validate (node :: rest) h) =
  and_then (fst (Validator.run_checks node (Validator.checks node) h))
    (fst (Validator.validate rest
            (snd (Validator.run_checks node (Validator.checks node) h)))).
Proof.
  cbn [Validator.validate].
  destruct (Validator.run_checks node (Validator.checks node) h) as [first h'].
  cbn [fst snd]. destruct (Validator.validate rest h'). reflexivity.
Qed.

Lemma run_checks_decl constDecl h :
  fst (Validator.run_checks (NDecl constDecl)
         (Validator.checks (NDecl constDecl)) h) =
  Ok (map duplicate_declaration_diagnostic
        (repeats Def_name [] (Decl.defs constDecl))).
Proof.
  cbn [Validator.checks Validator.run_checks]. unfold Validator.run_check, lift.
  pose proof (checkUniqueDef_pure constDecl h) as H.
  destruct (DeclValidator.checkUniqueDef constDecl h) as [r h1].
  cbn [fst] in H. subst r.
  rewrite (unique_defs_repeats _ ∅ [] empty_seen).
  cbn. rewrite app_nil_r. reflexivity.
Qed.

Lemma validate_decls (decls : list Decl.t) (h : Store.t) :
  fst (Validator.validate (map NDecl decls) h) =
  Ok (flat_map
        (fun constDecl =>
           map duplicate_declaration_diagnostic
             (repeats Def_name [] (Decl.defs constDecl)))
        decls).
Proof.
  revert h. induction decls as [|constDecl rest IH]; intros h; [reflexivity|].
  cbn [map flat_map]. rewrite validate_cons, run_checks_decl, IH. reflexivity.
Qed.

(** The names are checked declaration by declaration: the pass over a
    sequence of declarations reports what each declaration reports alone, so
    that a name defined again in a later declaration is not reported; when
    the names within each declaration are pairwise different the pass reports
    nothing, whatever names the declarations share. *)
Theorem declarations_checked_apart (decls : list Decl.t) (h : Store.t) :
  fst (Validator.validate (map NDecl decls) h) =
    Ok (flat_map
          (fun constDecl =>
             map duplicate_declaration_diagnostic
               (repeats Def_name [] (Decl.defs constDecl)))
          decls)
  /\ (Forall (fun constDecl => List.NoDup (map Def_name (Decl.defs constDecl)))
        decls ->
      fst (Validator.validate (map NDecl decls) h) = Ok []).
Proof.
  split; [apply validate_decls|].
  intros H. rewrite validate_decls. f_equal.
  induction H as [|constDecl rest Hfirst _ IH]; [reflexivity|].
  cbn [flat_map]. rewrite IH, app_nil_r.
  assert (Hr : repeats Def_name [] (Decl.defs constDecl) = []).
  { apply repeats_nil_NoDup. split; [exact Hfirst|]. intros x _ []. }
  rewrite Hr. reflexivity.
Qed.

Lemma declarations_checked_apart_witness :
  Forall (fun constDecl => List.NoDup (map Def_name (Decl.defs constDecl)))
    [Decl.mk [DConst (ConstDef.mk "a" None)];
     Decl.mk [DConst (ConstDef.mk "a" None)]]
  /\ fst (Validator.validate
            (map NDecl [Decl.mk [DConst (ConstDef.mk "a" None)];
                        Decl.mk [DConst (ConstDef.mk "a" None)]]) [])
     = JS.Ok [].
Proof.
  assert (H : Forall
                (fun constDecl =>
                   List.NoDup (map Def_name (Decl.defs constDecl)))
                [Decl.mk [DConst (ConstDef.mk "a" None)];
                 Decl.mk [DConst (ConstDef.mk "a" None)]]).
  { repeat constructor; simpl; intros []. }
  split; [exact H|].
  apply (proj2 (declarations_checked_apart
                  [Decl.mk [DConst (ConstDef.mk "a" None)];
                   Decl.mk [DConst (ConstDef.mk "a" None)]] [])).
  exact H.
Defined.

End UniqueNames.

(** ** Which jumps the walk reports *)

Section Exposure.
Import JS ErrorMessageProvider.

(** [exposed node s]: the walk that starts at [node] outside a loop meets the
    statement [s] outside a loop.  The walk meets the items of a block, and
    goes on into the items that are blocks and into the branches of an [if];
    it does not look into a node that is not a block. *)
Inductive exposed : Stmt -> Stmt -> Prop :=
| exposed_item items d s :
    In (BlockItem.mk d (Some s)) items -> exposed (Block items) s
| exposed_if items d ifstmt elsestmt s :
    In (BlockItem.mk d (Some (Stmtelif ifstmt elsestmt))) items ->
    exposed ifstmt s -> exposed (Block items) s
| exposed_else items d ifstmt elsestmt s :
    In (BlockItem.mk d (Some (Stmtelif ifstmt (Some elsestmt)))) items ->
    exposed elsestmt s -> exposed (Block items) s
| exposed_block items d inner s :
    In (BlockItem.mk d (Some (Block inner))) items ->
    exposed (Block inner) s -> exposed (Block items) s.

Definition jump (s : Stmt) : Prop := s = Stmtbreak \/ s = Stmtcontinue.

Definition clean (node : Stmt) : Prop :=
  forall s, exposed node s -> ~ jump s.

Lemma and_then_nil (a b : accepted) :
  and_then a b = Ok [] <-> a = Ok [] /\ b = Ok [].
Proof.
  split.
  - destruct a as [ds1| |]; try discriminate. destruct b as [ds2| |]; try discriminate.
    cbn. intros [= H]. apply app_eq_nil in H. destruct H as [-> ->]. auto.
  - intros [-> ->]. reflexivity.
Qed.

Definition item_clean (s : Stmt) : Prop :=
  ~ jump s
  /\ match s with
     | Stmtelif ifstmt elsestmt =>
         clean ifstmt
         /\ match elsestmt with Some e => clean e | None => True end
     | Block inner => clean (Block inner)
     | _ => True
     end.

Lemma clean_cons d blockStmt rest :
  clean (Block (BlockItem.mk d blockStmt :: rest)) <->
  match blockStmt with Some s => item_clean s | None => True end
  /\ clean (Block rest).
Proof.
  split.
  - intros H. split.
    + destruct blockStmt as [s|]; [|exact I]. split.
      * apply H. eapply exposed_item. left. reflexivity.
      * destruct s as [ | | t | w | i e | inner | t]; try exact I.
        -- split.
           ++ intros s Hs. apply H.
              eapply exposed_if; [left; reflexivity|exact Hs].
           ++ destruct e as [e|]; [|exact I].
              intros s Hs. apply H.
              eapply exposed_else; [left; reflexivity|exact Hs].
        -- intros s Hs. apply H.
           eapply exposed_block; [left; reflexivity|exact Hs].
    + intros s Hs. apply H. inversion Hs; subst.
      * eapply exposed_item. right. eassumption.
      * eapply exposed_if; [right; eassumption|assumption].
      * eapply exposed_else; [right; eassumption|assumption].
      * eapply exposed_block; [right; eassumption|assumption].
  - intros [Hitem Hrest] s Hs.
    inversion Hs as [items d' s' Hin|items d' i e s' Hin Hi|items d' i e s' Hin He
                    |items d' inner s' Hin Hb]; subst.
    + destruct Hin as [[= -> ->]|Hin]; [apply Hitem|].
      apply Hrest. eapply exposed_item. exact Hin.
    + destruct Hin as [[= -> ->]|Hin];
        [apply (proj1 (proj2 Hitem)), Hi|].
      apply Hrest. eapply exposed_if; eassumption.
    + destruct Hin as [[= -> ->]|Hin];
        [apply (proj2 (proj2 Hitem)), He|].
      apply Hrest. eapply exposed_else; eassumption.
    + destruct Hin as [[= -> ->]|Hin]; [apply (proj2 Hitem), Hb|].
      apply Hrest. eapply exposed_block; eassumption.
Qed.

Lemma clean_nil : clean (Block []).
Proof. intros s Hs. inversion Hs; subst; contradiction. Qed.

Lemma clean_not_block (node : Stmt) : blockItems_of node = None -> clean node.
Proof. intros H s Hs. inversion Hs; subst; discriminate H. Qed.

Lemma not_jump (s : Stmt) :
  match s with Stmtbreak | Stmtcontinue => False | _ => True end -> ~ jump s.
Proof. intros H [-> | ->]; exact H. Qed.

Lemma silent_iff_clean_both (node : Stmt) :
  (FuncValidator.checkStatementsInBlock node false = Ok [] <-> clean node)
  /\ (item_check (Some node) false = Ok [] <-> item_clean node).
Proof.
  induction node as [ | | t | w IHw | i e [IHi _] IHe | items IH | t ]
    using Stmt_nested_ind.
  - split; [split; [intros _; apply clean_not_block|]; reflexivity|].
    cbn [item_check negb]. unfold FuncValidator.invalid_break.
    rewrite accept_error_one. split; [discriminate|].
    intros [H _]. exfalso. apply H. left. reflexivity.
  - split; [split; [intros _; apply clean_not_block|]; reflexivity|].
    cbn [item_check negb]. unfold FuncValidator.invalid_continue.
    rewrite accept_error_one. split; [discriminate|].
    intros [H _]. exfalso. apply H. right. reflexivity.
  - split; (split; [intros _|reflexivity]).
    + apply clean_not_block. reflexivity.
    + split; [apply not_jump|]; exact I.
  - split; [split; [intros _; apply clean_not_block|]; reflexivity|].
    cbn [item_check]. rewrite checkStatementsInBlock_in_loop.
    split; [intros _|reflexivity]. split; [apply not_jump|]; exact I.
  - split; [split; [intros _; apply clean_not_block|]; reflexivity|].
    cbn [item_check]. rewrite and_then_nil, IHi. unfold item_clean.
    destruct e as [e|].
    + destruct IHe as [-> _]. split; [intros H; split; [apply not_jump; exact I|exact H]|tauto].
    + split; [intros [H _]; split; [apply not_jump; exact I|split; [exact H|exact I]]|].
      intros [_ [H _]]. split; [exact H|reflexivity].
  - assert (H : FuncValidator.checkStatementsInBlock (Block items) false = Ok []
                <-> clean (Block items)).
    { induction IH as [|[d blockStmt] items Hitem _ IHitems].
      - split; [intros _; apply clean_nil|reflexivity].
      - rewrite checkStatementsInBlock_cons, and_then_nil, clean_cons, IHitems.
        apply and_iff_compat_r.
        destruct blockStmt as [s|]; [|split; [auto|reflexivity]].
        cbn [BlockItem.blockStmt] in Hitem. apply Hitem. }
    split; [exact H|].
    change (item_check (Some (Block items)) false)
      with (FuncValidator.checkStatementsInBlock (Block items) false).
    rewrite H. unfold item_clean.
    split; [intros Hc; split; [apply not_jump; exact I|exact Hc]|tauto].
  - split; (split; [intros _|reflexivity]).
    + apply clean_not_block. reflexivity.
    + split; [apply not_jump|]; exact I.
Qed.

(** The check of a function reports nothing exactly when no [break] and no
    [continue] is exposed in its body, where a statement is exposed when it
    is an item of the body, or of a block that is an item of an exposed
    block, or of a block that is a branch of an [if] that is such an item:
    the body of a [while] exposes nothing, and neither does a branch of an
    [if] that is a statement without braces, so that the jump of
    [if (c) break;] is never reported. *)
Theorem silent_iff_no_exposed_jump :
  (forall funcDef,
     FuncValidator.checkBreakContinueInNonLoopBlocks funcDef = Ok [] <->
     ~ exists s, exposed (FuncDef.block funcDef) s
                 /\ (s = Stmtbreak \/ s = Stmtcontinue))
  /\ (forall node s, blockItems_of node = None -> ~ exposed node s)
  /\ (forall functype name params d jump elsestmt,
       blockItems_of jump = None ->
       match elsestmt with
       | Some e => blockItems_of e = None
       | None => True
       end ->
       FuncValidator.checkBreakContinueInNonLoopBlocks
         (FuncDef.mk functype name params
            (Block [BlockItem.mk d (Some (Stmtelif jump elsestmt))]))
       = Ok []).
Proof.
  refine (conj _ (conj _ _)).
  - intros funcDef. unfold FuncValidator.checkBreakContinueInNonLoopBlocks.
    rewrite (proj1 (silent_iff_clean_both _)). unfold clean, jump.
    split.
    + intros H (s & Hs & Hj). exact (H s Hs Hj).
    + intros H s Hs Hj. apply H. exists s. auto.
  - intros node s H Hs. inversion Hs; subst; discriminate H.
  - intros functype name params d j e Hj He.
    unfold FuncValidator.checkBreakContinueInNonLoopBlocks.
    cbn [FuncDef.block]. rewrite checkStatementsInBlock_cons.
    cbn [item_check].
    destruct j; try discriminate Hj;
      (destruct e as [[]|]; try discriminate He; reflexivity).
Qed.

Lemma silent_iff_no_exposed_jump_witness :
  blockItems_of Stmtbreak = None
  /\ FuncValidator.checkBreakContinueInNonLoopBlocks
       (FuncDef.mk "void" "f" []
          (Block [BlockItem.mk None (Some (Stmtelif Stmtbreak None))]))
     = Ok [].
Proof.
  split; [reflexivity|].
  apply (proj2 (proj2 silent_iff_no_exposed_jump)
           "void" "f" [] None Stmtbreak None); [reflexivity|exact I].
Defined.

End Exposure.

(** ** The check of the array sizes *)

Section ArrayCheckRaises.
Import JS ErrorMessageProvider.

(** [hoverTipsArray] raises exactly on a definition that has a dimension and
    no initializer, as [int a[10];]: there reading the first initializer
    gives [undefined], whatever the dimension is.  On every other definition
    it ends with at most one diagnostic.  In the validation pass the raise
    becomes one diagnostic: an error on the node of the definition, whose
    message starts with the text of the framework for a failed check. *)
Theorem array_check_raises (arr : VarDef.t) :
  (DeclValidator.hoverTipsArray arr = Throw TypeError <->
   VarDef.index arr <> [] /\ VarDef.Init arr = [])
  /\ (~ (VarDef.index arr <> [] /\ VarDef.Init arr = []) ->
      exists ds, DeclValidator.hoverTipsArray arr = Ok ds /\ length ds <= 1)
  /\ (VarDef.index arr <> [] -> VarDef.Init arr = [] ->
      forall h,
      exists diagnostic,
        fst (Validator.validate [NDef (DVar arr)] h) = Ok [diagnostic]
        /\ Diagnostic.severity diagnostic = "error"
        /\ Diagnostic.node diagnostic = NDef (DVar arr)
        /\ String.prefix "An error occurred during validation"
             (Diagnostic.message diagnostic) = true).
Proof.
  unfold DeclValidator.hoverTipsArray.
  destruct (VarDef.index arr) as [|index0 indices] eqn:Hindex.
  - refine (conj _ (conj _ _)).
    + split; [discriminate|]. intros [H _]. contradiction.
    + intros _. exists []. split; [reflexivity|]. simpl. lia.
    + intros H. contradiction.
  - destruct (VarDef.Init arr) as [|init0 inits] eqn:HInit.
    + refine (conj _ (conj _ _)).
      * split; [intros _; split; [discriminate|reflexivity]|reflexivity].
      * intros H. exfalso. apply H. split; [discriminate|reflexivity].
      * intros _ _ h. exists (Validator.validation_exception (NDef (DVar arr))).
        split; [|repeat split].
        cbn [Validator.validate Validator.checks Validator.run_checks].
        unfold Validator.run_check, lift, DeclValidator.hoverTipsArray.
        rewrite Hindex, HInit. reflexivity.
    + refine (conj _ (conj _ _)).
      * split; [|intros [_ H]; discriminate H].
        destruct (match ConstExp.value index0 with
                  | Some length => parseInt length
                  | None => None
                  end) as [declaredSize|]; [|discriminate].
        destruct (declaredSize <? _)%Z; [|discriminate].
        rewrite accept_error_one. discriminate.
      * intros _.
        destruct (match ConstExp.value index0 with
                  | Some length => parseInt length
                  | None => None
                  end) as [declaredSize|];
          [|exists []; split; [reflexivity|simpl; lia]].
        destruct (declaredSize <? _)%Z;
          [|exists []; split; [reflexivity|simpl; lia]].
        rewrite accept_error_one. eexists. split; [reflexivity|]. simpl. lia.
      * intros _ H. discriminate H.
Qed.

(** [int a[10];] *)
Definition a_of_10 : VarDef.t :=
  VarDef.mk "a" [ConstExp.mk (Some "10") (Some "10")] [] None None None.

Lemma array_check_raises_witness :
  VarDef.index a_of_10 <> []
  /\ VarDef.Init a_of_10 = []
  /\ exists diagnostic,
       fst (Validator.validate [NDef (DVar a_of_10)] []) = Ok [diagnostic]
       /\ Diagnostic.severity diagnostic = "error"
       /\ Diagnostic.node diagnostic = NDef (DVar a_of_10)
       /\ String.prefix "An error occurred during validation"
            (Diagnostic.message diagnostic) = true.
Proof.
  assert (H : VarDef.index a_of_10 <> []) by discriminate.
  split; [exact H|]. split; [reflexivity|].
  apply (proj2 (proj2 (array_check_raises a_of_10)) H eq_refl []).
Defined.
End ArrayCheckRaises.

(** ** The search for the end of a function *)

Section BraceBalance.
Import JS SysyQuickFixProvider.

(** What a character adds to the count of the open braces. *)
Definition brace (c : ascii) : Z :=
  if Ascii.eqb c "{" then 1 else if Ascii.eqb c "}" then -1 else 0.

(** The open braces of a text minus its closing braces. *)
Fixpoint balance (s : string) : Z :=
  match s with
  | EmptyString => 0
  | String c s' => brace c + balance s'
  end.

(** Reading the text from the depth [depth], the depth never gets negative:
    no closing brace comes without its opening brace. *)
Fixpoint never_closes_more (depth : Z) (s : string) : bool :=
  match s with
  | EmptyString => true
  | String c s' =>
      (0 <=? depth + brace c)%Z && never_closes_more (depth + brace c) s'
  end.

(** The count of the search, from [count], never reaches zero. *)
Fixpoint never_zero (count : Z) (s : string) : bool :=
  match s with
  | EmptyString => true
  | String c s' =>
      negb (count + brace c =? 0)%Z && never_zero (count + brace c) s'
  end.

Lemma never_zero_depth (s : string) :
  forall depth, (0 <= depth)%Z ->
    never_zero (depth + 1) s = never_closes_more depth s.
Proof.
  induction s as [|c s IH]; intros depth Hdepth; [reflexivity|].
  cbn [never_zero never_closes_more].
  assert (Hbrace : (-1 <= brace c)%Z).
  { unfold brace. destruct (Ascii.eqb c "{"); [lia|].
    destruct (Ascii.eqb c "}"); lia. }
  destruct (0 <=? depth + brace c)%Z eqn:Hle.
  - apply Z.leb_le in Hle.
    replace (depth + 1 + brace c)%Z with (depth + brace c + 1)%Z by lia.
    rewrite IH by exact Hle.
    destruct (depth + brace c + 1 =? 0)%Z eqn:Hz; [|reflexivity].
    apply Z.eqb_eq in Hz. lia.
  - apply Z.leb_gt in Hle.
    assert (Hz : (depth + 1 + brace c =? 0)%Z = true) by (apply Z.eqb_eq; lia).
    rewrite Hz. reflexivity.
Qed.

Lemma balance_append (a b : string) :
  balance (a +:+ b) = (balance a + balance b)%Z.
Proof.
  induction a as [|x a IH]; [reflexivity|].
  rewrite append_cons. cbn [balance]. rewrite IH. lia.
Qed.

Lemma never_zero_append (a b : string) :
  forall count,
    never_zero count (a +:+ b) =
    never_zero count a && never_zero (count + balance a) b.
Proof.
  induction a as [|x a IH]; intros count.
  - cbn. f_equal. lia.
  - rewrite append_cons. cbn [never_zero balance]. rewrite IH.
    rewrite andb_assoc. do 2 f_equal. lia.
Qed.

Lemma scan_braces_never_zero (line : string) :
  forall braceCount,
    scan_braces line braceCount =
    if never_zero braceCount line then Some (braceCount + balance line)%Z
    else None.
Proof.
  induction line as [|c line IH]; intros braceCount.
  - cbn. f_equal. lia.
  - cbn [scan_braces never_zero balance].
    assert (Hcount :
              (if Ascii.eqb c "{" then braceCount + 1
               else if Ascii.eqb c "}" then braceCount - 1 else braceCount)%Z
              = (braceCount + brace c)%Z).
    { unfold brace. destruct (Ascii.eqb c "{"); [reflexivity|].
      destruct (Ascii.eqb c "}"); lia. }
    rewrite Hcount.
    destruct (braceCount + brace c =? 0)%Z; [reflexivity|].
    rewrite IH. cbn [negb andb].
    destruct (never_zero (braceCount + brace c) line); [|reflexivity].
    f_equal. lia.
Qed.

Lemma never_zero_end (s : string) :
  forall count, count <> 0%Z -> never_zero count s = true ->
    (count + balance s)%Z <> 0%Z.
Proof.
  induction s as [|c s IH]; intros count Hcount H.
  - cbn. lia.
  - cbn [never_zero] in H. apply andb_prop in H. destruct H as [Hnow Hrest].
    apply negb_true_iff, Z.eqb_neq in Hnow.
    cbn [balance].
    replace (count + (brace c + balance s))%Z
      with (count + brace c + balance s)%Z by lia.
    apply IH; assumption.
Qed.

(** The search finds no end line exactly when the count never reaches zero
    over the lines. *)
Lemma find_end_line_never_zero (lines : list string) :
  forall endLine braceCount, braceCount <> 0%Z ->
    find_end_line lines endLine braceCount = None <->
    never_zero braceCount (join LF lines) = true.
Proof.
  induction lines as [|line rest IH]; intros endLine braceCount Hcount.
  - split; reflexivity.
  - cbn [find_end_line]. rewrite scan_braces_never_zero.
    destruct rest as [|next rest'].
    + cbn [join find_end_line].
      destruct (never_zero braceCount line); split; auto; discriminate.
    + change (join LF (line :: next :: rest'))
        with (line +:+ LF +:+ join LF (next :: rest')).
      rewrite never_zero_append.
      destruct (never_zero braceCount line) eqn:Hline;
        [|split; discriminate].
      pose proof (never_zero_end _ _ Hcount Hline) as Hend.
      rewrite (IH (S endLine) _ Hend). cbn [andb].
      change (LF +:+ join LF (next :: rest'))
        with (String "010" (join LF (next :: rest'))).
      cbn [never_zero]. change (brace "010") with 0%Z.
      replace (braceCount + balance line + 0)%Z
        with (braceCount + balance line)%Z by lia.
      apply Z.eqb_neq in Hend. rewrite Hend. reflexivity.
Qed.

(** The fix that appends a return statement is not offered exactly when the
    braces nest from the line of the diagnostic on, in that no closing brace
    of those lines comes without its opening brace.  The count of the search
    starts at one and counts the opening brace of the function itself again,
    so that it reaches zero only at a closing brace that has no opening one;
    in the other case the resolver gives an action or raises. *)
Theorem append_return_needs_stray_brace
  (diagnostic : LspDiagnostic.t) (document : TextDocument.t) :
  createAppendReturnFix diagnostic document = Ok None <->
  never_closes_more 0
    (join LF (skipn (start_line diagnostic)
                (split "010" (TextDocument.text document)))) = true.
Proof.
  rewrite <- (never_zero_depth _ 0%Z ltac:(lia)). change (0 + 1)%Z with 1%Z.
  rewrite <- (find_end_line_never_zero _ (start_line diagnostic) 1%Z
                ltac:(discriminate)).
  unfold createAppendReturnFix.
  destruct (find_end_line _ _ _) as [[|previous]|].
  - split; discriminate.
  - destruct (nth_error _ previous); split; discriminate.
  - split; reflexivity.
Qed.

(** A function on lines 0 to 2 of a document: no fix is offered. *)
Example append_return_on_a_function :
  createAppendReturnFix
    (LspDiagnostic.mk (Range.mk (Position.mk 0 0) (Position.mk 0 3))
       "有返回值: int 的函数缺少 return 语句。" None)
    (TextDocument.mk "file:///f.sy"
       ("int f() {" +:+ LF +:+ "  int a = 1;" +:+ LF +:+ "}" +:+ LF))
  = Ok None.
Proof. reflexivity. Qed.

End BraceBalance.

(** ** The diagnostics on their way out *)

Section ServerFacts.
Import JS ErrorMessageProvider SysyQuickFixProvider Server.

Lemma getErrorCategory_total (msg : string) :
  exists category, getErrorCategory msg = Ok category.
Proof. rewrite getErrorCategory_static. eexists. reflexivity. Qed.

Lemma code_bindings_registered
  (getOrCreateDocument : string -> outcome TextDocument.t) :
  codeToFix (new_SysyQuickFixProvider getOrCreateDocument) = code_bindings.
Proof. reflexivity. Qed.

Lemma no_binding_for_prefix (rest : string) :
  Map_get code_bindings (String "S" rest) = None.
Proof. reflexivity. Qed.

Lemma category_value_nonempty category :
  falsy (ERROR_CODE_PREFIX +:+ "-" +:+ category_value category) = false.
Proof. destruct category; reflexivity. Qed.

(** The code and the severity that the wrapper writes for a message. *)
Definition category_of (msg : string) : option ErrorCategory :=
  if falsy msg then None
  else match exact_pass msg ERROR_DETAILS with
       | Some errorInfo => Some (category errorInfo)
       | None => Some OTHER
       end.

Definition assigned_code (msg : string) : string :=
  let prefix :=
    match category_of msg with
    | Some category => ERROR_CODE_PREFIX +:+ "-" +:+ category_value category
    | None => ERROR_CODE_PREFIX
    end in
  match getErrorCode msg with
  | Some errorCode => prefix +:+ "-" +:+ errorCode
  | None => prefix +:+ "-ERROR"
  end.

Definition assigned_severity (msg : string) : nat :=
  match category_of msg with
  | Some category => CATEGORY_TO_SEVERITY category
  | None => DiagnosticSeverity.Error
  end.

Lemma enhance_closed (diagnostic : PublishedDiagnostic.t) :
  enhance diagnostic =
  Ok (PublishedDiagnostic.mk
        (PublishedDiagnostic.range diagnostic)
        (PublishedDiagnostic.message diagnostic)
        (if no_code (PublishedDiagnostic.code diagnostic)
         then Some (CodeString
                      (assigned_code (PublishedDiagnostic.message diagnostic)))
         else PublishedDiagnostic.code diagnostic)
        (if no_source (PublishedDiagnostic.source diagnostic)
         then Some "SysY+" else PublishedDiagnostic.source diagnostic)
        (if no_severity (PublishedDiagnostic.severity diagnostic)
         then Some (assigned_severity
                      (PublishedDiagnostic.message diagnostic))
         else PublishedDiagnostic.severity diagnostic)).
Proof.
  unfold enhance. rewrite getErrorCategory_static.
  fold (category_of (PublishedDiagnostic.message diagnostic)).
  destruct (no_code _), (no_severity _); reflexivity.
Qed.

Lemma assigned_code_head (msg : string) :
  exists rest, assigned_code msg = String "S" rest.
Proof.
  unfold assigned_code.
  destruct (category_of msg) as [[]|], (getErrorCode msg);
    eexists; reflexivity.
Qed.

Lemma assigned_severity_set (msg : string) :
  no_severity (Some (assigned_severity msg)) = false.
Proof.
  unfold assigned_severity.
  destruct (category_of msg) as [[]|]; reflexivity.
Qed.

(** Every diagnostic leaves the wrapper with a code, a source and a
    severity; what it came with is kept, and only what was missing (or
    empty, or zero) is written; the range and the message are not touched;
    the wrapper never raises, and a second pass changes nothing. *)
Theorem published_diagnostic_is_completed (diagnostic : PublishedDiagnostic.t) :
  exists sent,
    enhance diagnostic = Ok sent
    /\ no_code (PublishedDiagnostic.code sent) = false
    /\ no_source (PublishedDiagnostic.source sent) = false
    /\ no_severity (PublishedDiagnostic.severity sent) = false
    /\ PublishedDiagnostic.range sent = PublishedDiagnostic.range diagnostic
    /\ PublishedDiagnostic.message sent = PublishedDiagnostic.message diagnostic
    /\ (no_code (PublishedDiagnostic.code diagnostic) = false ->
        PublishedDiagnostic.code sent = PublishedDiagnostic.code diagnostic)
    /\ (no_source (PublishedDiagnostic.source diagnostic) = false ->
        PublishedDiagnostic.source sent = PublishedDiagnostic.source diagnostic)
    /\ (no_severity (PublishedDiagnostic.severity diagnostic) = false ->
        PublishedDiagnostic.severity sent
        = PublishedDiagnostic.severity diagnostic)
    /\ enhance sent = Ok sent.
Proof.
  eexists. split; [apply enhance_closed|].
  destruct diagnostic as [range message code source severity].
  cbn [PublishedDiagnostic.message PublishedDiagnostic.code
       PublishedDiagnostic.source PublishedDiagnostic.severity
       PublishedDiagnostic.range].
  assert (Hcode : no_code (if no_code code
                           then Some (CodeString (assigned_code message))
                           else code) = false).
  { destruct (no_code code) eqn:H; [|exact H].
    destruct (assigned_code_head message) as [rest ->]. reflexivity. }
  assert (Hsource : no_source (if no_source source then Some "SysY+"
                               else source) = false).
  { destruct (no_source source) eqn:H; [reflexivity|exact H]. }
  assert (Hseverity : no_severity (if no_severity severity
                                   then Some (assigned_severity message)
                                   else severity) = false).
  { destruct (no_severity severity) eqn:H; [|exact H].
    apply assigned_severity_set. }
  repeat split; try assumption.
  - intros ->. reflexivity.
  - intros ->. reflexivity.
  - intros ->. reflexivity.
  - rewrite enhance_closed.
    cbn [PublishedDiagnostic.message PublishedDiagnostic.code
         PublishedDiagnostic.source PublishedDiagnostic.severity
         PublishedDiagnostic.range].
    rewrite Hcode, Hsource, Hseverity. reflexivity.
Qed.

(** The severity that the wrapper writes is Warning exactly for a message
    that is not empty and contains no key of the table of the error message
    provider, and Error otherwise; it is Warning exactly when enrichment
    leaves the message as it is. *)
Theorem written_severity (diagnostic : PublishedDiagnostic.t) :
  no_severity (PublishedDiagnostic.severity diagnostic) = true ->
  exists sent,
    enhance diagnostic = Ok sent
    /\ (PublishedDiagnostic.severity sent = Some DiagnosticSeverity.Warning
        \/ PublishedDiagnostic.severity sent = Some DiagnosticSeverity.Error)
    /\ (PublishedDiagnostic.severity sent = Some DiagnosticSeverity.Warning <->
        falsy (PublishedDiagnostic.message diagnostic) = false
        /\ forall key info,
             In (key, info) ERROR_DETAILS ->
             includes (PublishedDiagnostic.message diagnostic) key = false).
Proof.
  intros Hnone. eexists. split; [apply enhance_closed|].
  cbn [PublishedDiagnostic.severity]. rewrite Hnone.
  unfold assigned_severity, category_of.
  destruct (falsy (PublishedDiagnostic.message diagnostic)) eqn:Hmsg.
  - split; [right; reflexivity|]. split; [discriminate|]. intros [H _]. discriminate H.
  - destruct (exact_pass _ ERROR_DETAILS) as [info|] eqn:Hpass.
    + destruct (exact_pass_In _ _ _ Hpass) as (key & Hin & Hkey).
      pose proof (proj1 (List.Forall_forall _ _) categories_of_table _ Hin)
        as Hcat.
      cbn [snd] in Hcat.
      split; [destruct (category info); auto|].
      split.
      * destruct (category info); try discriminate. contradiction.
      * intros [_ H]. rewrite (H _ _ Hin) in Hkey. discriminate Hkey.
    + split; [left; reflexivity|]. split; [|reflexivity].
      intros _. split; [reflexivity|].
      intros key info Hin.
      destruct (includes _ key) eqn:Hkey; [|reflexivity].
      exfalso. revert Hpass. clear -Hin Hkey.
      induction ERROR_DETAILS as [|[k i] table IH]; [contradiction|].
      cbn [exact_pass]. destruct Hin as [[= -> ->]|Hin].
      -- rewrite Hkey. discriminate.
      -- destruct (includes _ k); [discriminate|]. apply IH, Hin.
Qed.

(** A code that the wrapper writes is no key of the registry of the
    resolvers: for a diagnostic that came without a code, the quick fixes are
    looked up by the texts that its message contains. *)
Theorem written_code_is_not_registered
  (diagnostic : PublishedDiagnostic.t)
  (getOrCreateDocument : string -> outcome TextDocument.t)
  (document : TextDocument.t) :
  no_code (PublishedDiagnostic.code diagnostic) = true ->
  exists sent code,
    enhance diagnostic = Ok sent
    /\ PublishedDiagnostic.code sent = Some (CodeString code)
    /\ String.prefix "SYSY-" code = true
    /\ Map_get (codeToFix (new_SysyQuickFixProvider getOrCreateDocument)) code
       = None
    /\ createCodeActionsForDiagnostic
         (new_SysyQuickFixProvider getOrCreateDocument) (toLsp sent) document
       = by_message (new_SysyQuickFixProvider getOrCreateDocument)
           (diagnosticMessageToFix
              (new_SysyQuickFixProvider getOrCreateDocument))
           (toLsp sent) document.
Proof.
  intros Hnone. eexists. exists (assigned_code (PublishedDiagnostic.message diagnostic)).
  split; [apply enhance_closed|].
  cbn [PublishedDiagnostic.code]. rewrite Hnone.
  split; [reflexivity|].
  assert (Hprefix : String.prefix "SYSY-"
                      (assigned_code (PublishedDiagnostic.message diagnostic))
                    = true).
  { assert (H : exists tail,
                assigned_code (PublishedDiagnostic.message diagnostic)
                = "SYSY-" +:+ tail).
    { unfold assigned_code.
      destruct (category_of _) as [[]|], (getErrorCode _);
        eexists; reflexivity. }
    destruct H as [tail ->]. apply prefix_append. }
  split; [exact Hprefix|].
  destruct (assigned_code_head (PublishedDiagnostic.message diagnostic))
    as [rest Hrest].
  assert (Hget : Map_get
                   (codeToFix (new_SysyQuickFixProvider getOrCreateDocument))
                   (assigned_code (PublishedDiagnostic.message diagnostic))
                 = None).
  { rewrite code_bindings_registered, Hrest. apply no_binding_for_prefix. }
  split; [exact Hget|].
  unfold createCodeActionsForDiagnostic, toLsp.
  cbn [getDiagnosticCode LspDiagnostic.code PublishedDiagnostic.code].
  rewrite Hget.
  destruct (negb (falsy _)); reflexivity.
Qed.
Lemma written_severity_witness :
  no_severity
    (PublishedDiagnostic.severity
       (PublishedDiagnostic.mk (Range.mk (Position.mk 0 0) (Position.mk 0 1))
          "syntax error" None None None)) = true
  /\ exists sent,
       enhance
         (PublishedDiagnostic.mk
            (Range.mk (Position.mk 0 0) (Position.mk 0 1))
            "syntax error" None None None) = Ok sent
       /\ (PublishedDiagnostic.severity sent = Some DiagnosticSeverity.Warning
           \/ PublishedDiagnostic.severity sent
              = Some DiagnosticSeverity.Error)
       /\ (PublishedDiagnostic.severity sent
           = Some DiagnosticSeverity.Warning <->
           falsy "syntax error" = false
           /\ forall key info,
                In (key, info) ERROR_DETAILS ->
                includes "syntax error" key = false).
Proof.
  split; [reflexivity|].
  apply (written_severity
           (PublishedDiagnostic.mk
              (Range.mk (Position.mk 0 0) (Position.mk 0 1))
              "syntax error" None None None)).
  reflexivity.
Defined.

Lemma written_code_is_not_registered_witness :
  no_code
    (PublishedDiagnostic.code
       (PublishedDiagnostic.mk (Range.mk (Position.mk 0 0) (Position.mk 0 1))
          "未声明的变量 x" None None None)) = true
  /\ exists sent code,
       enhance
         (PublishedDiagnostic.mk
            (Range.mk (Position.mk 0 0) (Position.mk 0 1))
            "未声明的变量 x" None None None) = Ok sent
       /\ PublishedDiagnostic.code sent = Some (CodeString code)
       /\ String.prefix "SYSY-" code = true
       /\ Map_get (codeToFix (new_SysyQuickFixProvider (fun _ => Throw TypeError)))
            code = None
       /\ createCodeActionsForDiagnostic
            (new_SysyQuickFixProvider (fun _ => Throw TypeError)) (toLsp sent)
            (TextDocument.mk "file:///a.sy" "x = 1;")
          = by_message (new_SysyQuickFixProvider (fun _ => Throw TypeError))
              (diagnosticMessageToFix
                 (new_SysyQuickFixProvider (fun _ => Throw TypeError)))
              (toLsp sent) (TextDocument.mk "file:///a.sy" "x = 1;").
Proof.
  split; [reflexivity|].
  apply (written_code_is_not_registered
           (PublishedDiagnostic.mk
              (Range.mk (Position.mk 0 0) (Position.mk 0 1))
              "未声明的变量 x" None None None)
           (fun _ => Throw TypeError)
           (TextDocument.mk "file:///a.sy" "x = 1;")).
  reflexivity.
Defined.

End ServerFacts.

(** ** The node under the cursor and the hover texts *)

Section HoverTarget.
Import HoverRequest.
Context {A : Type}.

(** [first_covering offset children child]: [child] is the first of the
    children whose text covers the offset. *)
Inductive first_covering (offset : nat) : list (Node A) -> Node A -> Prop :=
| first_here child rest :
    covers offset child = true ->
    first_covering offset (child :: rest) child
| first_later other rest child :
    covers offset other = false ->
    first_covering offset rest child ->
    first_covering offset (other :: rest) child.

(** [descent offset node target]: going down from [node], each time into
    the first child that covers the offset, ends at [target], none of whose
    children covers the offset. *)
Inductive descent (offset : nat) : Node A -> Node A -> Prop :=
| descent_stop node :
    existsb (covers offset) (streamChildren node) = false ->
    descent offset node node
| descent_down node child target :
    first_covering offset (streamChildren node) child ->
    descent offset child target ->
    descent offset node target.

Lemma Node_nested_ind (P : Node A -> Prop) :
  (forall value cst children, Forall P children ->
     P (mkNode value cst children)) ->
  forall node, P node.
Proof.
  intros H. fix rec 1. intros [value cst children]. apply H.
  induction children as [|child rest IH]; constructor; [apply rec|exact IH].
Qed.

Lemma first_covering_unique offset children c1 c2 :
  first_covering offset children c1 -> first_covering offset children c2 ->
  c1 = c2.
Proof.
  intros H1. revert c2. induction H1 as [child rest Hc|other rest child Hc _ IH];
    intros c2 H2; inversion H2; subst; try congruence.
  apply IH. assumption.
Qed.

Lemma first_covering_exists offset children child :
  first_covering offset children child ->
  existsb (covers offset) children = true.
Proof.
  induction 1 as [child rest Hc|other rest child Hc _ IH]; cbn.
  - rewrite Hc. reflexivity.
  - rewrite Hc. exact IH.
Qed.

(** The loop of the search, as a function of what it gives at the end. *)
Lemma search_loop offset (children : list (Node A)) :
  (existsb (covers offset) children = false
   /\ (fix for_of (children : list (Node A)) : option (Node A) :=
         match children with
         | [] => None
         | child :: rest =>
             if covers offset child then
               match getNodeAtPosition2 child offset with
               | Some deeperNode => Some deeperNode
               | None => Some child
               end
             else for_of rest
         end) children = None)
  \/ (exists child,
        first_covering offset children child
        /\ (fix for_of (children : list (Node A)) : option (Node A) :=
              match children with
              | [] => None
              | child :: rest =>
                  if covers offset child then
                    match getNodeAtPosition2 child offset with
                    | Some deeperNode => Some deeperNode
                    | None => Some child
                    end
                  else for_of rest
              end) children
           = Some (default child (getNodeAtPosition2 child offset))).
Proof.
  induction children as [|child rest IH]; [left; split; reflexivity|].
  cbn [existsb]. destruct (covers offset child) eqn:Hc.
  - right. exists child. split; [constructor; exact Hc|].
    destruct (getNodeAtPosition2 child offset); reflexivity.
  - destruct IH as [[Hnone Hloop]|(c & Hfirst & Hloop)].
    + left. split; assumption.
    + right. exists c. split; [constructor; assumption|exact Hloop].
Qed.

Lemma getNodeAtPosition2_descent offset (node : Node A) :
  match getNodeAtPosition2 node offset with
  | Some target =>
      exists child,
        first_covering offset (streamChildren node) child
        /\ descent offset child target
  | None => existsb (covers offset) (streamChildren node) = false
  end.
Proof.
  induction node as [value cst children IH] using Node_nested_ind.
  cbn [getNodeAtPosition2 streamChildren].
  destruct (search_loop offset children) as [[Hnone ->]|(child & Hfirst & ->)];
    [exact Hnone|].
  exists child. split; [exact Hfirst|].
  assert (Hchild : In child children).
  { clear -Hfirst. induction Hfirst; [left; reflexivity|right; assumption]. }
  pose proof (proj1 (List.Forall_forall _ _) IH _ Hchild) as IHchild.
  cbv beta in IHchild. revert IHchild.
  destruct (getNodeAtPosition2 child offset) as [deeper|]; cbn [default].
  - intros (c & Hc & Hd). eapply descent_down; eassumption.
  - intros Hnone. apply descent_stop, Hnone.
Qed.

Lemma getNodeAtPosition_default (rootNode : Node A) offset :
  getNodeAtPosition rootNode offset =
  default rootNode (getNodeAtPosition2 rootNode offset).
Proof.
  destruct rootNode as [value cst children].
  unfold getNodeAtPosition. cbn [streamChildren getNodeAtPosition2].
  generalize (mkNode value cst children) as root. intros root.
  induction children as [|child rest IH]; [reflexivity|].
  destruct (covers offset child); [|exact IH].
  destruct (getNodeAtPosition2 child offset); reflexivity.
Qed.

Lemma descent_unique offset (node t1 t2 : Node A) :
  descent offset node t1 -> descent offset node t2 -> t1 = t2.
Proof.
  intros H1. revert t2.
  induction H1 as [node Hnone|node child target Hfirst _ IH]; intros t2 H2.
  - inversion H2 as [|? c ? Hf]; subst; [reflexivity|].
    apply first_covering_exists in Hf. congruence.
  - inversion H2 as [? Hnone|? c ? Hf Hd]; subst.
    + apply first_covering_exists in Hfirst. congruence.
    + rewrite (first_covering_unique _ _ _ _ Hfirst Hf) in IH. apply IH, Hd.
Qed.

(** The node under the cursor is the end of the descent from the root that
    goes, each time, into the first child whose text covers the offset (both
    ends included): the search gives the root itself when none of its
    children covers the offset, and otherwise a node that covers the offset
    and none of whose children does. *)
Theorem node_under_cursor (rootNode : Node A) (offset : nat) :
  (forall target,
     getNodeAtPosition rootNode offset = target <->
     descent offset rootNode target)
  /\ existsb (covers offset)
       (streamChildren (getNodeAtPosition rootNode offset)) = false
  /\ (getNodeAtPosition2 rootNode offset = None ->
      getNodeAtPosition rootNode offset = rootNode)
  /\ (forall target,
       getNodeAtPosition2 rootNode offset = Some target ->
       getNodeAtPosition rootNode offset = target
       /\ covers offset target = true).
Proof.
  assert (Hdescent : descent offset rootNode (getNodeAtPosition rootNode offset)).
  { rewrite getNodeAtPosition_default.
    pose proof (getNodeAtPosition2_descent offset rootNode) as H.
    destruct (getNodeAtPosition2 rootNode offset) as [target|]; cbn [default].
    - destruct H as (child & Hfirst & Hd). eapply descent_down; eassumption.
    - apply descent_stop, H. }
  assert (Hend : forall node target,
             descent offset node target ->
             existsb (covers offset) (streamChildren target) = false).
  { intros node target H. induction H; assumption. }
  assert (Hcovers : forall node child target,
             first_covering offset (streamChildren node) child ->
             descent offset child target -> covers offset target = true).
  { intros node child target Hfirst Hd. revert node Hfirst.
    induction Hd as [n Hnone|n c t Hf _ IH]; intros node Hfirst.
    - clear -Hfirst. induction Hfirst; assumption.
    - eapply IH, Hf. }
  refine (conj _ (conj _ (conj _ _))).
  - intros target. split.
    + intros <-. exact Hdescent.
    + intros H. eapply descent_unique; eassumption.
  - eapply Hend, Hdescent.
  - intros H. rewrite getNodeAtPosition_default, H. reflexivity.
  - intros target H. rewrite getNodeAtPosition_default, H. cbn [default].
    split; [reflexivity|].
    pose proof (getNodeAtPosition2_descent offset rootNode) as H2.
    rewrite H in H2. destruct H2 as (child & Hfirst & Hd).
    eapply Hcovers; eassumption.
Qed.

End HoverTarget.

Section HoverTexts.
Import JS SysyHoverProvider HoverRequest.

(** The hover on a variable definition and the hover on a use of the
    variable show the same type whenever the declaration of the variable
    carries a type other than the text for an unknown type. *)
Theorem definition_and_use_agree (node : VarDef.t) (container : Container.t)
  (btype : string) :
  VarDef.container node = Some container ->
  Container.btype container = Some btype ->
  String.eqb btype UNKNOWN_TYPE = false ->
  varDefType node = variableType node
  /\ varDefType node = (if is_special_name (VarDef.name node) then "int"
                        else btype).
Proof.
  intros Hcontainer Hbtype Hknown.
  unfold varDefType, variableType. rewrite Hcontainer, Hbtype, Hknown.
  split; reflexivity.
Qed.

Lemma definition_and_use_agree_witness :
  VarDef.container
    (VarDef.mk "x" [] [] (Some (Container.mk (Some "float") None)) None None)
  = Some (Container.mk (Some "float") None)
  /\ Container.btype (Container.mk (Some "float") None) = Some "float"
  /\ String.eqb "float" UNKNOWN_TYPE = false
  /\ varDefType
       (VarDef.mk "x" [] [] (Some (Container.mk (Some "float") None)) None None)
     = variableType
         (VarDef.mk "x" [] [] (Some (Container.mk (Some "float") None)) None
            None)
  /\ varDefType
       (VarDef.mk "x" [] [] (Some (Container.mk (Some "float") None)) None None)
     = (if is_special_name "x" then "int" else "float").
Proof.
  split; [reflexivity|]. split; [reflexivity|]. split; [reflexivity|].
  apply (definition_and_use_agree
           (VarDef.mk "x" [] [] (Some (Container.mk (Some "float") None)) None
              None)
           (Container.mk (Some "float") None) "float"); reflexivity.
Defined.

(** The hover on a parameter is the hover on a use of that parameter,
    followed by the name of the function that the parameter belongs to, when
    there is one among its containers. *)
Theorem parameter_and_use_agree (param : FuncFParam.t)
  (containers : list AstNode) (use : VariableLVal.t) :
  ref (VariableLVal.value use) = Some (TParam param) ->
  exists content,
    buildVariableHoverContent use = Some content
    /\ buildFuncParamHoverContent param containers =
       content +:+
       match findParentFunction containers with
       | Some funcDef => LF +:+ LF +:+ "所属函数: " +:+ FuncDef.name funcDef
       | None => EmptyString
       end.
Proof.
  intros Href. unfold buildVariableHoverContent, buildFuncParamHoverContent.
  rewrite Href. eexists. split; [reflexivity|].
  fold (is_array_param param).
  destruct (is_array_param param), (findParentFunction containers);
    rewrite ?append_assoc, ?append_empty_r; reflexivity.
Qed.
Lemma parameter_and_use_agree_witness :
  ref (VariableLVal.value
         (VariableLVal.mk
            (mkReference (Some (TParam (FuncFParam.mk "int" "n" (Some "int n"))))
               "n")))
  = Some (TParam (FuncFParam.mk "int" "n" (Some "int n")))
  /\ exists content,
       buildVariableHoverContent
         (VariableLVal.mk
            (mkReference (Some (TParam (FuncFParam.mk "int" "n" (Some "int n"))))
               "n"))
       = Some content
       /\ buildFuncParamHoverContent (FuncFParam.mk "int" "n" (Some "int n"))
            [NFuncDef (FuncDef.mk "int" "f"
                         [FuncFParam.mk "int" "n" (Some "int n")] (Block []))]
          = content +:+
            match
              findParentFunction
                [NFuncDef (FuncDef.mk "int" "f"
                             [FuncFParam.mk "int" "n" (Some "int n")]
                             (Block []))]
            with
            | Some funcDef => LF +:+ LF +:+ "所属函数: " +:+ FuncDef.name funcDef
            | None => EmptyString
            end.
Proof.
  split; [reflexivity|].
  apply (parameter_and_use_agree (FuncFParam.mk "int" "n" (Some "int n"))
           [NFuncDef (FuncDef.mk "int" "f"
                        [FuncFParam.mk "int" "n" (Some "int n")] (Block []))]
           (VariableLVal.mk
              (mkReference
                 (Some (TParam (FuncFParam.mk "int" "n" (Some "int n"))))
                 "n"))).
  reflexivity.
Defined.

End HoverTexts.

(** ** Matching a text that is known in part *)

Section RegexFacts.
Import Regex.

(** Every character of the text satisfies the test. *)
Fixpoint all_chars (p : ascii -> bool) (w : string) : bool :=
  match w with
  | EmptyString => true
  | String c w' => p c && all_chars p w'
  end.

(** The text is empty or its first character fails the test. *)
Definition stops (p : ascii -> bool) (rest : string) : bool :=
  match rest with
  | EmptyString => true
  | String c _ => negb (p c)
  end.

(** The loop of a starred pattern, by its fuel. *)
Definition star_loop {T : Type} (r' : regex)
  (k : nat -> string -> captures -> option T)
  : nat -> nat -> string -> captures -> option T :=
  fix star (fuel : nat) (pos : nat) (s : string) (caps : captures)
    {struct fuel} : option T :=
    match fuel with
    | O => k pos s caps
    | S fuel' =>
        match run r' pos s caps
                (fun pos' s' caps' =>
                   if (pos <? pos')%nat then star fuel' pos' s' caps'
                   else None) with
        | Some t => Some t
        | None => k pos s caps
        end
    end.

Lemma run_Star {T : Type} r' pos s caps (k : nat -> string -> captures -> option T) :
  run (Star r') pos s caps k = star_loop r' k (S (String.length s)) pos s caps.
Proof. reflexivity. Qed.

Lemma run_Seq {T : Type} r1 r2 pos s caps
  (k : nat -> string -> captures -> option T) :
  run (Seq r1 r2) pos s caps k =
  run r1 pos s caps (fun pos' s' caps' => run r2 pos' s' caps' k).
Proof. reflexivity. Qed.

Lemma run_Group {T : Type} i r pos s caps
  (k : nat -> string -> captures -> option T) :
  run (Group i r) pos s caps k =
  run r pos s caps
    (fun pos' s' caps' =>
       k pos' s' ((i, String.substring 0 (pos' - pos) s) :: caps')).
Proof. reflexivity. Qed.

Lemma run_Char {T : Type} c pos s caps
  (k : nat -> string -> captures -> option T) :
  run (Char c) pos (String c s) caps k = k (S pos) s caps.
Proof. cbn [run]. rewrite Ascii.eqb_refl. reflexivity. Qed.

Lemma run_Str {T : Type} p :
  forall pos rest caps (k : nat -> string -> captures -> option T),
    run (Str p) pos (p +:+ rest) caps k = k (pos + String.length p) rest caps.
Proof.
  induction p as [|c p IH]; intros pos rest caps k.
  - cbn. rewrite Nat.add_0_r. reflexivity.
  - rewrite append_cons. cbn [Str]. rewrite run_Seq, run_Char, IH.
    cbn [String.length]. f_equal. lia.
Qed.

(** A greedy class loop over a text of the class, up to a character that is
    not of the class: it goes on exactly there when the rest of the pattern
    matches there. *)
Lemma star_class {T : Type} negated items
  (k : nat -> string -> captures -> option T) (w : string) :
  forall fuel pos rest caps v,
    String.length w <= fuel ->
    all_chars (class_matches negated items) w = true ->
    stops (class_matches negated items) rest = true ->
    k (pos + String.length w) rest caps = Some v ->
    star_loop (Class negated items) k fuel pos (w +:+ rest) caps = Some v.
Proof.
  induction w as [|c w IH]; intros fuel pos rest caps v Hfuel Hall Hstop Hk.
  - cbn [String.length] in Hk. rewrite Nat.add_0_r in Hk.
    change ("" +:+ rest) with rest.
    destruct fuel as [|fuel]; [exact Hk|].
    cbn [star_loop run].
    destruct rest as [|d rest]; [exact Hk|].
    cbn [stops] in Hstop. apply negb_true_iff in Hstop. rewrite Hstop. exact Hk.
  - cbn [all_chars] in Hall. apply andb_prop in Hall. destruct Hall as [Hc Hall].
    destruct fuel as [|fuel]; [cbn in Hfuel; lia|].
    rewrite append_cons. cbn [star_loop run]. rewrite Hc.
    assert (Hlt : (pos <? S pos)%nat = true) by (apply Nat.ltb_lt; lia).
    rewrite Hlt.
    fold (star_loop (Class negated items) k).
    rewrite (IH fuel (S pos) rest caps v); [reflexivity| |exact Hall|exact Hstop|].
    + cbn in Hfuel. lia.
    + rewrite <- Hk. f_equal. cbn [String.length]. lia.
Qed.

Lemma run_Star_class {T : Type} negated items
  (k : nat -> string -> captures -> option T) w pos rest caps v :
  all_chars (class_matches negated items) w = true ->
  stops (class_matches negated items) rest = true ->
  k (pos + String.length w) rest caps = Some v ->
  run (Star (Class negated items)) pos (w +:+ rest) caps k = Some v.
Proof.
  intros Hall Hstop Hk. rewrite run_Star. apply star_class; try assumption.
  rewrite length_append. lia.
Qed.

Lemma run_Plus_class {T : Type} negated items
  (k : nat -> string -> captures -> option T) w pos rest caps v :
  w <> EmptyString ->
  all_chars (class_matches negated items) w = true ->
  stops (class_matches negated items) rest = true ->
  k (pos + String.length w) rest caps = Some v ->
  run (Plus (Class negated items)) pos (w +:+ rest) caps k = Some v.
Proof.
  intros Hw Hall Hstop Hk. destruct w as [|c w]; [contradiction|].
  cbn [all_chars] in Hall. apply andb_prop in Hall. destruct Hall as [Hc Hall].
  unfold Plus. rewrite run_Seq, append_cons. cbn [run]. rewrite Hc.
  apply run_Star_class; try assumption.
  rewrite <- Hk. f_equal. cbn [String.length]. lia.
Qed.

Lemma substring_captured (w rest : string) (pos : nat) :
  String.substring 0 (pos + String.length w - pos) (w +:+ rest) = w.
Proof.
  replace (pos + String.length w - pos) with (String.length w) by lia.
  apply substring_append_prefix.
Qed.

(** A group around a class, one or more times. *)
Lemma run_Group_Plus_class {T : Type} i negated items
  (k : nat -> string -> captures -> option T) w pos rest caps v :
  w <> EmptyString ->
  all_chars (class_matches negated items) w = true ->
  stops (class_matches negated items) rest = true ->
  k (pos + String.length w) rest ((i, w) :: caps) = Some v ->
  run (Group i (Plus (Class negated items))) pos (w +:+ rest) caps k = Some v.
Proof.
  intros Hw Hall Hstop Hk. rewrite run_Group.
  apply run_Plus_class; try assumption.
  rewrite substring_captured. exact Hk.
Qed.

Lemma exec_from_hit r pos s pos' caps :
  run r pos s [] (fun pos' _ caps => Some (pos', caps)) = Some (pos', caps) ->
  exec_from r pos s =
  Some (mkMatch pos (String.substring 0 (pos' - pos) s) caps).
Proof. intros H. destruct s; cbn [exec_from]; rewrite H; reflexivity. Qed.

Lemma exec_from_miss r pos c s :
  run r pos (String c s) [] (fun pos' _ caps => Some (pos', caps)) = None ->
  exec_from r pos (String c s) = exec_from r (S pos) s.
Proof. intros H. cbn [exec_from]. rewrite H. reflexivity. Qed.



Lemma run_Alt_l {T : Type} r1 r2 pos s caps
  (k : nat -> string -> captures -> option T) v :
  run r1 pos s caps k = Some v -> run (Alt r1 r2) pos s caps k = Some v.
Proof. intros H. cbn [run]. rewrite H. reflexivity. Qed.

Lemma run_Str_hit {T : Type} p pos rest caps
  (k : nat -> string -> captures -> option T) v :
  k (pos + String.length p) rest caps = Some v ->
  run (Str p) pos (p +:+ rest) caps k = Some v.
Proof. intros H. rewrite run_Str. exact H. Qed.

Lemma exec_from_found r pos s pos' caps :
  run r pos s [] (fun pos' _ caps => Some (pos', caps)) = Some (pos', caps) ->
  exists m, exec_from r pos s = Some m /\ groups m = caps /\ index m = pos.
Proof.
  intros H. eexists. split; [apply (exec_from_hit _ _ _ _ _ H)|].
  split; reflexivity.
Qed.

(** An identifier: a text of word characters that is not empty. *)
Definition identifier (name : string) : bool :=
  negb (JS.falsy name) && all_chars is_word name.

Lemma all_chars_impl (p q : ascii -> bool) (w : string) :
  (forall c, p c = true -> q c = true) ->
  all_chars p w = true -> all_chars q w = true.
Proof.
  intros Hpq. induction w as [|c w IH]; [reflexivity|].
  cbn [all_chars]. intros H. apply andb_prop in H. destruct H as [Hc H].
  rewrite (Hpq _ Hc), (IH H). reflexivity.
Qed.

Lemma word_not_quote (c : ascii) :
  is_word c = true -> class_matches true [CChar "'"] c = true.
Proof.
  intros H. unfold class_matches. cbn [existsb item_matches].
  destruct (Ascii.eqb c "'") eqn:Hc; [|reflexivity].
  apply Ascii.eqb_eq in Hc. subst c. discriminate H.
Qed.

Lemma word_class (c : ascii) :
  is_word c = true -> class_matches false [CWord] c = true.
Proof. intros H. unfold class_matches. cbn. rewrite H. reflexivity. Qed.

Lemma word_plain (c : ascii) :
  is_word c = true -> is_syntax_character c = false.
Proof.
  intros H. unfold is_syntax_character.
  destruct (existsb (Ascii.eqb c) _) eqn:Hex; [|reflexivity].
  apply existsb_exists in Hex. destruct Hex as (d & Hd & Heq).
  apply Ascii.eqb_eq in Heq. subst d.
  cbn in Hd. repeat (destruct Hd as [<-|Hd]; [discriminate H|]). contradiction.
Qed.

Lemma identifier_parts (name : string) :
  identifier name = true ->
  name <> EmptyString
  /\ JS.falsy name = false
  /\ all_chars (class_matches true [CChar "'"]) name = true
  /\ all_chars (class_matches false [CWord]) name = true
  /\ plain name = true.
Proof.
  unfold identifier. intros H. apply andb_prop in H. destruct H as [Hne Hw].
  apply negb_true_iff in Hne.
  split; [apply falsy_nonempty, Hne|]. split; [exact Hne|].
  split; [exact (all_chars_impl _ _ _ word_not_quote Hw)|].
  split; [exact (all_chars_impl _ _ _ word_class Hw)|].
  clear Hne. induction name as [|c name IH]; [reflexivity|].
  cbn [all_chars] in Hw. apply andb_prop in Hw. destruct Hw as [Hc Hw].
  cbn [plain]. rewrite (word_plain _ Hc), (IH Hw). reflexivity.
Qed.

(** The part that the patterns of the names share: a key, white space, and
    the name between quotes as group 1; [Q] matches from the closing quote
    on. *)
Lemma run_quoted_name {T : Type} key name rest Q pos caps
  (k : nat -> string -> captures -> option T) v :
  name <> EmptyString ->
  all_chars (class_matches true [CChar "'"]) name = true ->
  run Q (S (S (pos + String.length key)) + String.length name)
    (String "'" rest) ((1, name) :: caps) k = Some v ->
  run (Seq (Str key)
         (Seq (Star space)
            (Seq (Char "'") (Seq (Group 1 (Plus (Class true [CChar "'"]))) Q))))
    pos (key +:+ " '" +:+ name +:+ "'" +:+ rest) caps k = Some v.
Proof.
  intros Hname Hquote HQ.
  rewrite run_Seq, run_Str. cbv beta. rewrite run_Seq.
  change (" '" +:+ name +:+ "'" +:+ rest)
    with (" " +:+ String "'" (name +:+ String "'" rest)).
  apply (run_Star_class false [CSpace] _ " "); [reflexivity|reflexivity|].
  rewrite run_Seq, run_Char, run_Seq.
  apply run_Group_Plus_class; [exact Hname|exact Hquote|reflexivity|].
  rewrite <- HQ. f_equal. cbn [String.length]. lia.
Qed.

End RegexFacts.


(** ** From a diagnostic of a check to its quick fix *)

Section RoundTrip.
Import JS Regex SysyQuickFixProvider ErrorMessageProvider.

Lemma duplicate_variable_match name rest :
  identifier name = true ->
  exists m,
    exec DUPLICATE_VARIABLE
      ("无法重新声明块范围变量 '" +:+ name +:+ "'" +:+ rest) = Some m
    /\ groups m = [(1, name)].
Proof.
  intros Hid. destruct (identifier_parts _ Hid) as (Hname & _ & Hquote & _ & _).
  unfold exec.
  edestruct exec_from_found as (m & Hm & Hgroups & _);
    [|exists m; split; [exact Hm|exact Hgroups]].
  unfold DUPLICATE_VARIABLE, quote, not_quote. cbn [seqs].
  apply (run_quoted_name "无法重新声明块范围变量"); [exact Hname|exact Hquote|].
  rewrite run_Char. reflexivity.
Qed.

Lemma duplicate_function_match name rest :
  identifier name = true ->
  exists m,
    exec DUPLICATE_FUNCTION_NAME
      ("函数名 '" +:+ name +:+ "'" +:+ " 已经定义过" +:+ rest) = Some m
    /\ groups m = [(1, name)].
Proof.
  intros Hid. destruct (identifier_parts _ Hid) as (Hname & _ & Hquote & _ & _).
  unfold exec.
  edestruct exec_from_found as (m & Hm & Hgroups & _);
    [|exists m; split; [exact Hm|exact Hgroups]].
  unfold DUPLICATE_FUNCTION_NAME, quote, not_quote. cbn [seqs].
  apply (run_quoted_name "函数名"); [exact Hname|exact Hquote|].
  rewrite run_Seq, run_Char, run_Seq.
  apply (run_Star_class false [CSpace] _ " "); [reflexivity|reflexivity|].
  apply (run_Str_hit "已经定义过"). reflexivity.
Qed.

Lemma undeclared_function_match name rest :
  identifier name = true ->
  exists m,
    exec UNDECLARED_FUNCTION
      ("调用了未定义的函数 '" +:+ name +:+ "'" +:+ rest) = Some m
    /\ groups m = [(1, name)].
Proof.
  intros Hid. destruct (identifier_parts _ Hid) as (Hname & _ & Hquote & _ & _).
  unfold exec.
  edestruct exec_from_found as (m & Hm & Hgroups & _);
    [|exists m; split; [exact Hm|exact Hgroups]].
  unfold UNDECLARED_FUNCTION, quote, not_quote. cbn [seqs].
  apply (run_quoted_name "调用了未定义的函数"); [exact Hname|exact Hquote|].
  rewrite run_Char. reflexivity.
Qed.

Lemma undeclared_variable_match name rest :
  identifier name = true ->
  exists m,
    exec UNDECLARED_VARIABLE
      ("使用了未定义的变量 '" +:+ name +:+ "'" +:+ rest) = Some m
    /\ groups m = [(1, name)].
Proof.
  intros Hid. destruct (identifier_parts _ Hid) as (Hname & _ & Hquote & _ & _).
  unfold exec.
  change ("使用了未定义的变量 '" +:+ name +:+ "'" +:+ rest)
    with ("使用了" +:+ "未定义的变量 '" +:+ name +:+ "'" +:+ rest).
  do 9 (rewrite append_cons, exec_from_miss by reflexivity).
  change ("" +:+ "未定义的变量 '" +:+ name +:+ "'" +:+ rest)
    with ("未定义的变量" +:+ " '" +:+ name +:+ "'" +:+ rest).
  edestruct exec_from_found as (m & Hm & Hgroups & _);
    [|exists m; split; [exact Hm|exact Hgroups]].
  unfold UNDECLARED_VARIABLE, quote, not_quote. cbn [seqs].
  apply run_Alt_l.
  apply (run_quoted_name "未定义的变量"); [exact Hname|exact Hquote|].
  rewrite run_Char. reflexivity.
Qed.


(** The message of a reported error starts with the raw message. *)
Lemma enriched_message (msg : string) :
  falsy msg = false -> exists tail, enriched msg = msg +:+ tail.
Proof. apply enriched_appends. Qed.

Lemma first_group (m : match_result) (name : string) :
  groups m = [(1, name)] -> group m 1 = Some name.
Proof. unfold group. intros ->. reflexivity. Qed.

(** The engine on one diagnostic whose code has a resolver that gives an
    action, with one additional fix, and without a selection. *)
Lemma getCodeActions_two (getOrCreateDocument : string -> outcome TextDocument.t)
  (document : TextDocument.t) (diagnostic : LspDiagnostic.t) (p : Position.t)
  (uri code : string) (resolver : QuickFixResolver)
  (action : CodeAction.t) (additional : list (option CodeAction.t)) :
  getOrCreateDocument uri = Ok document ->
  getDiagnosticCode diagnostic = Some code ->
  falsy code = false ->
  Map_get code_bindings code = Some resolver ->
  resolver diagnostic document = Ok (Some action) ->
  createAdditionalFixes (new_SysyQuickFixProvider getOrCreateDocument) code
    diagnostic document = Ok additional ->
  getCodeActions (new_SysyQuickFixProvider getOrCreateDocument)
    (CodeActionParams.mk uri (Range.mk p p) [diagnostic])
  = Ok (action :: defined additional).
Proof.
  intros Hdoc Hcode Hfalsy Hget Hresolver Hadditional.
  unfold getCodeActions, getCodeActions_body.
  cbn [CodeActionParams.uri CodeActionParams.diagnostics CodeActionParams.range].
  assert (Hprovider :
            SysyQuickFixProvider.getOrCreateDocument
              (new_SysyQuickFixProvider getOrCreateDocument) uri
            = Ok document) by exact Hdoc.
  unfold step, call. rewrite Hprovider.
  cbn [for_each_diagnostic]. unfold step.
  unfold createCodeActionsForDiagnostic at 1.
  rewrite Hcode, Hfalsy. cbn [negb].
  rewrite code_bindings_registered, Hget.
  unfold step, call. rewrite Hresolver.
  unfold push_with_additional, step, call, push. rewrite Hadditional.
  unfold done_.
  assert (Hsel : has_selection
                   (CodeActionParams.mk uri (Range.mk p p) [diagnostic])
                 = false).
  { unfold has_selection. cbn. rewrite !Nat.eqb_refl. reflexivity. }
  rewrite Hsel. reflexivity.
Qed.

(** The message of a reported use of an unknown variable, and what the
    resolvers find in it. *)
Lemma undeclared_variable_name name :
  identifier name = true ->
  JS.or_opt
    (exec UNDECLARED_VARIABLE (enriched ("使用了未定义的变量 '" +:+ name +:+ "'。"))
       ≫= fun m => group m 1)
    (exec UNDECLARED_VARIABLE (enriched ("使用了未定义的变量 '" +:+ name +:+ "'。"))
       ≫= fun m => group m 2)
  = Some name.
Proof.
  intros Hid.
  destruct (enriched_message ("使用了未定义的变量 '" +:+ name +:+ "'。"))
    as [tail ->]; [reflexivity|].
  destruct (undeclared_variable_match name ("。" +:+ tail) Hid)
    as (m & Hm & Hgroups).
  replace (("使用了未定义的变量 '" +:+ name +:+ "'。") +:+ tail)
    with ("使用了未定义的变量 '" +:+ name +:+ "'" +:+ "。" +:+ tail).
  2:{ rewrite !append_assoc. reflexivity. }
  rewrite Hm. cbn [mbind option_bind]. rewrite (first_group _ _ Hgroups).
  destruct (identifier_parts _ Hid) as (_ & Hfalsy & _).
  cbn [or_opt]. rewrite Hfalsy. reflexivity.
Qed.

(** The two actions for a variable that is not declared. *)
Definition declare_before (name : string) (diagnostic : LspDiagnostic.t)
  (document : TextDocument.t) : CodeAction.t :=
  edit_action ("声明变量 '" +:+ name +:+ "'") diagnostic document
    (at_position (Position.mk (start_line diagnostic) 0))
    ("int " +:+ name +:+ " = 0;" +:+ LF +:+
     JS.repeat " "
       (Position.character (Range.start (LspDiagnostic.range diagnostic)))).

Definition declare_globally (name : string) (diagnostic : LspDiagnostic.t)
  (document : TextDocument.t) : CodeAction.t :=
  edit_action ("在全局作用域声明变量 '" +:+ name +:+ "'") diagnostic document
    (at_position (Position.mk 0 0))
    ("int " +:+ name +:+ " = 0;" +:+ LF +:+ LF).

(** From the check to the quick fix.  For a use of a name that did not
    resolve, the name being an identifier, the check reports one
    UNDEFINED_VARIABLE diagnostic, and the resolvers read the name back from
    its message: one declares the variable on the line of the diagnostic,
    before it, followed by as many spaces as the column of the diagnostic;
    the other declares it at the start of the document; a request for that
    diagnostic alone, without a selection, gives these two actions. *)
Theorem undeclared_variable_round_trip (lval : VariableLVal.t)
  (range : Range.t) (document : TextDocument.t) (cursor : Position.t) :
  ref (VariableLVal.value lval) = None ->
  identifier (refText (VariableLVal.value lval)) = true ->
  exists d,
    DeclValidator.checkVariableDeclared lval = Ok [d]
    /\ Diagnostic.code d = Some ERROR_CODES.UNDEFINED_VARIABLE
    /\ createUndeclaredVarFix (toDiagnostic range d) document =
       Ok (Some (declare_before (refText (VariableLVal.value lval))
                   (toDiagnostic range d) document))
    /\ createGlobalVarDeclarationFix (toDiagnostic range d) document =
       Ok (Some (declare_globally (refText (VariableLVal.value lval))
                   (toDiagnostic range d) document))
    /\ getCodeActions
         (new_SysyQuickFixProvider (fun _ => Ok document))
         (CodeActionParams.mk (TextDocument.uri document)
            (Range.mk cursor cursor) [toDiagnostic range d])
       = Ok [ declare_before (refText (VariableLVal.value lval))
                (toDiagnostic range d) document;
              declare_globally (refText (VariableLVal.value lval))
                (toDiagnostic range d) document ].
Proof.
  intros Href Hid.
  unfold DeclValidator.checkVariableDeclared. rewrite Href, accept_error_one.
  eexists. split; [reflexivity|]. split; [reflexivity|].
  set (name := refText (VariableLVal.value lval)) in *.
  set (d := Diagnostic.mk _ _ _ _ _ _).
  assert (Hfirst : createUndeclaredVarFix (toDiagnostic range d) document =
                   Ok (Some (declare_before name (toDiagnostic range d)
                               document))).
  { unfold createUndeclaredVarFix.
    cbn [toDiagnostic LspDiagnostic.message Diagnostic.message d].
    rewrite (undeclared_variable_name name Hid).
    destruct (identifier_parts _ Hid) as (_ & -> & _). reflexivity. }
  assert (Hsecond : createGlobalVarDeclarationFix (toDiagnostic range d)
                      document =
                    Ok (Some (declare_globally name (toDiagnostic range d)
                                document))).
  { unfold createGlobalVarDeclarationFix.
    cbn [toDiagnostic LspDiagnostic.message Diagnostic.message d].
    rewrite (undeclared_variable_name name Hid).
    destruct (identifier_parts _ Hid) as (_ & -> & _). reflexivity. }
  split; [exact Hfirst|]. split; [exact Hsecond|].
  eapply (getCodeActions_two (fun _ => Ok document) document
            (toDiagnostic range d) cursor (TextDocument.uri document)
            ERROR_CODES.UNDEFINED_VARIABLE createUndeclaredVarFix _
            [Some _]).
  - reflexivity.
  - reflexivity.
  - reflexivity.
  - reflexivity.
  - exact Hfirst.
  - unfold createAdditionalFixes. rewrite code_bindings_registered.
    change (Map_has code_bindings ERROR_CODES.UNDEFINED_VARIABLE) with true.
    cbn [String.eqb]. unfold one. rewrite Hsecond. reflexivity.
Qed.

(** The use [x = 1;] of a name [x] that is not declared, on line 2. *)
Definition unknown_x : VariableLVal.t := VariableLVal.mk (mkReference None "x").

Definition x_range : Range.t := Range.mk (Position.mk 2 4) (Position.mk 2 5).

Definition x_document : TextDocument.t :=
  TextDocument.mk "file:///x.sy"
    ("int main() {" +:+ LF +:+ "    int a = 0;" +:+ LF +:+ "    x = 1;" +:+ LF
     +:+ "    return a;" +:+ LF +:+ "}" +:+ LF).

Lemma undeclared_variable_round_trip_witness :
  ref (VariableLVal.value unknown_x) = None
  /\ identifier (refText (VariableLVal.value unknown_x)) = true
  /\ exists d,
       DeclValidator.checkVariableDeclared unknown_x = Ok [d]
       /\ Diagnostic.code d = Some ERROR_CODES.UNDEFINED_VARIABLE
       /\ createUndeclaredVarFix (toDiagnostic x_range d) x_document =
          Ok (Some (declare_before "x" (toDiagnostic x_range d) x_document))
       /\ createGlobalVarDeclarationFix (toDiagnostic x_range d) x_document =
          Ok (Some (declare_globally "x" (toDiagnostic x_range d) x_document))
       /\ getCodeActions
            (new_SysyQuickFixProvider (fun _ => Ok x_document))
            (CodeActionParams.mk (TextDocument.uri x_document)
               (Range.mk (Position.mk 2 4) (Position.mk 2 4))
               [toDiagnostic x_range d])
          = Ok [ declare_before "x" (toDiagnostic x_range d) x_document;
                 declare_globally "x" (toDiagnostic x_range d) x_document ].
Proof.
  split; [reflexivity|]. split; [reflexivity|].
  apply (undeclared_variable_round_trip unknown_x x_range x_document
           (Position.mk 2 4)); reflexivity.
Defined.

(** The rename of a definition that repeats a name.  The check's diagnostic
    for a definition whose name is an identifier gives, through its
    resolver, the one action that writes the name followed by [_new] over
    the range of the diagnostic; a request for that diagnostic alone,
    without a selection, gives this action only. *)
Theorem duplicate_definition_round_trip (d : Def) (range : Range.t)
  (document : TextDocument.t) (cursor : Position.t) :
  identifier (Def_name d) = true ->
  DeclValidator.duplicate_declaration d =
    Ok [duplicate_declaration_diagnostic d]
  /\ createRenameDuplicateVarFix
       (toDiagnostic range (duplicate_declaration_diagnostic d)) document =
     Ok (Some
           (edit_action ("重命名变量为 '" +:+ Def_name d +:+ "_new" +:+ "'")
              (toDiagnostic range (duplicate_declaration_diagnostic d))
              document range (Def_name d +:+ "_new")))
  /\ getCodeActions
       (new_SysyQuickFixProvider (fun _ => Ok document))
       (CodeActionParams.mk (TextDocument.uri document)
          (Range.mk cursor cursor)
          [toDiagnostic range (duplicate_declaration_diagnostic d)])
     = Ok [ edit_action ("重命名变量为 '" +:+ Def_name d +:+ "_new" +:+ "'")
              (toDiagnostic range (duplicate_declaration_diagnostic d))
              document range (Def_name d +:+ "_new") ].
Proof.
  intros Hid.
  split; [unfold DeclValidator.duplicate_declaration;
          rewrite accept_error_one; reflexivity|].
  set (diagnostic := toDiagnostic range (duplicate_declaration_diagnostic d)).
  assert (Hfix : createRenameDuplicateVarFix diagnostic document =
                 Ok (Some
                       (edit_action
                          ("重命名变量为 '" +:+ Def_name d +:+ "_new" +:+ "'")
                          diagnostic document range (Def_name d +:+ "_new")))).
  { unfold createRenameDuplicateVarFix.
    cbn [diagnostic toDiagnostic LspDiagnostic.message Diagnostic.message
         duplicate_declaration_diagnostic].
    destruct (enriched_message ("无法重新声明块范围变量 '" +:+ Def_name d +:+ "'。"))
      as [tail ->]; [reflexivity|].
    destruct (duplicate_variable_match (Def_name d) ("。" +:+ tail) Hid)
      as (m & Hm & Hgroups).
    replace (("无法重新声明块范围变量 '" +:+ Def_name d +:+ "'。") +:+ tail)
      with ("无法重新声明块范围变量 '" +:+ Def_name d +:+ "'" +:+ "。" +:+ tail)
      by (rewrite !append_assoc; reflexivity).
    rewrite Hm. cbn [mbind option_bind]. rewrite (first_group _ _ Hgroups).
    destruct (identifier_parts _ Hid) as (_ & -> & _).
    rewrite append_assoc. reflexivity. }
  split; [exact Hfix|].
  eapply (getCodeActions_two (fun _ => Ok document) document diagnostic cursor
            (TextDocument.uri document) ERROR_CODES.DUPLICATE_DECLARATION
            createRenameDuplicateVarFix _ []).
  - reflexivity.
  - reflexivity.
  - reflexivity.
  - reflexivity.
  - exact Hfix.
  - unfold createAdditionalFixes. rewrite code_bindings_registered.
    reflexivity.
Qed.

Lemma duplicate_definition_round_trip_witness :
  identifier (Def_name (DConst (ConstDef.mk "a" None))) = true
  /\ createRenameDuplicateVarFix
       (toDiagnostic x_range
          (duplicate_declaration_diagnostic (DConst (ConstDef.mk "a" None))))
       x_document =
     Ok (Some
           (edit_action "重命名变量为 'a_new'"
              (toDiagnostic x_range
                 (duplicate_declaration_diagnostic
                    (DConst (ConstDef.mk "a" None))))
              x_document x_range "a_new")).
Proof.
  split; [reflexivity|].
  apply (proj1 (proj2 (duplicate_definition_round_trip
                         (DConst (ConstDef.mk "a" None)) x_range x_document
                         (Position.mk 0 0) eq_refl))).
Defined.

(** The rename of a function that repeats a name. *)
Theorem duplicate_function_round_trip (func : FuncDef.t) (range : Range.t)
  (document : TextDocument.t) (cursor : Position.t) :
  identifier (FuncDef.name func) = true ->
  FuncValidator.duplicate_function func =
    Ok [duplicate_function_diagnostic func]
  /\ createRenameDuplicateFuncFix
       (toDiagnostic range (duplicate_function_diagnostic func)) document =
     Ok (Some
           (edit_action
              ("重命名函数为 '" +:+ FuncDef.name func +:+ "_new" +:+ "'")
              (toDiagnostic range (duplicate_function_diagnostic func))
              document range (FuncDef.name func +:+ "_new")))
  /\ getCodeActions
       (new_SysyQuickFixProvider (fun _ => Ok document))
       (CodeActionParams.mk (TextDocument.uri document)
          (Range.mk cursor cursor)
          [toDiagnostic range (duplicate_function_diagnostic func)])
     = Ok [ edit_action
              ("重命名函数为 '" +:+ FuncDef.name func +:+ "_new" +:+ "'")
              (toDiagnostic range (duplicate_function_diagnostic func))
              document range (FuncDef.name func +:+ "_new") ].
Proof.
  intros Hid.
  split; [unfold FuncValidator.duplicate_function;
          rewrite accept_error_one; reflexivity|].
  set (diagnostic := toDiagnostic range (duplicate_function_diagnostic func)).
  assert (Hfix : createRenameDuplicateFuncFix diagnostic document =
                 Ok (Some
                       (edit_action
                          ("重命名函数为 '" +:+ FuncDef.name func +:+ "_new"
                           +:+ "'")
                          diagnostic document range
                          (FuncDef.name func +:+ "_new")))).
  { unfold createRenameDuplicateFuncFix.
    cbn [diagnostic toDiagnostic LspDiagnostic.message Diagnostic.message
         duplicate_function_diagnostic].
    destruct (enriched_message ("函数名 '" +:+ FuncDef.name func +:+ "' 已经定义过。"))
      as [tail ->]; [reflexivity|].
    destruct (duplicate_function_match (FuncDef.name func) ("。" +:+ tail) Hid)
      as (m & Hm & Hgroups).
    replace (("函数名 '" +:+ FuncDef.name func +:+ "' 已经定义过。") +:+ tail)
      with ("函数名 '" +:+ FuncDef.name func +:+ "'" +:+ " 已经定义过" +:+ "。"
            +:+ tail)
      by (rewrite !append_assoc; reflexivity).
    rewrite Hm. cbn [mbind option_bind]. rewrite (first_group _ _ Hgroups).
    destruct (identifier_parts _ Hid) as (_ & -> & _).
    rewrite append_assoc. reflexivity. }
  split; [exact Hfix|].
  eapply (getCodeActions_two (fun _ => Ok document) document diagnostic cursor
            (TextDocument.uri document) ERROR_CODES.DUPLICATE_FUNCTION
            createRenameDuplicateFuncFix _ []).
  - reflexivity.
  - reflexivity.
  - reflexivity.
  - reflexivity.
  - exact Hfix.
  - unfold createAdditionalFixes. rewrite code_bindings_registered.
    reflexivity.
Qed.

Lemma duplicate_function_round_trip_witness :
  identifier (FuncDef.name (FuncDef.mk "int" "f" [] (Block []))) = true
  /\ createRenameDuplicateFuncFix
       (toDiagnostic x_range
          (duplicate_function_diagnostic (FuncDef.mk "int" "f" [] (Block []))))
       x_document =
     Ok (Some
           (edit_action "重命名函数为 'f_new'"
              (toDiagnostic x_range
                 (duplicate_function_diagnostic
                    (FuncDef.mk "int" "f" [] (Block []))))
              x_document x_range "f_new")).
Proof.
  split; [reflexivity|].
  apply (proj1 (proj2 (duplicate_function_round_trip
                         (FuncDef.mk "int" "f" [] (Block [])) x_range
                         x_document (Position.mk 0 0) eq_refl))).
Defined.

(** The stub that is offered for a call of an unknown function. *)
Definition function_stub (funcName : string) (parameters : nat) : string :=
  LF +:+ "// 自动生成的函数声明" +:+ LF +:+ "int " +:+ funcName +:+ "(" +:+
  JS.join ", " (paramDefs_from 0 parameters) +:+ ") {" +:+ LF +:+
  "    // 实现函数体" +:+ LF +:+ "    return 0;" +:+ LF +:+ "}" +:+ LF.

(** For a call of a name that did not resolve, the name being an
    identifier, the check reports one UNDEFINED_FUNCTION diagnostic, and its
    resolver reads the name back from the message and offers a stub of that
    name with [int] parameters [param1], [param2], ..., inserted after the
    last line of the document, whatever the line of the diagnostic holds. *)
Theorem undefined_function_round_trip (funcCall : FunctionCall.t)
  (range : Range.t) (document : TextDocument.t) :
  ref (FunctionCall.funcname funcCall) = None ->
  identifier (refText (FunctionCall.funcname funcCall)) = true ->
  exists d parameters,
    FuncValidator.checkFunctionDeclared funcCall = Ok [d]
    /\ Diagnostic.code d = Some ERROR_CODES.UNDEFINED_FUNCTION
    /\ createUndeclaredFuncFix (toDiagnostic range d) document =
       Ok (Some
             (edit_action
                ("声明函数 '" +:+ refText (FunctionCall.funcname funcCall) +:+
                 "'")
                (toDiagnostic range d) document
                (at_position (Position.mk (TextDocument.lineCount document) 0))
                (function_stub (refText (FunctionCall.funcname funcCall))
                   parameters))).
Proof.
  intros Href Hid.
  unfold FuncValidator.checkFunctionDeclared. rewrite Href, accept_error_one.
  set (name := refText (FunctionCall.funcname funcCall)) in *.
  eexists.
  exists (length
            match
              exec
                (Seq (Str name)
                   (seqs [Star space; Char "(";
                          Group 1 (Star (Class true [CChar ")"])); Char ")"]))
                (TextDocument.getLine document
                   (Position.line (Range.start range)))
              ≫= fun m => group m 1
            with
            | Some text =>
                filter (fun p => negb (falsy p)) (map trim (split "," text))
            | None => []
            end).
  split; [reflexivity|]. split; [reflexivity|].
  unfold createUndeclaredFuncFix.
  cbn [toDiagnostic LspDiagnostic.message Diagnostic.message].
  destruct (enriched_message ("调用了未定义的函数 '" +:+ name +:+ "'。"))
    as [tail ->]; [reflexivity|].
  destruct (undeclared_function_match name ("。" +:+ tail) Hid)
    as (m & Hm & Hgroups).
  replace (("调用了未定义的函数 '" +:+ name +:+ "'。") +:+ tail)
    with ("调用了未定义的函数 '" +:+ name +:+ "'" +:+ "。" +:+ tail)
    by (rewrite !append_assoc; reflexivity).
  rewrite Hm. cbn [mbind option_bind]. rewrite (first_group _ _ Hgroups).
  destruct (identifier_parts _ Hid) as (_ & Hfalsy & _ & _ & Hplain).
  rewrite Hfalsy. unfold RegExp. rewrite Hplain. cbn [bind].
  reflexivity.
Qed.

Lemma undefined_function_round_trip_witness :
  ref (FunctionCall.funcname (FunctionCall.mk (mkReference None "g"))) = None
  /\ identifier
       (refText (FunctionCall.funcname (FunctionCall.mk (mkReference None "g"))))
     = true
  /\ exists d parameters,
       FuncValidator.checkFunctionDeclared
         (FunctionCall.mk (mkReference None "g")) = Ok [d]
       /\ Diagnostic.code d = Some ERROR_CODES.UNDEFINED_FUNCTION
       /\ createUndeclaredFuncFix (toDiagnostic x_range d) x_document =
          Ok (Some
                (edit_action "声明函数 'g'" (toDiagnostic x_range d) x_document
                   (at_position
                      (Position.mk (TextDocument.lineCount x_document) 0))
                   (function_stub "g" parameters))).
Proof.
  split; [reflexivity|]. split; [reflexivity|].
  apply (undefined_function_round_trip
           (FunctionCall.mk (mkReference None "g")) x_range x_document);
    reflexivity.
Defined.

(** *** The counts of a mismatch *)

Lemma digits_uint (d : Decimal.uint) :
  forall a : nat,
    digits_prefix (NilEmpty.string_of_uint d) (Some (Z.of_nat a)) =
    Some (Z.of_nat (Nat.of_uint_acc d a)).
Proof.
  induction d as [|d IH|d IH|d IH|d IH|d IH|d IH|d IH|d IH|d IH|d IH];
    intros a; [reflexivity|..];
    cbn [NilEmpty.string_of_uint digits_prefix Nat.of_uint_acc];
    match goal with
    | |- context [digit_value ?c] =>
        let v := eval vm_compute in (digit_value c) in
        change (digit_value c) with v
    end;
    cbv iota; rewrite <- IH; do 2 f_equal; rewrite Nat.tail_mul_spec; lia.
Qed.

Lemma digits_uint_first (d : Decimal.uint) :
  d <> Decimal.Nil ->
  digits_prefix (NilEmpty.string_of_uint d) None =
  Some (Z.of_nat (Nat.of_uint d)).
Proof.
  unfold Nat.of_uint.
  destruct d as [|d|d|d|d|d|d|d|d|d|d]; intros H; [contradiction|..];
    cbn [NilEmpty.string_of_uint digits_prefix Nat.of_uint_acc];
    match goal with
    | |- context [digit_value ?c] =>
        let v := eval vm_compute in (digit_value c) in
        change (digit_value c) with v
    end;
    cbv iota; rewrite <- digits_uint; reflexivity.
Qed.

Lemma parseInt_string_of_nat (n : nat) :
  parseInt (string_of_nat n) = Some (Z.of_nat n).
Proof.
  unfold string_of_nat.
  rewrite <- (DecimalNat.Unsigned.of_to n) at 2.
  destruct (Nat.to_uint n) as [|d|d|d|d|d|d|d|d|d|d] eqn:Hd;
    [reflexivity|..];
    (unfold parseInt; cbn [NilZero.string_of_uint NilEmpty.string_of_uint
                           skip_white];
     match goal with
     | |- context [NilEmpty.string_of_uint ?x] =>
         match goal with
         | |- _ = Some (Z.of_nat (Nat.of_uint ?y)) =>
             rewrite <- (digits_uint_first y) by discriminate
         end
     end; reflexivity).
Qed.

Lemma digits_of_uint (d : Decimal.uint) :
  all_chars is_digit (NilEmpty.string_of_uint d) = true.
Proof. induction d; cbn [NilEmpty.string_of_uint all_chars]; auto. Qed.

Lemma digits_of_nat (n : nat) :
  string_of_nat n <> EmptyString
  /\ all_chars (class_matches false [CDigit]) (string_of_nat n) = true.
Proof.
  unfold string_of_nat.
  assert (Hclass : forall w, all_chars is_digit w = true ->
                     all_chars (class_matches false [CDigit]) w = true).
  { intros w. apply all_chars_impl. intros c Hc.
    unfold class_matches. cbn. rewrite Hc. reflexivity. }
  destruct (Nat.to_uint n) as [|d|d|d|d|d|d|d|d|d|d];
    (split; [discriminate|]); apply Hclass;
    try reflexivity; apply (digits_of_uint (_ d)).
Qed.

Lemma stops_at_digits (w rest : string) :
  w <> EmptyString ->
  all_chars (class_matches false [CDigit]) w = true ->
  stops (class_matches false [CSpace]) (w +:+ rest) = true.
Proof.
  destruct w as [|c w]; [contradiction|]. intros _ H.
  cbn [all_chars] in H. apply andb_prop in H. destruct H as [Hc _].
  rewrite append_cons. cbn [stops]. apply negb_true_iff.
  unfold class_matches in *. cbn [existsb item_matches xorb orb] in *.
  rewrite orb_false_r in *. unfold is_digit in Hc. unfold is_space.
  apply andb_prop in Hc. destruct Hc as [Hlo Hhi].
  apply Nat.leb_le in Hlo. apply Nat.leb_le in Hhi.
  apply orb_false_iff. split.
  - apply andb_false_iff. right. apply Nat.leb_gt. lia.
  - apply Nat.eqb_neq. lia.
Qed.

Lemma parameter_counts_message (n m : nat) (tail : string) :
  parameter_counts
    (("参数个数不匹配。预期 " +:+ string_of_nat n +:+
      " 个参数，但实际调用时传递了 " +:+ string_of_nat m +:+ " 个参数。") +:+ tail)
  = Some (Z.of_nat n, Z.of_nat m).
Proof.
  destruct (digits_of_nat n) as [Hn Hdn], (digits_of_nat m) as [Hm Hdm].
  unfold parameter_counts, exec.
  replace (("参数个数不匹配。预期 " +:+ string_of_nat n +:+
            " 个参数，但实际调用时传递了 " +:+ string_of_nat m +:+ " 个参数。")
           +:+ tail)
    with ("参数个数不匹配。预期" +:+ " " +:+ string_of_nat n +:+ " " +:+
          "个参数，但实际调用时传递了" +:+ " " +:+ string_of_nat m +:+ " " +:+
          "个参数" +:+ "。" +:+ tail)
    by (rewrite !append_assoc; reflexivity).
  erewrite exec_from_hit.
  2:{ unfold PARAMETER_COUNTS. cbn [seqs].
      rewrite run_Seq. apply (run_Str_hit "参数个数不匹配。预期").
      rewrite run_Seq.
      apply (run_Star_class false [CSpace] _ " ");
        [reflexivity|apply stops_at_digits; assumption|].
      rewrite run_Seq.
      apply run_Group_Plus_class; [exact Hn|exact Hdn|reflexivity|].
      rewrite run_Seq.
      apply (run_Star_class false [CSpace] _ " "); [reflexivity|reflexivity|].
      rewrite run_Seq. apply (run_Str_hit "个参数，但实际调用时传递了").
      rewrite run_Seq.
      apply (run_Star_class false [CSpace] _ " ");
        [reflexivity|apply stops_at_digits; assumption|].
      rewrite run_Seq.
      apply run_Group_Plus_class; [exact Hm|exact Hdm|reflexivity|].
      rewrite run_Seq.
      apply (run_Star_class false [CSpace] _ " "); [reflexivity|reflexivity|].
      apply (run_Str_hit "个参数"). reflexivity. }
  unfold group. cbn [groups capture Nat.eqb mbind option_bind].
  rewrite !parseInt_string_of_nat. reflexivity.
Qed.

(** The number of the parameters that a call expects. *)
Definition declared_count (func : FuncRParams.t) : nat :=
  match ref (FuncRParams.funcname func) with
  | Some funcDef => length (FuncDef.funcFparam funcDef)
  | None => 0
  end.

(** From the check of the number of arguments to its quick fix.  A call
    whose number of arguments differs from the number of parameters of the
    function (none, when the name did not resolve) reports one
    PARAMETER_MISMATCH diagnostic; its resolver reads the two numbers back
    from the message, printed in base ten, and offers the command
    [sysy.adjustParameters] with the number of parameters of the function:
    as the removal of arguments when there are too many, and otherwise as the
    addition of as many arguments as are missing. *)
Theorem parameter_mismatch_round_trip (func : FuncRParams.t)
  (range : Range.t) (document : TextDocument.t) :
  declared_count func <> length (FuncRParams.funcRparams func) ->
  exists d,
    FuncValidator.checkFunctionParameterMismatch func = Ok [d]
    /\ Diagnostic.code d = Some ERROR_CODES.PARAMETER_MISMATCH
    /\ parameter_counts (Diagnostic.message d) =
       Some (Z.of_nat (declared_count func),
             Z.of_nat (length (FuncRParams.funcRparams func)))
    /\ createParameterMismatchFix (toDiagnostic range d) document =
       Ok (Some
             (command_action
                (if (declared_count func
                     <? length (FuncRParams.funcRparams func))%nat
                 then "移除多余的参数"
                 else "添加" +:+
                      string_of_Z
                        (Z.of_nat (declared_count func)
                         - Z.of_nat (length (FuncRParams.funcRparams func)))
                      +:+ "个缺少的参数")
                (toDiagnostic range d)
                (Command.create "修复参数数量" "sysy.adjustParameters"
                   [ AString (TextDocument.uri document);
                     ARange range;
                     ANumber (Z.of_nat (declared_count func)) ]))).
Proof.
  intros Hcount.
  assert (Hdeclared :
            length match option_map FuncDef.funcFparam
                           (ref (FuncRParams.funcname func)) with
                   | Some ps => map FuncFParam.cstText ps
                   | None => []
                   end = declared_count func).
  { unfold declared_count. destruct (ref (FuncRParams.funcname func));
      [apply length_map|reflexivity]. }
  unfold FuncValidator.checkFunctionParameterMismatch.
  rewrite Hdeclared. apply Nat.eqb_neq in Hcount. rewrite Hcount.
  cbn [negb]. rewrite accept_error_one.
  eexists. split; [reflexivity|]. split; [reflexivity|].
  cbn [Diagnostic.message].
  destruct (enriched_message
              ("参数个数不匹配。预期 " +:+ string_of_nat (declared_count func) +:+
               " 个参数，但实际调用时传递了 " +:+
               string_of_nat (length (FuncRParams.funcRparams func)) +:+
               " 个参数。")) as [tail Htail]; [reflexivity|].
  rewrite Htail.
  split; [apply parameter_counts_message|].
  unfold createParameterMismatchFix.
  cbn [toDiagnostic LspDiagnostic.message Diagnostic.message].
  rewrite parameter_counts_message.
  destruct (declared_count func <? length (FuncRParams.funcRparams func))%nat
    eqn:Hlt.
  - apply Nat.ltb_lt in Hlt.
    assert (Hz : (Z.of_nat (declared_count func)
                  <? Z.of_nat (length (FuncRParams.funcRparams func)))%Z = true)
      by (apply Z.ltb_lt; lia).
    rewrite Hz. reflexivity.
  - apply Nat.ltb_ge in Hlt.
    assert (Hz : (Z.of_nat (declared_count func)
                  <? Z.of_nat (length (FuncRParams.funcRparams func)))%Z = false)
      by (apply Z.ltb_ge; lia).
    rewrite Hz. reflexivity.
Qed.

(** A call with two arguments of a name that did not resolve. *)
Definition two_for_none : FuncRParams.t :=
  FuncRParams.mk (mkReference None "g") [Exp.mk (Some "1"); Exp.mk (Some "2")].

Lemma parameter_mismatch_round_trip_witness :
  declared_count two_for_none <> length (FuncRParams.funcRparams two_for_none)
  /\ exists d,
       FuncValidator.checkFunctionParameterMismatch two_for_none = Ok [d]
       /\ Diagnostic.code d = Some ERROR_CODES.PARAMETER_MISMATCH
       /\ parameter_counts (Diagnostic.message d) = Some (0%Z, 2%Z)
       /\ createParameterMismatchFix (toDiagnostic x_range d) x_document =
          Ok (Some
                (command_action "移除多余的参数" (toDiagnostic x_range d)
                   (Command.create "修复参数数量" "sysy.adjustParameters"
                      [ AString "file:///x.sy"; ARange x_range; ANumber 0 ]))).
Proof.
  assert (H : declared_count two_for_none
              <> length (FuncRParams.funcRparams two_for_none)).
  { unfold declared_count. simpl. lia. }
  split; [exact H|].
  apply (parameter_mismatch_round_trip two_for_none x_range x_document H).
Defined.

(** *** The return type of a function without a return statement *)

Lemma stops_at_word (w rest : string) :
  w <> EmptyString ->
  all_chars (class_matches false [CWord]) w = true ->
  stops (class_matches false [CSpace]) (w +:+ rest) = true.
Proof.
  destruct w as [|c w]; [contradiction|]. intros _ H.
  cbn [all_chars] in H. apply andb_prop in H. destruct H as [Hc _].
  rewrite append_cons. cbn [stops]. apply negb_true_iff.
  unfold class_matches in *. cbn [existsb item_matches xorb orb] in *.
  rewrite orb_false_r in *.
  destruct (is_space c) eqn:Hspace; [|reflexivity].
  exfalso. unfold is_space in Hspace. unfold is_word, is_digit in Hc.
  destruct (Nat.eq_dec (nat_of_ascii c) 32) as [H32|H32].
  - rewrite H32 in Hc. discriminate Hc.
  - apply Nat.eqb_neq in H32. rewrite H32, orb_false_r in Hspace.
    apply andb_prop in Hspace. destruct Hspace as [Hlo Hhi].
    apply Nat.leb_le in Hlo. apply Nat.leb_le in Hhi.
    repeat (apply orb_prop in Hc; destruct Hc as [Hc|Hc]);
      try (apply andb_prop in Hc; destruct Hc as [Ha Hb];
           apply Nat.leb_le in Ha; apply Nat.leb_le in Hb; lia).
    apply Nat.eqb_eq in Hc. lia.
Qed.

Lemma missing_return_type (returnType tail : string) :
  identifier returnType = true ->
  returnType_of MISSING_RETURN_TYPE
    (("有返回值: " +:+ returnType +:+ " 的函数缺少 return 语句。") +:+ tail)
  = returnType.
Proof.
  intros Hid.
  destruct (identifier_parts _ Hid) as (Hname & Hfalsy & _ & Hword & _).
  unfold returnType_of, exec.
  replace (("有返回值: " +:+ returnType +:+ " 的函数缺少 return 语句。") +:+ tail)
    with ("有返回值:" +:+ " " +:+ returnType +:+ " " +:+ "的函数缺少" +:+
          " return 语句。" +:+ tail)
    by (rewrite !append_assoc; reflexivity).
  erewrite exec_from_hit.
  2:{ unfold MISSING_RETURN_TYPE. cbn [seqs].
      rewrite run_Seq. apply (run_Str_hit "有返回值:").
      rewrite run_Seq.
      apply (run_Star_class false [CSpace] _ " ");
        [reflexivity|apply stops_at_word; assumption|].
      rewrite run_Seq.
      apply run_Group_Plus_class; [exact Hname|exact Hword|reflexivity|].
      rewrite run_Seq.
      apply (run_Star_class false [CSpace] _ " "); [reflexivity|reflexivity|].
      apply (run_Str_hit "的函数缺少"). reflexivity. }
  unfold group. cbn [groups capture Nat.eqb mbind option_bind or_opt].
  rewrite Hfalsy. reflexivity.
Qed.

Lemma createAppendReturnFix_outcome diagnostic document :
  createAppendReturnFix diagnostic document <> Unmodelled.
Proof.
  unfold createAppendReturnFix.
  destruct (find_end_line _ _ _) as [[|previous]|]; try discriminate.
  destruct (nth_error _ previous); discriminate.
Qed.

(** The engine on one diagnostic whose additional fix raises: the action of
    the resolver is in the array already. *)
Lemma getCodeActions_raised
  (getOrCreateDocument : string -> outcome TextDocument.t)
  (document : TextDocument.t) (diagnostic : LspDiagnostic.t) (p : Position.t)
  (uri code : string) (resolver : QuickFixResolver)
  (action : CodeAction.t) (e : exn) :
  getOrCreateDocument uri = Ok document ->
  getDiagnosticCode diagnostic = Some code ->
  falsy code = false ->
  Map_get code_bindings code = Some resolver ->
  resolver diagnostic document = Ok (Some action) ->
  createAdditionalFixes (new_SysyQuickFixProvider getOrCreateDocument) code
    diagnostic document = Throw e ->
  getCodeActions (new_SysyQuickFixProvider getOrCreateDocument)
    (CodeActionParams.mk uri (Range.mk p p) [diagnostic])
  = Ok [action].
Proof.
  intros Hdoc Hcode Hfalsy Hget Hresolver Hadditional.
  unfold getCodeActions, getCodeActions_body.
  cbn [CodeActionParams.uri CodeActionParams.diagnostics CodeActionParams.range].
  assert (Hprovider :
            SysyQuickFixProvider.getOrCreateDocument
              (new_SysyQuickFixProvider getOrCreateDocument) uri
            = Ok document) by exact Hdoc.
  unfold step, call. rewrite Hprovider.
  cbn [for_each_diagnostic]. unfold step.
  unfold createCodeActionsForDiagnostic at 1.
  rewrite Hcode, Hfalsy. cbn [negb].
  rewrite code_bindings_registered, Hget.
  unfold step, call. rewrite Hresolver.
  unfold push_with_additional, step, call, push. rewrite Hadditional.
  reflexivity.
Qed.

(** From the check of the return statements to its quick fix.  A function
    whose return type is an identifier other than [void] and whose statement
    list has no return statement reports one MISSING_RETURN diagnostic; its
    resolver reads the return type back from the message and offers the
    command [sysy.addReturnStatement] with that type; in a request for that
    diagnostic alone, without a selection, this command is the first action,
    followed by at most one more. *)
Theorem missing_return_round_trip (func : FuncDef.t) (range : Range.t)
  (document : TextDocument.t) (cursor : Position.t) :
  identifier (FuncDef.functype func) = true ->
  String.eqb (FuncDef.functype func) "void" = false ->
  top_level_returns (top_level_items func) = [] ->
  FuncValidator.checkFunctionReturnType func =
    Ok [missing_return_diagnostic func]
  /\ createMissingReturnFix
       (toDiagnostic range (missing_return_diagnostic func)) document =
     Ok (Some
           (command_action "添加 return 语句"
              (toDiagnostic range (missing_return_diagnostic func))
              (Command.create "添加 return 语句" "sysy.addReturnStatement"
                 [ AString (TextDocument.uri document);
                   ARange range;
                   AString (FuncDef.functype func) ])))
  /\ exists more,
       length more <= 1
       /\ getCodeActions
            (new_SysyQuickFixProvider (fun _ => Ok document))
            (CodeActionParams.mk (TextDocument.uri document)
               (Range.mk cursor cursor)
               [toDiagnostic range (missing_return_diagnostic func)])
          = Ok (command_action "添加 return 语句"
                  (toDiagnostic range (missing_return_diagnostic func))
                  (Command.create "添加 return 语句" "sysy.addReturnStatement"
                     [ AString (TextDocument.uri document);
                       ARange range;
                       AString (FuncDef.functype func) ])
                :: more).
Proof.
  intros Hid Hvoid Hreturns.
  assert (Hcheck : FuncValidator.checkFunctionReturnType func =
                   Ok [missing_return_diagnostic func]).
  { unfold FuncValidator.checkFunctionReturnType.
    assert (Hscan :
              match blockItems_of (FuncDef.block func) with
              | Some blockItems =>
                  FuncValidator.scan_returns blockItems
                    (false, FuncValidator.Null)
              | None => (false, FuncValidator.Null)
              end = (false, FuncValidator.Null)).
    { unfold top_level_items in Hreturns.
      destruct (blockItems_of (FuncDef.block func)) as [blockItems|];
        [|reflexivity].
      change (top_level_returns blockItems = []) in Hreturns.
      rewrite scan_returns_last, Hreturns.
      reflexivity. }
    rewrite Hscan, Hvoid. cbn [negb andb]. rewrite accept_error_one.
    reflexivity. }
  split; [exact Hcheck|].
  set (diagnostic := toDiagnostic range (missing_return_diagnostic func)).
  assert (Hfix : createMissingReturnFix diagnostic document =
                 Ok (Some
                       (command_action "添加 return 语句" diagnostic
                          (Command.create "添加 return 语句"
                             "sysy.addReturnStatement"
                             [ AString (TextDocument.uri document);
                               ARange range;
                               AString (FuncDef.functype func) ])))).
  { unfold createMissingReturnFix.
    cbn [diagnostic toDiagnostic LspDiagnostic.message Diagnostic.message
         missing_return_diagnostic LspDiagnostic.range].
    destruct (enriched_message
                ("有返回值: " +:+ FuncDef.functype func +:+
                 " 的函数缺少 return 语句。")) as [tail ->]; [reflexivity|].
    rewrite (missing_return_type _ tail Hid). reflexivity. }
  split; [exact Hfix|].
  assert (Hadditional :
            createAdditionalFixes
              (new_SysyQuickFixProvider (fun _ => Ok document))
              ERROR_CODES.MISSING_RETURN diagnostic document
            = one (createAppendReturnFix diagnostic document)).
  { unfold createAdditionalFixes. rewrite code_bindings_registered.
    reflexivity. }
  pose proof (createAppendReturnFix_outcome diagnostic document) as Hout.
  destruct (createAppendReturnFix diagnostic document) as [appended|e|] eqn:Ha;
    [| |contradiction].
  - exists (defined [appended]). split; [destruct appended; cbn; lia|].
    eapply (getCodeActions_two (fun _ => Ok document) document diagnostic
              cursor (TextDocument.uri document) ERROR_CODES.MISSING_RETURN
              createMissingReturnFix _ [appended]);
      try reflexivity; [exact Hfix|exact Hadditional].
  - exists []. split; [cbn; lia|].
    eapply (getCodeActions_raised (fun _ => Ok document) document diagnostic
              cursor (TextDocument.uri document) ERROR_CODES.MISSING_RETURN
              createMissingReturnFix _ e);
      try reflexivity; [exact Hfix|exact Hadditional].
Qed.

Lemma missing_return_round_trip_witness :
  identifier (FuncDef.functype (FuncDef.mk "int" "f" [] (Block []))) = true
  /\ String.eqb (FuncDef.functype (FuncDef.mk "int" "f" [] (Block []))) "void"
     = false
  /\ top_level_returns (top_level_items (FuncDef.mk "int" "f" [] (Block [])))
     = []
  /\ createMissingReturnFix
       (toDiagnostic x_range
          (missing_return_diagnostic (FuncDef.mk "int" "f" [] (Block []))))
       x_document =
     Ok (Some
           (command_action "添加 return 语句"
              (toDiagnostic x_range
                 (missing_return_diagnostic
                    (FuncDef.mk "int" "f" [] (Block []))))
              (Command.create "添加 return 语句" "sysy.addReturnStatement"
                 [ AString "file:///x.sy"; ARange x_range; AString "int" ]))).
Proof.
  split; [reflexivity|]. split; [reflexivity|]. split; [reflexivity|].
  apply (proj1 (proj2 (missing_return_round_trip
                         (FuncDef.mk "int" "f" [] (Block [])) x_range
                         x_document (Position.mk 0 0) eq_refl eq_refl
                         eq_refl))).
Defined.
End RoundTrip.

(** ** Texts on which the embedding counts and classifies as the program

    A text of the embedding is a sequence of bytes, and its white space and
    its line ends are those of ASCII.  The program counts UTF-16 code units,
    and its [\s], its [trim] and the end of its [.] also take the white space
    and the line separators outside ASCII.  The two agree on the texts
    below. *)

Section FaithfulTexts.

(** Every character of the text is an ASCII character: a byte of the text is
    a code unit of the program. *)
Definition ascii_text (s : string) : bool :=
  all_chars (fun c => (nat_of_ascii c <? 128)%nat) s.

(** The white space and the line separators outside ASCII, in UTF-8:
    U+00A0, U+1680, U+2000 to U+200A, U+2028, U+2029, U+202F, U+205F, U+3000
    and U+FEFF. *)
Definition wide_spaces : list string :=
  let two (a b : ascii) := String a (String b EmptyString) in
  let three (a b c : ascii) := String a (String b (String c EmptyString)) in
  [ two "194" "160"; three "225" "154" "128";
    three "226" "128" "128"; three "226" "128" "129"; three "226" "128" "130";
    three "226" "128" "131"; three "226" "128" "132"; three "226" "128" "133";
    three "226" "128" "134"; three "226" "128" "135"; three "226" "128" "136";
    three "226" "128" "137"; three "226" "128" "138"; three "226" "128" "168";
    three "226" "128" "169"; three "226" "128" "175"; three "226" "129" "159";
    three "227" "128" "128"; three "239" "187" "191" ]%char.

(** The text holds none of them: its white space is that of ASCII. *)
Definition wide_space_free (s : string) : bool :=
  forallb (fun w => negb (JS.includes s w)) wide_spaces.

End FaithfulTexts.

(** ** Formatting: what [cleanExtraSpaces] leaves of a line *)

Section TrailingSpace.
Import Regex SysyFormattingService.

Lemma all_space_class (w : string) :
  all_chars (class_matches false [CSpace]) w = all_chars JS.is_white w.
Proof.
  induction w as [|c w IH]; [reflexivity|].
  cbn [all_chars]. rewrite IH. f_equal.
  unfold class_matches. cbn [existsb item_matches xorb].
  rewrite orb_false_r. reflexivity.
Qed.

Lemma run_space {T : Type} c s pos caps
  (k : nat -> string -> captures -> option T) :
  run space pos (String c s) caps k =
  if JS.is_white c then k (S pos) s caps else None.
Proof.
  unfold space. cbn [run].
  change (class_matches false [CSpace] c)
    with (xorb false (JS.is_white c || false)).
  cbn [xorb]. rewrite orb_false_r. reflexivity.
Qed.

(** After white space the end of the text: the loop succeeds exactly on a
    text of white space. *)
Lemma star_space_end (w : string) :
  forall fuel pos,
    String.length w <= fuel ->
    star_loop space
      (fun pos' s' caps' =>
         run Eol pos' s' caps' (fun pos'' _ caps'' => Some (pos'', caps'')))
      fuel pos w []
    = if all_chars JS.is_white w then Some (pos + String.length w, [])
      else None.
Proof.
  induction w as [|c w IH]; intros fuel pos Hfuel.
  - cbn [all_chars String.length]. rewrite Nat.add_0_r.
    destruct fuel; reflexivity.
  - destruct fuel as [|fuel]; [cbn in Hfuel; lia|].
    cbn [star_loop all_chars]. rewrite run_space.
    destruct (JS.is_white c); [|reflexivity].
    assert (Hlt : (pos <? S pos)%nat = true) by (apply Nat.ltb_lt; lia).
    rewrite Hlt. cbn [andb].
    fold (star_loop space
            (fun pos' s' caps' =>
               run Eol pos' s' caps'
                 (fun pos'' _ caps'' => Some (pos'', caps'')))).
    rewrite IH by (cbn in Hfuel; lia).
    destruct (all_chars JS.is_white w); [|reflexivity].
    f_equal. f_equal. cbn [String.length]. lia.
Qed.

Lemma run_trailing (s : string) (pos : nat) :
  run TRAILING_SPACE pos s [] (fun pos' _ caps => Some (pos', caps)) =
  match s with
  | EmptyString => None
  | String _ _ =>
      if all_chars JS.is_white s then Some (pos + String.length s, [])
      else None
  end.
Proof.
  unfold TRAILING_SPACE, Plus. rewrite !run_Seq.
  destruct s as [|c s]; [reflexivity|].
  rewrite run_space. cbn [all_chars].
  destruct (JS.is_white c); [|reflexivity].
  rewrite run_Star. cbn [andb].
  rewrite star_space_end by lia.
  destruct (all_chars JS.is_white s); [|reflexivity].
  f_equal. f_equal. cbn [String.length]. lia.
Qed.

Lemma trim_end_empty (s : string) :
  JS.trim_end s = EmptyString <-> all_chars JS.is_white s = true.
Proof.
  induction s as [|c s IH]; [split; reflexivity|].
  cbn [JS.trim_end all_chars].
  destruct (JS.trim_end s) as [|d rest] eqn:Htrim.
  - destruct (JS.is_white c); cbn [andb].
    + split; [intros _; apply IH; reflexivity|reflexivity].
    + split; discriminate.
  - split; [discriminate|]. intros H. apply andb_prop in H.
    destruct H as [_ H]. apply IH in H. discriminate H.
Qed.

Lemma trim_end_cons (c : ascii) (s : string) :
  all_chars JS.is_white (String c s) = false ->
  JS.trim_end (String c s) = String c (JS.trim_end s).
Proof.
  intros H. cbn [JS.trim_end].
  destruct (JS.trim_end s) as [|d rest] eqn:Htrim; [|reflexivity].
  cbn [all_chars] in H. apply (proj1 (trim_end_empty s)) in Htrim.
  rewrite Htrim, andb_true_r in H. rewrite H. reflexivity.
Qed.

(** The first match of the pattern is the white space at the end. *)
Lemma exec_from_trailing (s : string) :
  forall pos,
    exec_from TRAILING_SPACE pos s =
    if (String.length (JS.trim_end s) =? String.length s)%nat then None
    else Some (mkMatch (pos + String.length (JS.trim_end s))
                 (String.substring (String.length (JS.trim_end s))
                    (String.length s - String.length (JS.trim_end s)) s)
                 []).
Proof.
  induction s as [|c s IH]; intros pos; [reflexivity|].
  cbn [exec_from]. rewrite run_trailing.
  destruct (all_chars JS.is_white (String c s)) eqn:Hall.
  - rewrite (proj2 (trim_end_empty _) Hall).
    cbn [String.length Nat.eqb]. rewrite Nat.add_0_r, Nat.sub_0_r.
    replace (pos + S (String.length s) - pos) with (S (String.length s)) by lia.
    reflexivity.
  - rewrite IH, (trim_end_cons _ _ Hall). cbn [String.length Nat.eqb].
    destruct (String.length (JS.trim_end s) =? String.length s)%nat;
      [reflexivity|].
    replace (S pos + String.length (JS.trim_end s))
      with (pos + S (String.length (JS.trim_end s))) by lia.
    reflexivity.
Qed.

Lemma trim_end_split (s : string) :
  String.substring 0 (String.length (JS.trim_end s)) s = JS.trim_end s
  /\ String.length (JS.trim_end s) <= String.length s.
Proof.
  induction s as [|c s [IH Hle]]; [split; [reflexivity|cbn; lia]|].
  destruct (all_chars JS.is_white (String c s)) eqn:Hall.
  - rewrite (proj2 (trim_end_empty _) Hall). split; [reflexivity|cbn; lia].
  - rewrite (trim_end_cons _ _ Hall). cbn [String.length String.substring].
    rewrite IH. split; [reflexivity|lia].
Qed.

Lemma substring_all (s : string) : String.substring 0 (String.length s) s = s.
Proof. induction s as [|c s IH]; [reflexivity|]. cbn. rewrite IH. reflexivity. Qed.

Lemma substring_none (s : string) (n : nat) : String.substring n 0 s = EmptyString.
Proof.
  revert n. induction s as [|c s IH]; intros [|n]; try reflexivity.
  cbn. apply IH.
Qed.

(** Taking the white space at the end away. *)
Lemma replace_trailing (s : string) :
  replace s TRAILING_SPACE EmptyString = JS.trim_end s.
Proof.
  unfold replace, exec. rewrite exec_from_trailing.
  destruct (trim_end_split s) as [Hprefix Hle].
  destruct (String.length (JS.trim_end s) =? String.length s)%nat eqn:Hlen.
  - apply Nat.eqb_eq in Hlen.
    transitivity (String.substring 0 (String.length s) s);
      [symmetry; apply substring_all|].
    rewrite <- Hlen. exact Hprefix.
  - cbn [index matched Nat.add].
    rewrite Hprefix.
    assert (Hm : String.length
                   (String.substring (String.length (JS.trim_end s))
                      (String.length s - String.length (JS.trim_end s)) s)
                 = String.length s - String.length (JS.trim_end s)).
    { clear Hprefix Hlen. revert Hle. generalize (String.length (JS.trim_end s)).
      induction s as [|c s IH]; intros n Hn.
      - cbn in Hn. destruct n; [reflexivity|lia].
      - destruct n as [|n].
        + rewrite Nat.sub_0_r, substring_all. reflexivity.
        + cbn [String.length String.substring Nat.sub]. apply IH.
          cbn in Hn. lia. }
    rewrite Hm.
    replace (String.length s
             - (String.length (JS.trim_end s)
                + (String.length s - String.length (JS.trim_end s)))) with 0
      by lia.
    rewrite substring_none. cbn [String.append].
    apply append_empty_r.
Qed.

End TrailingSpace.

Section CleanExtraSpaces.
Import Regex SysyFormattingService.

Lemma cleanExtraSpaces_trim (line : string) :
  cleanExtraSpaces line = JS.trim_end (pushed line false "000" false).
Proof. apply replace_trailing. Qed.

Lemma trim_end_idem (s : string) : JS.trim_end (JS.trim_end s) = JS.trim_end s.
Proof.
  induction s as [|c s IH]; [reflexivity|].
  destruct (all_chars JS.is_white (String c s)) eqn:Hall.
  - rewrite (proj2 (trim_end_empty _) Hall). reflexivity.
  - rewrite (trim_end_cons _ _ Hall).
    rewrite trim_end_cons; [rewrite IH; reflexivity|].
    cbn [all_chars] in *. destruct (JS.is_white c); [|reflexivity].
    cbn [andb] in *.
    destruct (all_chars JS.is_white (JS.trim_end s)) eqn:H; [|reflexivity].
    apply trim_end_empty in H. rewrite IH in H.
    apply trim_end_empty in H. congruence.
Qed.

(** What is left of a text is a prefix of it. *)
Lemma trim_end_prefix (s : string) :
  exists ws, s = JS.trim_end s +:+ ws.
Proof.
  induction s as [|c s [ws IH]]; [exists ""; reflexivity|].
  destruct (all_chars JS.is_white (String c s)) eqn:Hall.
  - rewrite (proj2 (trim_end_empty _) Hall). exists (String c s). reflexivity.
  - rewrite (trim_end_cons _ _ Hall). exists ws.
    rewrite append_cons, <- IH. reflexivity.
Qed.

(** No character of the text is left out by the loop. *)
Fixpoint kept (line : string) (inString : bool) (stringChar : ascii)
  (lastWasSpace : bool) : bool :=
  match line with
  | EmptyString => true
  | String char rest =>
      if negb inString && (Ascii.eqb char "034" || Ascii.eqb char "'") then
        kept rest true char false
      else if inString && Ascii.eqb char stringChar then
        kept rest false stringChar false
      else if inString then kept rest inString stringChar false
      else if Ascii.eqb char " " then
        negb lastWasSpace && kept rest inString stringChar true
      else kept rest inString stringChar false
  end.

Lemma kept_pushed (line : string) :
  forall inString stringChar lastWasSpace,
    kept line inString stringChar lastWasSpace = true ->
    pushed line inString stringChar lastWasSpace = line.
Proof.
  induction line as [|c line IH]; intros inString stringChar lastWasSpace H;
    [reflexivity|].
  cbn [kept pushed] in *.
  destruct (negb inString && (Ascii.eqb c "034" || Ascii.eqb c "'"));
    [rewrite IH by exact H; reflexivity|].
  destruct (inString && Ascii.eqb c stringChar);
    [rewrite IH by exact H; reflexivity|].
  destruct inString; [rewrite IH by exact H; reflexivity|].
  destruct (Ascii.eqb c " ").
  - apply andb_prop in H. destruct H as [Hlast H]. rewrite Hlast.
    rewrite IH by exact H. reflexivity.
  - rewrite IH by exact H. reflexivity.
Qed.

Lemma pushed_kept (line : string) :
  forall inString stringChar lastWasSpace,
    kept (pushed line inString stringChar lastWasSpace)
      inString stringChar lastWasSpace = true.
Proof.
  induction line as [|c line IH]; intros inString stringChar lastWasSpace;
    [reflexivity|].
  cbn [pushed].
  destruct (negb inString && (Ascii.eqb c "034" || Ascii.eqb c "'")) eqn:H1;
    [cbn [kept]; rewrite H1; apply IH|].
  destruct (inString && Ascii.eqb c stringChar) eqn:H2;
    [cbn [kept]; rewrite H1, H2; apply IH|].
  destruct inString eqn:H3; [cbn [kept]; rewrite H1, H2; apply IH|].
  destruct (Ascii.eqb c " ") eqn:H4.
  - destruct lastWasSpace eqn:H5; cbn [negb].
    + apply IH.
    + cbn [kept]. rewrite H1, H2, H4. cbn [negb andb]. apply IH.
  - cbn [kept]. rewrite H1, H2, H4. apply IH.
Qed.

Lemma kept_prefix (a b : string) :
  forall inString stringChar lastWasSpace,
    kept (a +:+ b) inString stringChar lastWasSpace = true ->
    kept a inString stringChar lastWasSpace = true.
Proof.
  induction a as [|c a IH]; intros inString stringChar lastWasSpace H;
    [reflexivity|].
  rewrite append_cons in H. cbn [kept] in *.
  destruct (negb inString && (Ascii.eqb c "034" || Ascii.eqb c "'"));
    [apply IH, H|].
  destruct (inString && Ascii.eqb c stringChar); [apply IH, H|].
  destruct inString; [apply IH, H|].
  destruct (Ascii.eqb c " "); [|apply IH, H].
  apply andb_prop in H. destruct H as [-> H]. apply IH, H.
Qed.

(** Outside a string and after a space, what the loop pushes does not start
    with a space. *)
Lemma pushed_after_space (line : string) (stringChar : ascii) :
  String.prefix " " (pushed line false stringChar true) = false.
Proof.
  induction line as [|c line IH]; [reflexivity|].
  cbn [pushed negb andb].
  destruct (Ascii.eqb c "034" || Ascii.eqb c "'") eqn:Hquote.
  - cbn [String.prefix]. destruct (ascii_dec " " c) as [<-|]; [|reflexivity].
    discriminate Hquote.
  - destruct (Ascii.eqb c " ") eqn:Hspace; [exact IH|].
    cbn [String.prefix]. destruct (ascii_dec " " c) as [<-|]; [|reflexivity].
    discriminate Hspace.
Qed.

Lemma pushed_start (line : string) :
  String.prefix "  " (pushed line false "000" false) = false.
Proof.
  destruct line as [|c line]; [reflexivity|].
  cbn [pushed negb andb].
  destruct (Ascii.eqb c "034" || Ascii.eqb c "'") eqn:Hquote.
  - cbn [String.prefix]. destruct (ascii_dec " " c) as [<-|]; [|reflexivity].
    discriminate Hquote.
  - destruct (Ascii.eqb c " ") eqn:Hspace.
    + apply Ascii.eqb_eq in Hspace. subst c.
      change (String.prefix " " (pushed line false "000" true) = false).
      apply pushed_after_space.
    + cbn [String.prefix]. destruct (ascii_dec " " c) as [<-|]; [|reflexivity].
      discriminate Hspace.
Qed.

Lemma prefix_of_prefix (p a b : string) :
  String.prefix p a = true -> String.prefix p (a +:+ b) = true.
Proof.
  revert a. induction p as [|c p IH]; intros a H;
    [destruct (a +:+ b); reflexivity|].
  destruct a as [|x a]; [discriminate H|].
  rewrite append_cons. cbn [String.prefix] in *.
  destruct (ascii_dec c x); [|discriminate H]. apply IH, H.
Qed.

(** On a line whose white space is that of ASCII, the text that
    [cleanExtraSpaces] gives never starts with two spaces, so that the
    indentation that [formatLine] has put before the line is brought down to
    one space at most; it has no white space at its end; and it is a fixed
    point: cleaning it again changes nothing. *)
Theorem clean_extra_spaces_normal_form (line : string) :
  wide_space_free line = true ->
  String.prefix "  " (cleanExtraSpaces line) = false
  /\ JS.trim_end (cleanExtraSpaces line) = cleanExtraSpaces line
  /\ cleanExtraSpaces (cleanExtraSpaces line) = cleanExtraSpaces line.
Proof.
  intros _. rewrite !cleanExtraSpaces_trim.
  set (text := pushed line false "000" false).
  destruct (trim_end_prefix text) as [ws Hws].
  refine (conj _ (conj _ _)).
  - destruct (String.prefix "  " (JS.trim_end text)) eqn:H; [|reflexivity].
    apply (prefix_of_prefix _ _ ws) in H. rewrite <- Hws in H.
    unfold text in H. rewrite pushed_start in H. discriminate H.
  - apply trim_end_idem.
  - rewrite kept_pushed; [apply trim_end_idem|].
    apply (kept_prefix _ ws). rewrite <- Hws. apply pushed_kept.
Qed.

(** An indented line with a text in quotes that holds characters outside
    ASCII. *)
Lemma clean_extra_spaces_normal_form_witness :
  wide_space_free "        s  =  '数  组' ;  " = true
  /\ cleanExtraSpaces "        s  =  '数  组' ;  " = " s = '数  组' ;"
  /\ String.prefix "  " (cleanExtraSpaces "        s  =  '数  组' ;  ") = false.
Proof.
  split; [reflexivity|]. split; [reflexivity|].
  apply (proj1 (clean_extra_spaces_normal_form "        s  =  '数  组' ;  "
                  eq_refl)).
Defined.

(** A line without a quote character. *)
Definition quote_free (line : string) : bool :=
  all_chars (fun c => negb (Ascii.eqb c "034" || Ascii.eqb c "'")) line.

(** No space follows a space; [after_space] tells that the text comes after
    one. *)
Fixpoint single_spaced (after_space : bool) (s : string) : bool :=
  match s with
  | EmptyString => true
  | String c rest =>
      if Ascii.eqb c " " then negb after_space && single_spaced true rest
      else single_spaced false rest
  end.

Lemma pushed_single_spaced (line : string) (stringChar : ascii) :
  quote_free line = true ->
  forall lastWasSpace,
    single_spaced lastWasSpace (pushed line false stringChar lastWasSpace)
    = true.
Proof.
  unfold quote_free.
  induction line as [|c line IH]; intros Hfree lastWasSpace; [reflexivity|].
  cbn [all_chars] in Hfree. apply andb_prop in Hfree.
  destruct Hfree as [Hc Hfree]. apply negb_true_iff in Hc.
  cbn [pushed negb andb]. rewrite Hc.
  destruct (Ascii.eqb c " ") eqn:Hspace.
  - destruct lastWasSpace; cbn [negb]; [apply IH, Hfree|].
    cbn [single_spaced]. rewrite Hspace. apply IH, Hfree.
  - cbn [single_spaced]. rewrite Hspace. apply IH, Hfree.
Qed.

Lemma single_spaced_prefix (a b : string) :
  forall after_space,
    single_spaced after_space (a +:+ b) = true ->
    single_spaced after_space a = true.
Proof.
  induction a as [|c a IH]; intros after_space H; [reflexivity|].
  rewrite append_cons in H. cbn [single_spaced] in *.
  destruct (Ascii.eqb c " "); [|apply IH, H].
  apply andb_prop in H. destruct H as [-> H]. apply IH, H.
Qed.

Lemma single_spaced_includes (s : string) :
  forall after_space,
    single_spaced after_space s = true ->
    JS.includes s "  " = false
    /\ (after_space = true -> String.prefix " " s = false).
Proof.
  induction s as [|c s IH]; intros after_space H.
  - split; reflexivity.
  - rewrite includes_unfold. cbn [single_spaced] in H.
    cbn [String.prefix].
    destruct (ascii_dec " " c) as [<-|Hc].
    + cbn [Ascii.eqb Bool.eqb] in H. apply andb_prop in H.
      destruct H as [Hafter H]. apply negb_true_iff in Hafter.
      destruct (IH true H) as [Hin Hstart].
      split; [|intros ->; discriminate Hafter].
      rewrite Hin, orb_false_r.
      destruct s as [|d s]; [reflexivity|].
      specialize (Hstart eq_refl). cbn [String.prefix] in *.
      destruct (ascii_dec " " d); [|reflexivity].
      destruct s; discriminate Hstart.
    + destruct (Ascii.eqb c " ") eqn:Hspace;
        [apply Ascii.eqb_eq in Hspace; congruence|].
      destruct (IH false H) as [Hin _]. rewrite Hin. split; reflexivity.
Qed.

(** On a line without a quote character no two spaces are left side by side:
    every run of spaces is brought down to one. *)
Theorem clean_extra_spaces_single (line : string) :
  quote_free line = true ->
  JS.includes (cleanExtraSpaces line) "  " = false.
Proof.
  intros Hfree. rewrite cleanExtraSpaces_trim.
  destruct (trim_end_prefix (pushed line false "000" false)) as [ws Hws].
  apply (single_spaced_includes _ false).
  apply (single_spaced_prefix _ ws). rewrite <- Hws.
  apply pushed_single_spaced, Hfree.
Qed.

Lemma clean_extra_spaces_single_witness :
  quote_free "    int   a  =  1 ;  " = true
  /\ JS.includes (cleanExtraSpaces "    int   a  =  1 ;  ") "  " = false.
Proof.
  split; [reflexivity|].
  apply (clean_extra_spaces_single "    int   a  =  1 ;  "). reflexivity.
Defined.

End CleanExtraSpaces.

(** ** What a match tells about the text *)

Section RegexSoundness.
Import Regex.

(** Whether the pattern has the group [i]. *)
Fixpoint binds (i : nat) (r : regex) : bool :=
  match r with
  | Seq r1 r2 => binds i r1 || binds i r2
  | Alt r1 r2 => binds i r1 || binds i r2
  | Star r' => binds i r'
  | Group j r' => (i =? j)%nat || binds i r'
  | _ => false
  end.

(** The text is split, the continuation is what succeeded after the first
    part, and the groups that the pattern does not have are as before. *)
Definition reaches {T : Type} (r : regex) (pos : nat) (s : string)
  (caps : captures) (k : nat -> string -> captures -> option T) (v : T)
  : Prop :=
  exists w s' caps',
    s = w +:+ s'
    /\ k (pos + String.length w) s' caps' = Some v
    /\ forall i, binds i r = false -> capture caps' i = capture caps i.

Lemma reaches_here {T : Type} r pos s caps
  (k : nat -> string -> captures -> option T) v :
  k pos s caps = Some v -> reaches r pos s caps k v.
Proof.
  intros H. exists EmptyString, s, caps.
  cbn [String.length]. rewrite Nat.add_0_r. repeat split. exact H.
Qed.

Lemma reaches_one {T : Type} r pos d s caps
  (k : nat -> string -> captures -> option T) v :
  k (S pos) s caps = Some v -> reaches r pos (String d s) caps k v.
Proof.
  intros H. exists (String d EmptyString), s, caps.
  cbn [String.length]. rewrite Nat.add_1_r. repeat split. exact H.
Qed.

Lemma star_reaches {T : Type} (r' : regex)
  (k : nat -> string -> captures -> option T) (v : T)
  (IH : forall pos s caps (k' : nat -> string -> captures -> option T),
      run r' pos s caps k' = Some v -> reaches r' pos s caps k' v) :
  forall fuel pos s caps,
    star_loop r' k fuel pos s caps = Some v ->
    reaches (Star r') pos s caps k v.
Proof.
  induction fuel as [|fuel IHfuel]; intros pos s caps H.
  - apply reaches_here, H.
  - cbn [star_loop] in H.
    destruct (run r' pos s caps _) as [t|] eqn:Hrun.
    + injection H as ->.
      apply IH in Hrun. destruct Hrun as (w1 & s1 & caps1 & -> & Hk & Hcaps1).
      destruct (pos <? pos + String.length w1)%nat; [|discriminate Hk].
      apply IHfuel in Hk. destruct Hk as (w2 & s2 & caps2 & -> & Hk & Hcaps2).
      exists (w1 +:+ w2), s2, caps2. rewrite append_assoc, length_append.
      rewrite Nat.add_assoc. repeat split; [exact Hk|].
      intros i Hi. cbn [binds] in *. rewrite (Hcaps2 i Hi). apply Hcaps1, Hi.
    + apply reaches_here, H.
Qed.

Lemma run_reaches (r : regex) :
  forall (T : Type) pos s caps (k : nat -> string -> captures -> option T) v,
    run r pos s caps k = Some v -> reaches r pos s caps k v.
Proof.
  induction r as [|c|negated items| |r1 IH1 r2 IH2|r1 IH1 r2 IH2|r' IH|j r' IH| |];
    intros T pos s caps k v H.
  - apply reaches_here, H.
  - cbn [run] in H. destruct s as [|d s]; [discriminate H|].
    destruct (Ascii.eqb c d); [|discriminate H]. apply reaches_one, H.
  - cbn [run] in H. destruct s as [|d s]; [discriminate H|].
    destruct (class_matches negated items d); [|discriminate H].
    apply reaches_one, H.
  - cbn [run] in H. destruct s as [|d s]; [discriminate H|].
    destruct (is_line_terminator d); [discriminate H|]. apply reaches_one, H.
  - rewrite run_Seq in H. apply IH1 in H.
    destruct H as (w1 & s1 & caps1 & -> & H & Hcaps1).
    apply IH2 in H. destruct H as (w2 & s2 & caps2 & -> & H & Hcaps2).
    exists (w1 +:+ w2), s2, caps2. rewrite append_assoc, length_append.
    rewrite Nat.add_assoc. repeat split; [exact H|].
    intros i Hi. cbn [binds] in Hi. apply orb_false_elim in Hi.
    destruct Hi as [Hi1 Hi2]. rewrite (Hcaps2 i Hi2). apply Hcaps1, Hi1.
  - cbn [run] in H.
    destruct (run r1 pos s caps k) as [t|] eqn:H1.
    + injection H as ->. apply IH1 in H1.
      destruct H1 as (w & s' & caps' & -> & H & Hcaps).
      exists w, s', caps'. repeat split; [exact H|].
      intros i Hi. cbn [binds] in Hi. apply orb_false_elim in Hi.
      apply Hcaps, Hi.
    + apply IH2 in H. destruct H as (w & s' & caps' & -> & H & Hcaps).
      exists w, s', caps'. repeat split; [exact H|].
      intros i Hi. cbn [binds] in Hi. apply orb_false_elim in Hi.
      apply Hcaps, Hi.
  - rewrite run_Star in H. apply (star_reaches r' k v (fun pos s caps k' => IH T pos s caps k' v)) in H.
    exact H.
  - rewrite run_Group in H. apply IH in H.
    destruct H as (w & s' & caps' & -> & H & Hcaps).
    exists w, s',
      ((j, String.substring 0 (pos + String.length w - pos) (w +:+ s'))
         :: caps').
    split; [reflexivity|]. split; [exact H|].
    intros i Hi. cbn [binds] in Hi. apply orb_false_elim in Hi.
    destruct Hi as [Hij Hi]. cbn [capture]. rewrite Hij. apply Hcaps, Hi.
  - cbn [run] in H. destruct (pos =? 0)%nat; [|discriminate H].
    apply reaches_here, H.
  - cbn [run] in H. destruct s; [|discriminate H]. apply reaches_here, H.
Qed.

(** A class loop has gone over characters of the class. *)
Lemma star_class_sound {T : Type} negated items
  (k : nat -> string -> captures -> option T) v :
  forall fuel pos s caps,
    star_loop (Class negated items) k fuel pos s caps = Some v ->
    exists w rest,
      s = w +:+ rest
      /\ all_chars (class_matches negated items) w = true
      /\ k (pos + String.length w) rest caps = Some v.
Proof.
  induction fuel as [|fuel IH]; intros pos s caps H.
  - exists EmptyString, s. cbn [String.length]. rewrite Nat.add_0_r.
    repeat split. exact H.
  - cbn [star_loop run] in H.
    destruct s as [|d s].
    + exists EmptyString, EmptyString. cbn [String.length].
      rewrite Nat.add_0_r. repeat split. exact H.
    + destruct (class_matches negated items d) eqn:Hd.
      * assert (Hlt : (pos <? S pos)%nat = true) by (apply Nat.ltb_lt; lia).
        rewrite Hlt in H.
        fold (star_loop (Class negated items) k) in H.
        destruct (star_loop (Class negated items) k fuel (S pos) s caps)
          as [t|] eqn:Hstar.
        -- injection H as ->. apply IH in Hstar.
           destruct Hstar as (w & rest & -> & Hall & Hk).
           exists (String d w), rest. rewrite append_cons.
           cbn [all_chars String.length]. rewrite Hd, Hall.
           repeat split. rewrite <- Hk. f_equal. lia.
        -- exists EmptyString, (String d s). cbn [String.length].
           rewrite Nat.add_0_r. repeat split. exact H.
      * exists EmptyString, (String d s). cbn [String.length].
        rewrite Nat.add_0_r. repeat split. exact H.
Qed.

Lemma run_Star_class_sound {T : Type} negated items pos s caps
  (k : nat -> string -> captures -> option T) v :
  run (Star (Class negated items)) pos s caps k = Some v ->
  exists w rest,
    s = w +:+ rest
    /\ all_chars (class_matches negated items) w = true
    /\ k (pos + String.length w) rest caps = Some v.
Proof. rewrite run_Star. apply star_class_sound. Qed.

Lemma run_Str_sound {T : Type} p :
  forall pos s caps (k : nat -> string -> captures -> option T) v,
    run (Str p) pos s caps k = Some v ->
    exists rest, s = p +:+ rest /\ k (pos + String.length p) rest caps = Some v.
Proof.
  induction p as [|c p IH]; intros pos s caps k v H.
  - exists s. cbn [String.length]. rewrite Nat.add_0_r. split; [reflexivity|].
    exact H.
  - cbn [Str] in H. rewrite run_Seq in H. cbn [run] in H.
    destruct s as [|d s]; [discriminate H|].
    destruct (Ascii.eqb c d) eqn:Hcd; [|discriminate H].
    apply Ascii.eqb_eq in Hcd. subst d.
    apply IH in H. destruct H as (rest & -> & H).
    exists rest. rewrite append_cons. split; [reflexivity|].
    rewrite <- H. f_equal. cbn [String.length]. lia.
Qed.

(** A match of the text is a match at the start of one of its ends. *)
Lemma exec_from_sound r :
  forall s pos m,
    exec_from r pos s = Some m ->
    exists before rest pos',
      s = before +:+ rest
      /\ run r (pos + String.length before) rest []
           (fun pos' _ caps => Some (pos', caps)) = Some (pos', groups m).
Proof.
  induction s as [|c s IH]; intros pos m H.
  - cbn [exec_from] in H.
    destruct (run r pos "" [] _) as [[pos' caps]|] eqn:Hrun; [|discriminate H].
    injection H as <-. exists EmptyString, EmptyString, pos'.
    cbn [String.length groups]. rewrite Nat.add_0_r. split; [reflexivity|].
    exact Hrun.
  - cbn [exec_from] in H.
    destruct (run r pos (String c s) [] _) as [[pos' caps]|] eqn:Hrun.
    + injection H as <-. exists EmptyString, (String c s), pos'.
      cbn [String.length groups]. rewrite Nat.add_0_r. split; [reflexivity|].
      exact Hrun.
    + apply IH in H. destruct H as (before & rest & pos' & -> & H).
      exists (String c before), rest, pos'. rewrite append_cons.
      split; [reflexivity|]. rewrite <- H. f_equal. cbn [String.length]. lia.
Qed.

Lemma includes_after (before s pat : string) :
  JS.includes s pat = true -> JS.includes (before +:+ s) pat = true.
Proof.
  intros H. induction before as [|c before IH]; [exact H|].
  rewrite append_cons, includes_unfold, IH. apply orb_true_r.
Qed.

Lemma includes_within (before pat rest : string) :
  JS.includes (before +:+ pat +:+ rest) pat = true.
Proof. apply includes_after, includes_prefix, prefix_append. Qed.

End RegexSoundness.

(** ** The fixes that write a return statement over a line *)

Section ReturnFixes.
Import JS Regex SysyQuickFixProvider ErrorMessageProvider.

(** A match of a pattern that starts with white space as group 1 and
    [return]: the group holds white space only, and the text has [return]. *)
Lemma leading_indent (R : regex) (line : string) (m : match_result) :
  binds 1 R = false ->
  exec (Seq (Group 1 (Star space)) (Seq (Str "return") R)) line = Some m ->
  exists indent,
    group m 1 = Some indent
    /\ all_chars is_white indent = true
    /\ includes line "return" = true.
Proof.
  intros HR H. unfold exec in H. apply exec_from_sound in H.
  destruct H as (before & rest & pos' & -> & H).
  rewrite run_Seq, run_Group in H. unfold space in H.
  apply run_Star_class_sound in H. destruct H as (indent & rest' & -> & Hall & H).
  rewrite substring_captured, run_Seq in H.
  apply run_Str_sound in H. destruct H as (rest'' & -> & H).
  apply run_reaches in H. destruct H as (w & s' & caps' & _ & H & Hcaps).
  injection H as _ H.
  exists indent. unfold group. rewrite <- H, (Hcaps 1 HR).
  split; [reflexivity|]. split; [rewrite <- all_space_class; exact Hall|].
  apply includes_after, includes_within.
Qed.

Lemma empty_return_type (returnType tail : string) :
  identifier returnType = true ->
  returnType_of EMPTY_RETURN_TYPE
    (("有返回值: " +:+ returnType +:+ " 的函数不应返回为空。") +:+ tail)
  = returnType.
Proof.
  intros Hid.
  destruct (identifier_parts _ Hid) as (Hname & Hfalsy & _ & Hword & _).
  unfold returnType_of, exec.
  replace (("有返回值: " +:+ returnType +:+ " 的函数不应返回为空。") +:+ tail)
    with ("有返回值:" +:+ " " +:+ returnType +:+ " " +:+ "的函数不应返回为空" +:+
          "。" +:+ tail)
    by (rewrite !append_assoc; reflexivity).
  erewrite exec_from_hit.
  2:{ unfold EMPTY_RETURN_TYPE. cbn [seqs].
      rewrite run_Seq. apply (run_Str_hit "有返回值:").
      rewrite run_Seq.
      apply (run_Star_class false [CSpace] _ " ");
        [reflexivity|apply stops_at_word; assumption|].
      rewrite run_Seq.
      apply run_Group_Plus_class; [exact Hname|exact Hword|reflexivity|].
      rewrite run_Seq.
      apply (run_Star_class false [CSpace] _ " "); [reflexivity|reflexivity|].
      apply (run_Str_hit "的函数不应返回为空"). reflexivity. }
  unfold group. cbn [groups capture Nat.eqb mbind option_bind or_opt].
  rewrite Hfalsy. reflexivity.
Qed.

(** From the check of the return statements to the fix of an empty return.
    A function whose return type is an identifier other than [void] and whose
    last return statement among the items of its body has no value reports
    one EMPTY_RETURN diagnostic.  Its resolver reads the line on which the
    range of the diagnostic starts: it gives nothing when that line has no
    [return], and otherwise nothing or the one edit that writes, over the
    whole line, white space and [return 0;] ([return 0.0;] for [float] and
    [double]): whatever else the line holds is not kept. *)
Theorem empty_return_round_trip (func : FuncDef.t) (range : Range.t)
  (document : TextDocument.t) :
  identifier (FuncDef.functype func) = true ->
  String.eqb (FuncDef.functype func) "void" = false ->
  last (top_level_returns (top_level_items func)) = Some None ->
  FuncValidator.checkFunctionReturnType func =
    Ok [empty_return_diagnostic func]
  /\ (createEmptyReturnFix
        (toDiagnostic range (empty_return_diagnostic func)) document = Ok None
      \/ exists indent,
           all_chars is_white indent = true
           /\ createEmptyReturnFix
                (toDiagnostic range (empty_return_diagnostic func)) document =
              Ok (Some
                    (edit_action
                       ("添加返回值 '" +:+
                        defaultReturnValue (FuncDef.functype func) +:+ "'")
                       (toDiagnostic range (empty_return_diagnostic func))
                       document
                       (Range.mk
                          (Position.mk (Position.line (Range.start range)) 0)
                          (Position.mk (Position.line (Range.start range) + 1)
                             0))
                       (indent +:+ "return " +:+
                        defaultReturnValue (FuncDef.functype func) +:+ ";" +:+
                        LF))))
  /\ (includes
        (TextDocument.getLine document (Position.line (Range.start range)))
        "return" = false ->
      createEmptyReturnFix
        (toDiagnostic range (empty_return_diagnostic func)) document =
      Ok None).
Proof.
  intros Hid Hvoid Hreturns.
  assert (Hcheck : FuncValidator.checkFunctionReturnType func =
                   Ok [empty_return_diagnostic func]).
  { unfold FuncValidator.checkFunctionReturnType.
    assert (Hscan :
              match blockItems_of (FuncDef.block func) with
              | Some blockItems =>
                  FuncValidator.scan_returns blockItems
                    (false, FuncValidator.Null)
              | None => (false, FuncValidator.Null)
              end = (true, FuncValidator.Undefined)).
    { unfold top_level_items in Hreturns.
      destruct (blockItems_of (FuncDef.block func)) as [blockItems|];
        [|discriminate Hreturns].
      change (last (top_level_returns blockItems) = Some None) in Hreturns.
      rewrite scan_returns_last, Hreturns.
      reflexivity. }
    rewrite Hscan, Hvoid. cbn [negb andb FuncValidator.is_undefined].
    rewrite accept_error_one. reflexivity. }
  split; [exact Hcheck|].
  set (diagnostic := toDiagnostic range (empty_return_diagnostic func)).
  assert (Htype : returnType_of EMPTY_RETURN_TYPE
                    (LspDiagnostic.message diagnostic)
                  = FuncDef.functype func).
  { cbn [diagnostic toDiagnostic LspDiagnostic.message Diagnostic.message
         empty_return_diagnostic].
    destruct (enriched_message
                ("有返回值: " +:+ FuncDef.functype func +:+
                 " 的函数不应返回为空。")) as [tail ->]; [reflexivity|].
    apply empty_return_type, Hid. }
  unfold createEmptyReturnFix. rewrite Htype.
  change (line_of diagnostic document)
    with (TextDocument.getLine document (Position.line (Range.start range))).
  change (line_range diagnostic)
    with (Range.mk (Position.mk (Position.line (Range.start range)) 0)
            (Position.mk (Position.line (Range.start range) + 1) 0)).
  destruct (exec EMPTY_RETURN_STATEMENT
              (TextDocument.getLine document
                 (Position.line (Range.start range)))) as [m|] eqn:Hexec.
  - apply leading_indent in Hexec; [|reflexivity].
    destruct Hexec as (indent & -> & Hwhite & Hhas).
    split; [right; exists indent; split; [exact Hwhite|reflexivity]|].
    intros Hnone. rewrite Hhas in Hnone. discriminate Hnone.
  - split; [left; reflexivity|]. intros _. reflexivity.
Qed.

(** A function that returns a value and has [return;] as its one statement,
    and a document that holds it. *)
Definition returns_nothing : FuncDef.t :=
  FuncDef.mk "float" "f" []
    (Block [BlockItem.mk None (Some (Stmtreturn None))]).

Definition returns_nothing_document : TextDocument.t :=
  TextDocument.mk "file:///f.sy"
    ("float f() {" +:+ LF +:+ "  if (1) return;" +:+ LF +:+ "}" +:+ LF).

Definition second_line : Range.t :=
  Range.mk (Position.mk 1 10) (Position.mk 1 17).

Lemma empty_return_round_trip_witness :
  identifier (FuncDef.functype returns_nothing) = true
  /\ String.eqb (FuncDef.functype returns_nothing) "void" = false
  /\ last (top_level_returns (top_level_items returns_nothing)) = Some None
  /\ FuncValidator.checkFunctionReturnType returns_nothing =
     Ok [empty_return_diagnostic returns_nothing].
Proof.
  split; [reflexivity|]. split; [reflexivity|]. split; [reflexivity|].
  apply (proj1 (empty_return_round_trip returns_nothing second_line
                  returns_nothing_document eq_refl eq_refl eq_refl)).
Defined.

(** On the line [  if (1) return;] the fix writes [ return 0.0;]: the
    condition is gone. *)
Example empty_return_fix_drops_the_condition :
  createEmptyReturnFix
    (toDiagnostic second_line (empty_return_diagnostic returns_nothing))
    returns_nothing_document
  = Ok (Some
          (edit_action "添加返回值 '0.0'"
             (toDiagnostic second_line (empty_return_diagnostic returns_nothing))
             returns_nothing_document
             (Range.mk (Position.mk 1 0) (Position.mk 2 0))
             (" return 0.0;" +:+ LF))).
Proof. vm_compute. reflexivity. Qed.

(** From the check of the return statements to the fix of a value returned
    by a [void] function.  A [void] function whose last return statement
    among the items of its body has a value reports one VOID_RETURN_VALUE
    diagnostic.  Its resolver reads the line on which the range of the
    diagnostic starts: it gives nothing when that line has no [return], and
    otherwise nothing or the one edit that writes, over the whole line, white
    space and [return;]: whatever else the line holds is not kept. *)
Theorem void_return_value_round_trip (func : FuncDef.t) (value : Exp.t)
  (range : Range.t) (document : TextDocument.t) :
  String.eqb (FuncDef.functype func) "void" = true ->
  last (top_level_returns (top_level_items func)) = Some (Some value) ->
  FuncValidator.checkFunctionReturnType func =
    Ok [void_return_value_diagnostic func]
  /\ (createVoidReturnValueFix
        (toDiagnostic range (void_return_value_diagnostic func)) document =
      Ok None
      \/ exists indent,
           all_chars is_white indent = true
           /\ createVoidReturnValueFix
                (toDiagnostic range (void_return_value_diagnostic func))
                document =
              Ok (Some
                    (edit_action "移除 void 函数的返回值"
                       (toDiagnostic range (void_return_value_diagnostic func))
                       document
                       (Range.mk
                          (Position.mk (Position.line (Range.start range)) 0)
                          (Position.mk (Position.line (Range.start range) + 1)
                             0))
                       (indent +:+ "return;" +:+ LF))))
  /\ (includes
        (TextDocument.getLine document (Position.line (Range.start range)))
        "return" = false ->
      createVoidReturnValueFix
        (toDiagnostic range (void_return_value_diagnostic func)) document =
      Ok None).
Proof.
  intros Hvoid Hreturns.
  assert (Hcheck : FuncValidator.checkFunctionReturnType func =
                   Ok [void_return_value_diagnostic func]).
  { unfold FuncValidator.checkFunctionReturnType.
    assert (Hscan :
              match blockItems_of (FuncDef.block func) with
              | Some blockItems =>
                  FuncValidator.scan_returns blockItems
                    (false, FuncValidator.Null)
              | None => (false, FuncValidator.Null)
              end = (true, FuncValidator.Expression value)).
    { unfold top_level_items in Hreturns.
      destruct (blockItems_of (FuncDef.block func)) as [blockItems|];
        [|discriminate Hreturns].
      change (last (top_level_returns blockItems) = Some (Some value))
        in Hreturns.
      rewrite scan_returns_last, Hreturns.
      reflexivity. }
    rewrite Hscan, Hvoid. cbn [negb andb FuncValidator.is_undefined].
    rewrite accept_error_one. reflexivity. }
  split; [exact Hcheck|].
  set (diagnostic := toDiagnostic range (void_return_value_diagnostic func)).
  unfold createVoidReturnValueFix.
  change (line_of diagnostic document)
    with (TextDocument.getLine document (Position.line (Range.start range))).
  change (line_range diagnostic)
    with (Range.mk (Position.mk (Position.line (Range.start range)) 0)
            (Position.mk (Position.line (Range.start range) + 1) 0)).
  destruct (exec RETURN_VALUE
              (TextDocument.getLine document
                 (Position.line (Range.start range)))) as [m|] eqn:Hexec.
  - apply leading_indent in Hexec; [|reflexivity].
    destruct Hexec as (indent & -> & Hwhite & Hhas).
    split; [right; exists indent; split; [exact Hwhite|reflexivity]|].
    intros Hnone. rewrite Hhas in Hnone. discriminate Hnone.
  - split; [left; reflexivity|]. intros _. reflexivity.
Qed.

Definition returns_one : FuncDef.t :=
  FuncDef.mk "void" "g" []
    (Block [BlockItem.mk None (Some (Stmtreturn (Some (Exp.mk (Some "1")))))]).

Lemma void_return_value_round_trip_witness :
  String.eqb (FuncDef.functype returns_one) "void" = true
  /\ last (top_level_returns (top_level_items returns_one))
     = Some (Some (Exp.mk (Some "1")))
  /\ FuncValidator.checkFunctionReturnType returns_one =
     Ok [void_return_value_diagnostic returns_one].
Proof.
  split; [reflexivity|]. split; [reflexivity|].
  apply (proj1 (void_return_value_round_trip returns_one (Exp.mk (Some "1"))
                  second_line returns_nothing_document eq_refl eq_refl)).
Defined.

End ReturnFixes.

(** ** The direct edit of the arguments of a call *)

Section DirectEdit.
Import JS Regex SysyQuickFixProvider ErrorMessageProvider.

(** A message from which the two counts are read has the text that
    [createAdditionalFixes] looks for. *)
Lemma counts_mention (msg : string) (counts : Z * Z) :
  parameter_counts msg = Some counts -> includes msg "传递了" = true.
Proof.
  unfold parameter_counts, exec.
  destruct (exec_from PARAMETER_COUNTS 0 msg) as [m|] eqn:H; [|discriminate].
  intros _. apply exec_from_sound in H.
  destruct H as (before & rest & pos' & -> & H).
  unfold PARAMETER_COUNTS in H. cbn [seqs] in H.
  rewrite run_Seq in H. apply run_Str_sound in H. destruct H as (rest1 & -> & H).
  rewrite run_Seq in H. apply run_reaches in H.
  destruct H as (w1 & rest2 & caps2 & -> & H & _).
  rewrite run_Seq in H. apply run_reaches in H.
  destruct H as (w2 & rest3 & caps3 & -> & H & _).
  rewrite run_Seq in H. apply run_reaches in H.
  destruct H as (w3 & rest4 & caps4 & -> & H & _).
  rewrite run_Seq in H. apply run_Str_sound in H. destruct H as (rest5 & -> & _).
  do 5 apply includes_after.
  apply (includes_within "个参数，但实际调用时" "传递了" rest5).
Qed.

(** Every run of [adjust_by_message] ends in one of two ways: without an
    edit, or with the edit that removes arguments. *)
Lemma adjust_by_message_cases (diagnostic : LspDiagnostic.t)
  (document : TextDocument.t) :
  adjust_by_message diagnostic document = Ok None
  \/ exists expectedCount actualCount callMatch startIndex,
       parameter_counts (LspDiagnostic.message diagnostic)
       = Some (expectedCount, actualCount)
       /\ (expectedCount < actualCount)%Z
       /\ exec CALL (line_of diagnostic document) = Some callMatch
       /\ indexOf (line_of diagnostic document) (matched callMatch)
          = Some startIndex
       /\ adjust_by_message diagnostic document =
          Ok (Some
                (edit_action
                   ("将函数 '" +:+ default EmptyString (group callMatch 1) +:+
                    "' 调用参数减少到 " +:+ string_of_Z expectedCount +:+ " 个")
                   diagnostic document
                   (Range.mk
                      (Position.mk (start_line diagnostic) startIndex)
                      (Position.mk (start_line diagnostic)
                         (startIndex + String.length (matched callMatch))))
                   (default EmptyString (group callMatch 1) +:+ "(" +:+
                    join ", "
                      (firstn (Z.to_nat expectedCount)
                         (map trim
                            (split ","
                               (default EmptyString (group callMatch 2)))))
                    +:+ ")"))).
Proof.
  unfold adjust_by_message.
  destruct (includes (LspDiagnostic.message diagnostic) "传递了") eqn:Hhas.
  - unfold createAdjustParametersFix.
    destruct (parameter_counts (LspDiagnostic.message diagnostic))
      as [[expectedCount actualCount]|] eqn:Hcounts; [|left; reflexivity].
    destruct (exec CALL (line_of diagnostic document)) as [callMatch|] eqn:Hcall;
      [|left; reflexivity].
    cbn [negb andb].
    destruct (expectedCount <? actualCount)%Z eqn:Hmore; [|left; reflexivity].
    destruct (indexOf (line_of diagnostic document) (matched callMatch))
      as [startIndex|] eqn:Hindex; [|left; reflexivity].
    right. exists expectedCount, actualCount, callMatch, startIndex.
    split; [reflexivity|]. split; [apply Z.ltb_lt, Hmore|].
    split; [reflexivity|]. split; [exact Hindex|]. reflexivity.
  - left. unfold createAdjustParametersFix.
    destruct (parameter_counts (LspDiagnostic.message diagnostic))
      as [counts|] eqn:Hcounts; [|reflexivity].
    apply counts_mention in Hcounts. rewrite Hcounts in Hhas.
    discriminate Hhas.
Qed.

(** Through [createAdditionalFixes] the direct edit of a call only ever
    removes arguments.  The branch of [createAdjustParametersFix] that adds
    the missing ones is taken when its third argument is false, which
    [createAdditionalFixes] passes only for a message without the text that
    the pattern of the two counts requires.  So, for a message whose white
    space is that of ASCII, an edit is offered only when the message tells
    more arguments passed than expected, whatever the line of the call.  On
    a line of ASCII text, and for counts that the program holds exactly
    (below 2^53), the edit, when there is one, is over the text of the call
    and writes the name of the call with the first arguments, as many as
    expected at most. *)
Theorem direct_edit_only_removes (diagnostic : LspDiagnostic.t)
  (document : TextDocument.t) :
  wide_space_free (LspDiagnostic.message diagnostic) = true ->
  (forall action,
     adjust_by_message diagnostic document = Ok (Some action) ->
     exists expectedCount actualCount,
       parameter_counts (LspDiagnostic.message diagnostic)
       = Some (expectedCount, actualCount)
       /\ (expectedCount < actualCount)%Z)
  /\ (ascii_text (line_of diagnostic document) = true ->
      (forall expectedCount actualCount,
         parameter_counts (LspDiagnostic.message diagnostic)
         = Some (expectedCount, actualCount) ->
         (expectedCount < 2 ^ 53)%Z /\ (actualCount < 2 ^ 53)%Z) ->
      adjust_by_message diagnostic document = Ok None
      \/ exists expectedCount actualCount callMatch startIndex,
           parameter_counts (LspDiagnostic.message diagnostic)
           = Some (expectedCount, actualCount)
           /\ (expectedCount < actualCount)%Z
           /\ exec CALL (line_of diagnostic document) = Some callMatch
           /\ indexOf (line_of diagnostic document) (matched callMatch)
              = Some startIndex
           /\ adjust_by_message diagnostic document =
              Ok (Some
                    (edit_action
                       ("将函数 '" +:+ default EmptyString (group callMatch 1)
                        +:+ "' 调用参数减少到 " +:+ string_of_Z expectedCount
                        +:+ " 个")
                       diagnostic document
                       (Range.mk
                          (Position.mk (start_line diagnostic) startIndex)
                          (Position.mk (start_line diagnostic)
                             (startIndex
                              + String.length (matched callMatch))))
                       (default EmptyString (group callMatch 1) +:+ "(" +:+
                        join ", "
                          (firstn (Z.to_nat expectedCount)
                             (map trim
                                (split ","
                                   (default EmptyString
                                      (group callMatch 2)))))
                        +:+ ")")))).
Proof.
  intros _. split.
  - intros action Haction.
    destruct (adjust_by_message_cases diagnostic document)
      as [Hnone|(expectedCount & actualCount & _ & _ & Hcounts & Hmore & _)].
    + rewrite Hnone in Haction. discriminate Haction.
    + exists expectedCount, actualCount. split; [exact Hcounts|exact Hmore].
  - intros _ _.
    destruct (adjust_by_message_cases diagnostic document)
      as [Hnone|(expectedCount & actualCount & callMatch & startIndex & H)].
    + left. exact Hnone.
    + right. exists expectedCount, actualCount, callMatch, startIndex.
      exact H.
Qed.

Definition call_document : TextDocument.t :=
  TextDocument.mk "file:///f.sy" ("  x = f(1, 2, 3);" +:+ LF).

Definition counts_diagnostic (expectedCount actualCount : string)
  : LspDiagnostic.t :=
  LspDiagnostic.mk (Range.mk (Position.mk 0 6) (Position.mk 0 16))
    ("参数个数不匹配。预期 " +:+ expectedCount +:+
     " 个参数，但实际调用时传递了 " +:+ actualCount +:+ " 个参数")
    (Some (CodeString ERROR_CODES.PARAMETER_MISMATCH)).

(** Three arguments where one is expected: the call is written again with
    the first one. *)
Example direct_edit_removes :
  adjust_by_message (counts_diagnostic "1" "3") call_document
  = Ok (Some
          (edit_action "将函数 'f' 调用参数减少到 1 个"
             (counts_diagnostic "1" "3") call_document
             (Range.mk (Position.mk 0 6) (Position.mk 0 16)) "f(1)")).
Proof. vm_compute. reflexivity. Qed.

(** Three arguments where five are expected: no edit. *)
Example direct_edit_does_not_add :
  adjust_by_message (counts_diagnostic "5" "3") call_document = Ok None.
Proof. vm_compute. reflexivity. Qed.

Lemma direct_edit_only_removes_witness :
  wide_space_free (LspDiagnostic.message (counts_diagnostic "1" "3")) = true
  /\ ascii_text (line_of (counts_diagnostic "1" "3") call_document) = true
  /\ exists expectedCount actualCount,
       parameter_counts (LspDiagnostic.message (counts_diagnostic "1" "3"))
       = Some (expectedCount, actualCount)
       /\ (expectedCount < actualCount)%Z.
Proof.
  split; [reflexivity|]. split; [reflexivity|].
  eapply (proj1 (direct_edit_only_removes (counts_diagnostic "1" "3")
                   call_document eq_refl)).
  vm_compute. reflexivity.
Defined.

End DirectEdit.

(** ** The extraction of a function *)

Section ExtractFunction.
Import JS Regex SysyRefactorProvider.

Lemma inferReturnType_cases (code : string) :
  inferReturnType code = "int" \/ inferReturnType code = "bool".
Proof.
  unfold inferReturnType.
  destruct (includes code "return 0" || includes code "return a+b"
            || test RETURN_NUMBER code); [left; reflexivity|].
  destruct (includes code "return true" || includes code "return false");
    [right|left]; reflexivity.
Qed.

(** The code that is selected is not in the edit of [extractFunction].  In a
    document of ASCII text, for
    a selection that is valid and not empty the edit writes a call of the new
    function with the arguments [a] and [b] over the selection, and at the
    line after the last one a function with the parameters [int a, int b]
    whose body is two comments: of the selection it reads only whether
    [return ] occurs in it, and then which of five texts with [return].
    Without [return ] the function is [void] and ends in [return 0;]; with
    it the function is [int] or [bool] and has no return statement. *)
Theorem extract_function_leaves_the_code_out
  (getOrCreateDocument : string -> outcome TextDocument.t)
  (documentUri : string) (document : TextDocument.t) (range : Range.t)
  (newFunctionName : string) :
  getOrCreateDocument documentUri = Ok document ->
  ascii_text (TextDocument.text document) = true ->
  isValidExtractionRange range = true ->
  falsy (TextDocument.getText document range) = false ->
  exists returnType call_end function_end,
    (if includes (TextDocument.getText document range) "return "
     then (returnType = "int" \/ returnType = "bool")
          /\ call_end = "" /\ function_end = ""
     else returnType = "void"
          /\ call_end = ";" /\ function_end = "    return 0;" +:+ LF)
    /\ extractFunction getOrCreateDocument documentUri range newFunctionName =
       Ok (Some
             [ (documentUri,
                [ TextEdit.mk range
                    (newFunctionName +:+ "(a, b)" +:+ call_end);
                  TextEdit.mk
                    (Range.mk
                       (Position.mk (TextDocument.lineCount document) 0)
                       (Position.mk (TextDocument.lineCount document) 0))
                    (LF +:+ LF +:+ returnType +:+ " " +:+ newFunctionName +:+
                     "(int a, int b) {" +:+ LF +:+
                     "    // 这里是抽取的代码" +:+ LF +:+
                     "    // TODO: 根据实际选中代码调整" +:+ LF +:+
                     function_end +:+ "}" +:+ LF) ]) ]).
Proof.
  intros Hdocument _ Hvalid Hcode.
  unfold extractFunction. rewrite Hdocument. cbn [bind].
  rewrite Hvalid. cbn [negb getTextInRange]. rewrite Hcode.
  unfold analyzeSelectedCode, generateNewFunction, generateFunctionCall,
    findFunctionInsertPosition, findUsedVariables.
  cbn [parameters hasReturn returnType map name type join].
  destruct (includes (TextDocument.getText document range) "return ").
  - exists (inferReturnType (TextDocument.getText document range)), "", "".
    split; [split; [apply inferReturnType_cases|split; reflexivity]|].
    rewrite !append_assoc. cbn. rewrite ?append_empty_r. reflexivity.
  - exists "void", ";", ("    return 0;" +:+ LF).
    split; [repeat split|].
    rewrite !append_assoc. cbn. reflexivity.
Qed.

Definition selection_document : TextDocument.t :=
  TextDocument.mk "file:///m.sy"
    ("int main() {" +:+ LF +:+ "  int c = a * b + 1;" +:+ LF +:+ "}" +:+ LF).

Definition selection : Range.t :=
  Range.mk (Position.mk 1 2) (Position.mk 1 20).

Lemma extract_function_leaves_the_code_out_witness :
  ascii_text (TextDocument.text selection_document) = true
  /\ isValidExtractionRange selection = true
  /\ falsy (TextDocument.getText selection_document selection) = false
  /\ extractFunction (fun _ => Ok selection_document) "file:///m.sy" selection
       "product" =
     Ok (Some
           [ ("file:///m.sy",
              [ TextEdit.mk selection "product(a, b);";
                TextEdit.mk (Range.mk (Position.mk 4 0) (Position.mk 4 0))
                  (LF +:+ LF +:+ "void product(int a, int b) {" +:+ LF +:+
                   "    // 这里是抽取的代码" +:+ LF +:+
                   "    // TODO: 根据实际选中代码调整" +:+ LF +:+
                   "    return 0;" +:+ LF +:+ "}" +:+ LF) ]) ]).
Proof.
  split; [reflexivity|]. split; [reflexivity|]. split; [reflexivity|].
  destruct (extract_function_leaves_the_code_out
              (fun _ => Ok selection_document) "file:///m.sy"
              selection_document selection "product" eq_refl eq_refl eq_refl
              eq_refl)
    as (returnType & call_end & function_end & Hshape & ->).
  change (includes (TextDocument.getText selection_document selection)
            "return ") with false in Hshape.
  destruct Hshape as (-> & -> & ->). reflexivity.
Defined.

End ExtractFunction.

(** ** The request that adjusts the arguments of a call *)

Section AdjustRequest.
Import JS Regex SysyQuickFixProvider.

Lemma prefix_substring (n : nat) :
  forall s, String.prefix (String.substring 0 n s) s = true.
Proof.
  induction n as [|n IH]; intros [|c s]; try reflexivity.
  cbn [String.substring String.prefix].
  destruct (ascii_dec c c); [apply IH|contradiction].
Qed.

Lemma exec_from_matched r :
  forall s pos m,
    exec_from r pos s = Some m ->
    exists before rest n,
      s = before +:+ rest /\ matched m = String.substring 0 n rest.
Proof.
  induction s as [|c s IH]; intros pos m H.
  - cbn [exec_from] in H.
    destruct (run r pos "" [] _) as [[pos' caps]|]; [|discriminate H].
    injection H as <-. exists EmptyString, EmptyString, (pos' - pos).
    split; reflexivity.
  - cbn [exec_from] in H.
    destruct (run r pos (String c s) [] _) as [[pos' caps]|].
    + injection H as <-. exists EmptyString, (String c s), (pos' - pos).
      split; reflexivity.
    + apply IH in H. destruct H as (before & rest & n & -> & H).
      exists (String c before), rest, n. rewrite append_cons.
      split; [reflexivity|exact H].
Qed.

Lemma indexOf_from_finds (before rest pat : string) :
  String.prefix pat rest = true ->
  forall pos, exists i, indexOf_from (before +:+ rest) pat pos = Some i.
Proof.
  intros Hprefix. induction before as [|c before IH]; intros pos.
  - exists pos. change ("" +:+ rest) with rest.
    destruct rest; cbn [indexOf_from]; rewrite Hprefix; reflexivity.
  - rewrite append_cons. cbn [indexOf_from].
    destruct (String.prefix pat (String c (before +:+ rest)));
      [exists pos; reflexivity|apply IH].
Qed.

(** The text that matched occurs in the text. *)
Lemma exec_matched_found r line m :
  exec r line = Some m -> exists i, indexOf line (matched m) = Some i.
Proof.
  intros H. apply exec_from_matched in H.
  destruct H as (before & rest & n & -> & ->).
  apply indexOf_from_finds, prefix_substring.
Qed.

Lemma placeholders_length n : forall i, length (placeholders i n) = n.
Proof.
  induction n as [|n IH]; intros i; [reflexivity|].
  cbn [placeholders length]. rewrite IH. reflexivity.
Qed.

(** The request [sysy.adjustParameters] writes as many arguments as are
    expected.  When the line of the range is in the document, is ASCII text
    and has a call on it, the edit writes, over the text that matched, the
    name of
    the call and a list of exactly [expectedCount] entries: the first of the
    trimmed arguments when there are more, and otherwise all of them and
    place holders for the rest.  Without the line or without a call the
    answer is [null]. *)
Theorem adjust_request_writes_expected_count
  (getOrCreateDocument : string -> outcome TextDocument.t)
  (uri : string) (document : TextDocument.t) (range : Range.t)
  (expectedCount : Z) :
  getOrCreateDocument uri = Ok document ->
  (0 <= expectedCount)%Z ->
  ascii_text
    (default EmptyString
       (nth_error (split "010" (TextDocument.text document))
          (Position.line (Range.start range)))) = true ->
  match
    nth_error (split "010" (TextDocument.text document))
      (Position.line (Range.start range))
    ≫= exec CALL
  with
  | None =>
      Requests.adjustParameters getOrCreateDocument uri range expectedCount
      = Ok None
  | Some match_ =>
      exists newParams startIdx,
        length newParams = Z.to_nat expectedCount
        /\ Requests.adjustParameters getOrCreateDocument uri range
             expectedCount =
           Ok (Some
                 [ (uri,
                    [ TextEdit.mk
                        (Range.mk
                           (Position.mk (Position.line (Range.start range))
                              startIdx)
                           (Position.mk (Position.line (Range.start range))
                              (startIdx + String.length (matched match_))))
                        (default EmptyString (group match_ 1) +:+ "(" +:+
                         join ", " newParams +:+ ")") ]) ])
  end.
Proof.
  intros Hdocument Hexpected _.
  unfold Requests.adjustParameters. rewrite Hdocument. cbn [bind].
  destruct (nth_error (split "010" (TextDocument.text document))
              (Position.line (Range.start range))) as [line|];
    [|reflexivity].
  cbn [mbind option_bind].
  destruct (exec CALL line) as [match_|] eqn:Hcall; [|reflexivity].
  destruct (exec_matched_found _ _ _ Hcall) as [startIdx ->].
  cbn [try_catch].
  eexists _, startIdx. split; [|reflexivity].
  destruct (expectedCount <? _)%Z eqn:Hmore.
  - apply Z.ltb_lt in Hmore. unfold Requests.slice_to.
    destruct (expectedCount <? 0)%Z eqn:Hneg; [apply Z.ltb_lt in Hneg; lia|].
    rewrite length_firstn. lia.
  - apply Z.ltb_ge in Hmore.
    rewrite length_app, placeholders_length. lia.
Qed.

Definition empty_call_document : TextDocument.t :=
  TextDocument.mk "file:///c.sy" ("  f();" +:+ LF).

Lemma adjust_request_writes_expected_count_witness :
  (0 <= 2)%Z
  /\ ascii_text
       (default EmptyString
          (nth_error (split "010" (TextDocument.text empty_call_document))
             0)) = true
  /\ exists newParams startIdx,
       length newParams = 2
       /\ Requests.adjustParameters (fun _ => Ok empty_call_document)
            "file:///c.sy" (Range.mk (Position.mk 0 2) (Position.mk 0 5)) 2 =
          Ok (Some
                [ ("file:///c.sy",
                   [ TextEdit.mk
                       (Range.mk (Position.mk 0 startIdx)
                          (Position.mk 0 (startIdx + 3)))
                       ("f(" +:+ join ", " newParams +:+ ")") ]) ]).
Proof.
  split; [exact Z.le_0_2|]. split; [reflexivity|].
  exact (adjust_request_writes_expected_count
           (fun _ => Ok empty_call_document) "file:///c.sy"
           empty_call_document
           (Range.mk (Position.mk 0 2) (Position.mk 0 5)) 2 eq_refl
           Z.le_0_2 eq_refl).
Defined.

(** A call without arguments has one argument for the request, the empty
    text: with two expected, the list starts with a comma and the place
    holder is the second. *)
Example adjust_request_on_an_empty_call :
  Requests.adjustParameters (fun _ => Ok empty_call_document) "file:///c.sy"
    (Range.mk (Position.mk 0 2) (Position.mk 0 5)) 2
  = Ok (Some
          [ ("file:///c.sy",
             [ TextEdit.mk (Range.mk (Position.mk 0 2) (Position.mk 0 5))
                 "f(, 0 /* 参数2 */)" ]) ]).
Proof. vm_compute. reflexivity. Qed.

End AdjustRequest.

(** ** The round brackets of a line *)

Section RoundBrackets.
Import JS SysYCompiler.

(** What a character adds to the count of the open brackets. *)
Definition round (c : ascii) : Z :=
  if Ascii.eqb c "(" then 1 else if Ascii.eqb c ")" then -1 else 0.

(** The opening brackets of a text minus its closing brackets. *)
Fixpoint open_round (s : string) : Z :=
  match s with
  | EmptyString => 0
  | String c s' => round c + open_round s'
  end.

(** Reading the text from the count [depth], no closing bracket comes
    without its opening bracket. *)
Fixpoint closes_in_order (depth : Z) (s : string) : bool :=
  match s with
  | EmptyString => true
  | String c s' =>
      (0 <=? depth + round c)%Z && closes_in_order (depth + round c) s'
  end.

(** Every closing bracket of the text closes an earlier opening bracket of
    the text, and every opening bracket is closed. *)
Definition balanced (s : string) : bool :=
  closes_in_order 0 s && (open_round s =? 0)%Z.

Definition bracket_message (e : CompileError) : bool :=
  String.prefix "括号不匹配" (message e).

Lemma scan_brackets_round c openBrackets :
  (if Ascii.eqb c "(" then openBrackets + 1
   else if Ascii.eqb c ")" then openBrackets - 1 else openBrackets)%Z
  = (openBrackets + round c)%Z.
Proof.
  unfold round. destruct (Ascii.eqb c "("); [reflexivity|].
  destruct (Ascii.eqb c ")"); lia.
Qed.

Lemma scan_brackets_in_order (s : string) :
  forall j openBrackets,
    closes_in_order openBrackets s = true ->
    scan_brackets s j openBrackets = ((openBrackets + open_round s)%Z, None).
Proof.
  induction s as [|c s IH]; intros j openBrackets H.
  - cbn. rewrite Z.add_0_r. reflexivity.
  - cbn [closes_in_order] in H. apply andb_prop in H. destruct H as [Hc H].
    cbn [scan_brackets open_round]. rewrite scan_brackets_round.
    apply Z.leb_le in Hc.
    destruct (openBrackets + round c <? 0)%Z eqn:Hneg;
      [apply Z.ltb_lt in Hneg; lia|].
    rewrite (IH _ _ H). f_equal. lia.
Qed.

Lemma scan_brackets_left (s : string) :
  forall j openBrackets,
    closes_in_order openBrackets s = false ->
    exists count at_,
      scan_brackets s j openBrackets = (count, Some at_) /\ (count < 0)%Z.
Proof.
  induction s as [|c s IH]; intros j openBrackets H; [discriminate H|].
  cbn [closes_in_order] in H. cbn [scan_brackets].
  rewrite scan_brackets_round.
  destruct (openBrackets + round c <? 0)%Z eqn:Hneg.
  - apply Z.ltb_lt in Hneg. eexists _, _. split; [reflexivity|exact Hneg].
  - apply Z.ltb_ge in Hneg. apply Z.leb_le in Hneg. rewrite Hneg in H.
    apply IH, H.
Qed.

(** A line has no error of its brackets exactly when it is balanced, and it
    never has more than one. *)
Lemma bracket_errors_balanced (i : Z) (line : string) :
  (bracket_errors i line = [] <-> balanced line = true)
  /\ length (bracket_errors i line) <= 1
  /\ Forall (fun e => bracket_message e = true) (bracket_errors i line).
Proof.
  unfold bracket_errors, balanced.
  destruct (closes_in_order 0 line) eqn:Horder.
  - rewrite (scan_brackets_in_order _ _ _ Horder). cbn [app andb].
    rewrite Z.add_0_l.
    destruct (0 <? open_round line)%Z eqn:Hopen.
    + apply Z.ltb_lt in Hopen.
      split; [split; [discriminate|]|split; [cbn; lia|]].
      * intros H. apply Z.eqb_eq in H. lia.
      * repeat constructor.
    + apply Z.ltb_ge in Hopen.
      split; [split; [intros _|reflexivity]|split; [cbn; lia|constructor]].
      apply Z.eqb_eq.
      pose proof (scan_brackets_in_order line 0 0 Horder) as Hscan.
      assert (Hge : forall s depth,
                 closes_in_order depth s = true ->
                 (0 <= depth)%Z -> (0 <= depth + open_round s)%Z).
      { clear. induction s as [|c s IH]; intros depth H Hdepth;
          [cbn; lia|].
        cbn [closes_in_order open_round] in *.
        apply andb_prop in H. destruct H as [Hc H]. apply Z.leb_le in Hc.
        specialize (IH _ H Hc). lia. }
      specialize (Hge line 0%Z Horder ltac:(lia)). lia.
  - destruct (scan_brackets_left line 0 0 Horder) as (count & at_ & -> & Hneg).
    destruct (0 <? count)%Z eqn:Hpos; [apply Z.ltb_lt in Hpos; lia|].
    cbn [app andb].
    split; [split; discriminate|split; [cbn; lia|repeat constructor]].
Qed.

Lemma array_errors_message (i : Z) (line : string) :
  Forall (fun e => bracket_message e = false) (array_errors i line).
Proof.
  unfold array_errors.
  destruct (Regex.exec ARRAY_INIT line) as [m|]; [|constructor].
  destruct (Regex.group m 2 ≫= parseInt) as [size|]; [|constructor].
  destruct (size <? _)%Z; constructor; [reflexivity|constructor].
Qed.

(** The brackets are checked line by line.  The syntax analysis reports no
    error of unmatched brackets exactly when every line of the code, taken
    alone and trimmed, has its round brackets balanced: each closing bracket
    after its opening bracket on the same line, and each opening bracket
    closed on that line.  A call whose arguments go over two lines is
    reported. *)
Theorem brackets_are_checked_line_by_line (code : string) :
  Forall (fun text => balanced (trim text) = true) (split "010" code)
  <-> Forall (fun e => bracket_message e = false)
        (fst (_performSyntaxAnalysis code)).
Proof.
  unfold _performSyntaxAnalysis. generalize 0%Z as i.
  induction (split "010" code) as [|text lines IH]; intros i.
  - split; constructor.
  - cbn [analyse_lines].
    destruct (analyse_lines lines (i + 1)) as [errors warnings] eqn:Hrest.
    specialize (IH (i + 1)%Z). rewrite Hrest in IH. cbn [fst] in *.
    destruct (bracket_errors_balanced i (trim text)) as (Hiff & _ & Hall).
    rewrite !Forall_app, Forall_cons. split.
    + intros [Hline Hlines]. apply Hiff in Hline. rewrite Hline.
      split; [constructor|].
      split; [apply array_errors_message|apply IH, Hlines].
    + intros (Hbracket & _ & Herrors).
      split; [|apply IH, Herrors]. apply Hiff.
      destruct (bracket_errors i (trim text)) as [|e es]; [reflexivity|].
      apply Forall_cons in Hbracket. apply Forall_cons in Hall.
      destruct Hbracket as [Hno _]. destruct Hall as [Hyes _].
      rewrite Hyes in Hno. discriminate Hno.
Qed.

(** A call over two lines: one error for each line. *)
Example call_over_two_lines :
  map message
    (fst (_performSyntaxAnalysis ("x = f(1," +:+ LF +:+ "      2);")))
  = [ "括号不匹配，缺少右括号"; "括号不匹配，多余的右括号" ].
Proof. vm_compute. reflexivity. Qed.

End RoundBrackets.

(** ** The fix of the size of an array, on a line that is known in part *)

Section ArrayFix.
Import JS Regex SysyQuickFixProvider ErrorMessageProvider.








































End ArrayFix.
